(** * Smart Content Extractor: ingestion, classification, storage, orchestration

  A shallow embedding of the Python pipeline under
  [workflows/smart-extractor] (core/loader.py, core/detector.py,
  core/storage.py, main.py) together with the properties its design
  document states about it.

  Conventions of the embedding.
  - A Python [str] is a [string]; its characters are the code points
    0..255, classified (white space, word characters, lower-casing) the
    way CPython classifies those code points.
  - A Python dictionary with a fixed set of optional keys is a record of
    [option] fields ([None] = the key is absent); a dictionary used as an
    open map is a [gmap].
  - Code that can raise returns a [result]; code that mutates an object or
    the file system threads the state explicitly. *)

From Stdlib Require Import Ascii NArith.
From stdpp Require Import gmap strings list pretty.

Local Open Scope stdpp_scope.

(** ** Exceptions *)

Inductive exn_kind :=
| AttributeError
| FileNotFoundError
| FileExistsError
| IsADirectoryError
| NotADirectoryError
| ValueError
| JSONDecodeError
| ExtractionError.

Record exn := Exn { exn_class : exn_kind; exn_msg : string }.

Inductive result (A : Type) :=
| Ok (a : A)
| Raise (e : exn).
Arguments Ok {A} a.
Arguments Raise {A} e.

Global Instance exn_kind_eq_dec : EqDecision exn_kind.
Proof. solve_decision. Defined.

(** [except json.JSONDecodeError] catches that class only: JSONDecodeError
    derives from ValueError, not the other way round. *)
Definition is_json_decode_error (e : exn) : bool :=
  bool_decide (exn_class e = JSONDecodeError).

Definition result_bind {A B} (r : result A) (k : A → result B) : result B :=
  match r with
  | Ok a => k a
  | Raise e => Raise e
  end.

Definition raises {A} (r : result A) : Prop := ∃ e, r = Raise e.
Definition returns {A} (r : result A) : Prop := ∃ a, r = Ok a.

(** ** Python string primitives *)

Module PyStr.
Local Open Scope N_scope.

Definition code (c : ascii) : N := N_of_ascii c.

Definition between (lo hi : N) (c : ascii) : bool :=
  (lo <=? code c) && (code c <=? hi).

(** [str.isspace] and the class [\s] of [re] on code points below 256. *)
Definition isspace (c : ascii) : bool :=
  between 9 13 c || between 28 32 c || (code c =? 133) || (code c =? 160).

(** [str.isalnum]: letters, decimal digits and the numeric characters of
    Latin-1. *)
Definition isalnum (c : ascii) : bool :=
  between 48 57 c || between 65 90 c || between 97 122 c
  || (code c =? 170) || between 178 179 c || (code c =? 181)
  || between 185 186 c || between 188 190 c
  || between 192 214 c || between 216 246 c || between 248 255 c.

(** The class [\w] of [re]. *)
Definition isword (c : ascii) : bool := isalnum c || (code c =? 95).

Definition is_upper (c : ascii) : bool :=
  between 65 90 c || between 192 214 c || between 216 222 c.

Definition tolower (c : ascii) : ascii :=
  if is_upper c then ascii_of_N (code c + 32) else c.

Fixpoint lower (s : string) : string :=
  match s with
  | "" => ""
  | String c s' => String (tolower c) (lower s')
  end.

Fixpoint lstrip_by (p : ascii → bool) (s : string) : string :=
  match s with
  | "" => ""
  | String c s' => if p c then lstrip_by p s' else s
  end.

Fixpoint rstrip_by (p : ascii → bool) (s : string) : string :=
  match s with
  | "" => ""
  | String c s' =>
      match rstrip_by p s' with
      | "" => if p c then "" else String c ""
      | r => String c r
      end
  end.

Definition strip_by (p : ascii → bool) (s : string) : string :=
  rstrip_by p (lstrip_by p s).

(** [s.strip()] *)
Definition strip (s : string) : string := strip_by isspace s.

Fixpoint mem_char (c : ascii) (chars : string) : bool :=
  match chars with
  | "" => false
  | String d chars' => bool_decide (c = d) || mem_char c chars'
  end.

(** [s.strip(chars)], [s.lstrip(chars)], [s.rstrip(chars)] *)
Definition strip_chars (chars s : string) : string :=
  strip_by (λ c, mem_char c chars) s.
Definition lstrip_chars (chars s : string) : string :=
  lstrip_by (λ c, mem_char c chars) s.
Definition rstrip_chars (chars s : string) : string :=
  rstrip_by (λ c, mem_char c chars) s.

(** Every character of [s] is a character of [t]. *)
Definition chars_within (s t : string) : Prop :=
  ∀ c, mem_char c s = true → mem_char c t = true.

Definition startswith (s pre : string) : bool := String.prefix pre s.

Fixpoint endswith (s suf : string) : bool :=
  bool_decide (s = suf) ||
  match s with
  | "" => false
  | String _ s' => endswith s' suf
  end.

(** [sub in s] *)
Fixpoint contains (sub s : string) : bool :=
  String.prefix sub s ||
  match s with
  | "" => false
  | String _ s' => contains sub s'
  end.

(** [s.count(c)] for a one-character [c] *)
Fixpoint count_char (c : ascii) (s : string) : nat :=
  match s with
  | "" => 0%nat
  | String d s' => ((if bool_decide (d = c) then 1 else 0) + count_char c s')%nat
  end.

(** [s.split(c)] for a one-character separator: never the empty list. *)
Fixpoint split_char (c : ascii) (s : string) : list string :=
  match s with
  | "" => [""]
  | String d s' =>
      if bool_decide (d = c) then "" :: split_char c s'
      else match split_char c s' with
           | [] => [String d ""]
           | p :: ps => String d p :: ps
           end
  end.

(** [s.split(c, 1)] when [c] occurs, as a pair (before, after). *)
Fixpoint partition_char (c : ascii) (s : string) : option (string * string) :=
  match s with
  | "" => None
  | String d s' =>
      if bool_decide (d = c) then Some ("", s')
      else match partition_char c s' with
           | Some (a, b) => Some (String d a, b)
           | None => None
           end
  end.

Fixpoint filter_chars (p : ascii → bool) (s : string) : string :=
  match s with
  | "" => ""
  | String c s' => if p c then String c (filter_chars p s') else filter_chars p s'
  end.

Fixpoint forall_chars (p : ascii → bool) (s : string) : bool :=
  match s with
  | "" => true
  | String c s' => p c && forall_chars p s'
  end.

Fixpoint take_while (p : ascii → bool) (s : string) : string :=
  match s with
  | "" => ""
  | String c s' => if p c then String c (take_while p s') else ""
  end.

Fixpoint drop_while (p : ascii → bool) (s : string) : string :=
  match s with
  | "" => ""
  | String c s' => if p c then drop_while p s' else s
  end.

(** [s[:n]] *)
Definition take (n : nat) (s : string) : string := String.substring 0 n s.

(** [s[n:]] *)
Fixpoint drop (n : nat) (s : string) : string :=
  match n, s with
  | O, _ => s
  | S n', String _ s' => drop n' s'
  | S _, "" => ""
  end.

End PyStr.

(** ** The environment: file system and clock *)

Module Env.

(** [files] are the regular files (path to contents), [dirs] the
    directories. [isoformat n] is what the [n]-th evaluation of
    [datetime.now().isoformat()] returns; [clock] counts the evaluations
    made so far. *)
Record World := mkWorld {
  files : gmap string string;
  dirs : gset string;
  clock : nat;
  isoformat : nat → string
}.

(** [a / b] of pathlib, rendered by [str]. *)
Definition path_join (a b : string) : string :=
  if decide (a = ".") then b
  else if decide (a = "/") then "/" +:+ b
  else a +:+ "/" +:+ b.

(** [Path.exists] *)
Definition path_exists (w : World) (p : string) : bool :=
  bool_decide (is_Some (files w !! p)) || bool_decide (p ∈ dirs w).

(** The paths that exist, as a set. *)
Definition occupied (w : World) : gset string := dom (files w) ∪ dirs w.

Definition quote (s : string) : string := "'" +:+ s +:+ "'".

Definition tick (w : World) : World :=
  mkWorld (files w) (dirs w) (S (clock w)) (isoformat w).

Definition add_dir (p : string) (w : World) : World :=
  mkWorld (files w) ({[ p ]} ∪ dirs w) (clock w) (isoformat w).

Definition add_file (p text : string) (w : World) : World :=
  mkWorld (<[ p := text ]> (files w)) (dirs w) (clock w) (isoformat w).

End Env.

(** ** JSON documents ([json.loads] of the standard library) *)

Module Json.

(** A parsed document. String and number literals are kept as they are
    written in the text (escape sequences checked, not decoded): the value
    Python builds is a function of the literal. An object keeps its members
    in textual order. *)
Inductive json :=
| JNull
| JBool (b : bool)
| JNum (literal : string)
| JStr (literal : string)
| JArr (elements : list json)
| JObj (members : list (string * json)).

Definition is_list (v : json) : bool :=
  match v with JArr _ => true | _ => false end.

Definition is_dict (v : json) : bool :=
  match v with JObj _ => true | _ => false end.

Inductive token :=
| TLBrace | TRBrace | TLBrack | TRBrack | TComma | TColon
| TStr (literal : string)
| TNum (literal : string)
| TTrue | TFalse | TNull.

(** *** Scanning *)

(** Where the scanner stands inside a number: an optional minus sign, an
    integer part without leading zeros, an optional fraction, an optional
    exponent (the pattern NUMBER_RE of json.scanner). *)
Inductive numphase :=
| NSign | NZero | NInt | NDot | NFrac | NE | NESign | NExp.

Definition accepting (ph : numphase) : bool :=
  match ph with
  | NZero | NInt | NFrac | NExp => true
  | _ => false
  end.

Inductive lexstate :=
| LIdle
| LStr (acc : string)
| LStrEsc (acc : string)
| LStrU (acc : string) (todo : nat)
| LNum (acc : string) (ph : numphase)
| LWord (tok : token) (rest : string).

Definition snoc (s : string) (c : ascii) : string := s +:+ String c "".

(** The white space [json] skips between tokens. *)
Definition is_ws (c : ascii) : bool := PyStr.mem_char c (String " " (String "009" (String "010" (String "013" "")))).

Definition is_digit (c : ascii) : bool := PyStr.between 48 57 c.

Definition is_hex (c : ascii) : bool :=
  is_digit c || PyStr.between 65 70 c || PyStr.between 97 102 c.

Definition is_escape (c : ascii) : bool :=
  PyStr.mem_char c (String "034" "\/bfnrt").

(** A character met between tokens. *)
Definition idle_step (c : ascii) : option (list token * lexstate) :=
  if is_ws c then Some ([], LIdle)
  else if bool_decide (c = "{"%char) then Some ([TLBrace], LIdle)
  else if bool_decide (c = "}"%char) then Some ([TRBrace], LIdle)
  else if bool_decide (c = "["%char) then Some ([TLBrack], LIdle)
  else if bool_decide (c = "]"%char) then Some ([TRBrack], LIdle)
  else if bool_decide (c = ","%char) then Some ([TComma], LIdle)
  else if bool_decide (c = ":"%char) then Some ([TColon], LIdle)
  else if bool_decide (c = "034"%char) then Some ([], LStr "")
  else if bool_decide (c = "-"%char) then Some ([], LNum (String c "") NSign)
  else if bool_decide (c = "0"%char) then Some ([], LNum (String c "") NZero)
  else if is_digit c then Some ([], LNum (String c "") NInt)
  else if bool_decide (c = "n"%char) then Some ([], LWord TNull "ull")
  else if bool_decide (c = "t"%char) then Some ([], LWord TTrue "rue")
  else if bool_decide (c = "f"%char) then Some ([], LWord TFalse "alse")
  else if bool_decide (c = "N"%char) then Some ([], LWord (TNum "NaN") "aN")
  else if bool_decide (c = "I"%char) then Some ([], LWord (TNum "Infinity") "nfinity")
  else None.

(** The number is over: it is emitted and [c] is read as a character
    between tokens. *)
Definition end_number (acc : string) (c : ascii) : option (list token * lexstate) :=
  match idle_step c with
  | Some (toks, st) => Some (TNum acc :: toks, st)
  | None => None
  end.

Definition is_exponent (c : ascii) : bool :=
  bool_decide (c = "e"%char) || bool_decide (c = "E"%char).

Definition num_step (acc : string) (ph : numphase) (c : ascii)
  : option (list token * lexstate) :=
  match ph with
  | NSign =>
      if bool_decide (c = "0"%char) then Some ([], LNum (snoc acc c) NZero)
      else if is_digit c then Some ([], LNum (snoc acc c) NInt)
      else if bool_decide (c = "I"%char) then Some ([], LWord (TNum "-Infinity") "nfinity")
      else None
  | NZero =>
      if bool_decide (c = "."%char) then Some ([], LNum (snoc acc c) NDot)
      else if is_exponent c then Some ([], LNum (snoc acc c) NE)
      else end_number acc c
  | NInt =>
      if is_digit c then Some ([], LNum (snoc acc c) NInt)
      else if bool_decide (c = "."%char) then Some ([], LNum (snoc acc c) NDot)
      else if is_exponent c then Some ([], LNum (snoc acc c) NE)
      else end_number acc c
  | NDot =>
      if is_digit c then Some ([], LNum (snoc acc c) NFrac) else None
  | NFrac =>
      if is_digit c then Some ([], LNum (snoc acc c) NFrac)
      else if is_exponent c then Some ([], LNum (snoc acc c) NE)
      else end_number acc c
  | NE =>
      if is_digit c then Some ([], LNum (snoc acc c) NExp)
      else if PyStr.mem_char c "+-" then Some ([], LNum (snoc acc c) NESign)
      else None
  | NESign =>
      if is_digit c then Some ([], LNum (snoc acc c) NExp) else None
  | NExp =>
      if is_digit c then Some ([], LNum (snoc acc c) NExp)
      else end_number acc c
  end.

Definition lex_step (st : lexstate) (c : ascii) : option (list token * lexstate) :=
  match st with
  | LIdle => idle_step c
  | LStr acc =>
      if bool_decide (c = "034"%char) then Some ([TStr acc], LIdle)
      else if bool_decide (c = "\"%char) then Some ([], LStrEsc (snoc acc c))
      else if PyStr.between 0 31 c then None
      else Some ([], LStr (snoc acc c))
  | LStrEsc acc =>
      if is_escape c then Some ([], LStr (snoc acc c))
      else if bool_decide (c = "u"%char) then Some ([], LStrU (snoc acc c) 4)
      else None
  | LStrU acc todo =>
      if is_hex c then
        match todo with
        | S (S n) => Some ([], LStrU (snoc acc c) (S n))
        | _ => Some ([], LStr (snoc acc c))
        end
      else None
  | LNum acc ph => num_step acc ph c
  | LWord tok rest =>
      match rest with
      | String e "" => if bool_decide (c = e) then Some ([tok], LIdle) else None
      | String e rest' => if bool_decide (c = e) then Some ([], LWord tok rest') else None
      | "" => None
      end
  end.

(** The end of the text. *)
Definition lex_finish (st : lexstate) : option (list token) :=
  match st with
  | LIdle => Some []
  | LNum acc ph => if accepting ph then Some [TNum acc] else None
  | _ => None
  end.

Fixpoint lex_from (st : lexstate) (s : string) : option (list token) :=
  match s with
  | "" => lex_finish st
  | String c s' =>
      match lex_step st c with
      | Some (toks, st') => app toks <$> lex_from st' s'
      | None => None
      end
  end.

Definition lex (s : string) : option (list token) := lex_from LIdle s.

(** The scanner run over a part of the text: the tokens it has emitted and
    the state it is left in. *)
Fixpoint lex_run (st : lexstate) (s : string) : option (list token * lexstate) :=
  match s with
  | "" => Some ([], st)
  | String c s' =>
      match lex_step st c with
      | Some (toks, st') =>
          match lex_run st' s' with
          | Some (toks', st'') => Some (toks ++ toks', st'')
          | None => None
          end
      | None => None
      end
  end.

(** The states the scanner can be in: the rest of a word it is reading
    consists of letters, and the word is a constant or a number. *)
Definition word_token (tok : token) : bool :=
  match tok with
  | TTrue | TFalse | TNull | TNum _ => true
  | _ => false
  end.

Definition lex_wf (st : lexstate) : Prop :=
  match st with
  | LWord tok rest =>
      word_token tok = true
      ∧ PyStr.forall_chars (λ c, PyStr.between 65 90 c || PyStr.between 97 122 c) rest = true
  | _ => True
  end.

(** Inside a string literal. *)
Definition in_string (st : lexstate) : bool :=
  match st with
  | LStr _ | LStrEsc _ | LStrU _ _ => true
  | _ => false
  end.

(** Text made of the white space of JSON only. *)
Definition all_ws (s : string) : Prop := PyStr.forall_chars is_ws s = true.

(** *** Parsing *)

(** An enclosing array with its elements so far, or an enclosing object
    with its members so far and the key whose value is being read. *)
Inductive frame :=
| FArr (elements : list json)
| FObj (members : list (string * json)) (key : string).

(** What the parser expects next. *)
Inductive mode :=
| PValue
| PArrStart
| PAfterElem (elements : list json)
| PObjStart
| PObjKey (members : list (string * json))
| PColon (members : list (string * json)) (key : string)
| PAfterMember (members : list (string * json))
| PDone (v : json).

Definition pstate : Type := list frame * mode.

(** A value is complete: it goes to the enclosing array or object, or is
    the document. *)
Definition deliver (stack : list frame) (v : json) : pstate :=
  match stack with
  | [] => ([], PDone v)
  | FArr elements :: stack' => (stack', PAfterElem (elements ++ [v]))
  | FObj members key :: stack' => (stack', PAfterMember (members ++ [(key, v)]))
  end.

Definition value_start (stack : list frame) (tok : token) : option pstate :=
  match tok with
  | TStr s => Some (deliver stack (JStr s))
  | TNum n => Some (deliver stack (JNum n))
  | TTrue => Some (deliver stack (JBool true))
  | TFalse => Some (deliver stack (JBool false))
  | TNull => Some (deliver stack JNull)
  | TLBrack => Some (stack, PArrStart)
  | TLBrace => Some (stack, PObjStart)
  | _ => None
  end.

Definition parse_step (st : pstate) (tok : token) : option pstate :=
  let '(stack, m) := st in
  match m, tok with
  | PValue, _ => value_start stack tok
  | PArrStart, TRBrack => Some (deliver stack (JArr []))
  | PArrStart, _ => value_start (FArr [] :: stack) tok
  | PAfterElem elements, TComma => Some (FArr elements :: stack, PValue)
  | PAfterElem elements, TRBrack => Some (deliver stack (JArr elements))
  | PObjStart, TRBrace => Some (deliver stack (JObj []))
  | PObjStart, TStr key => Some (stack, PColon [] key)
  | PObjKey members, TStr key => Some (stack, PColon members key)
  | PColon members key, TColon => Some (FObj members key :: stack, PValue)
  | PAfterMember members, TComma => Some (stack, PObjKey members)
  | PAfterMember members, TRBrace => Some (deliver stack (JObj members))
  | _, _ => None
  end.

Fixpoint parse_from (st : pstate) (toks : list token) : option json :=
  match toks with
  | [] => match st with (_, PDone v) => Some v | _ => None end
  | tok :: toks' =>
      match parse_step st tok with
      | Some st' => parse_from st' toks'
      | None => None
      end
  end.

Definition parse (toks : list token) : option json := parse_from ([], PValue) toks.

(** The parser run over some tokens: the state it is left in. *)
Fixpoint parse_run (st : pstate) (toks : list token) : option pstate :=
  match toks with
  | [] => Some st
  | tok :: toks' =>
      match parse_step st tok with
      | Some st' => parse_run st' toks'
      | None => None
      end
  end.

(** Whether the outermost value under construction (or complete) is an
    array: [None] before the first token. *)
Definition root_is_array (st : pstate) : option bool :=
  match last st.1 with
  | Some (FArr _) => Some true
  | Some (FObj _ _) => Some false
  | None =>
      match st.2 with
      | PValue => None
      | PArrStart | PAfterElem _ => Some true
      | PDone v => Some (is_list v)
      | _ => Some false
      end
  end.

(** [json.loads(s)]. Every failure is a [JSONDecodeError]; its message is
    not modelled. *)
Definition loads (s : string) : result json :=
  match lex s with
  | Some toks =>
      match parse toks with
      | Some v => Ok v
      | None => Raise (Exn JSONDecodeError "Expecting value")
      end
  | None => Raise (Exn JSONDecodeError "Expecting value")
  end.

End Json.

(** ** Resource ingestion (core/loader.py) *)

Module Loader.

(** A resource as validation, de-duplication and the orchestrator read it:
    the ['url'] key (possibly absent) and the fields that are passed through
    untouched. *)
Record Resource := mkResource {
  res_url : option string;
  res_fields : list (string * string)
}.

Record LoaderStats := mkLoaderStats {
  st_total : nat;
  st_valid : nat;
  st_invalid : nat;
  st_duplicates : nat
}.

Definition init_stats : LoaderStats := mkLoaderStats 0 0 0 0.

(** The loader object: the entries of the manifest as [json.loads] built
    them, and the counters. *)
Record ResourceLoader := mkLoader {
  loaded : list Json.json;
  stats : LoaderStats
}.

Definition init : ResourceLoader := mkLoader [] init_stats.

(** One fragment of [_parse_multi_array], after [part.strip()]: the
    brackets are put back and the fragment is parsed on its own; a fragment
    that does not parse is tried once more as a bare object. *)
Definition recover_part (part : string) : list Json.json :=
  let part := if PyStr.endswith part "]" then part else part +:+ "]" in
  let part := if PyStr.startswith part "[" then part else "[" +:+ part in
  match Json.loads part with
  | Ok (Json.JArr data) => data
  | Ok (Json.JObj members) => [Json.JObj members]
  | Ok _ => []
  | Raise _ =>
      let obj_part := PyStr.strip (PyStr.strip_chars "[]" part) in
      if decide (obj_part = "") then []
      else match Json.loads obj_part with
           | Ok (Json.JObj members) => [Json.JObj members]
           | _ => []
           end
  end.

Definition _parse_multi_array (content : string) : list Json.json :=
  let parts := PyStr.split_char "]" content in
  foldl (λ resources part,
           let part := PyStr.strip part in
           if decide (part = "") then resources
           else resources ++ recover_part part)
        [] parts.

Definition set_loaded (resources : list Json.json) (self : ResourceLoader)
  : ResourceLoader :=
  mkLoader resources
           (mkLoaderStats (length resources) (st_valid (stats self))
                          (st_invalid (stats self)) (st_duplicates (stats self))).

(** [load_resources]. An exception leaves the loader as it was. *)
Definition load_resources (w : Env.World) (file_path : string) (self : ResourceLoader)
  : result (list Json.json) * ResourceLoader :=
  if negb (Env.path_exists w file_path) then
    (Raise (Exn FileNotFoundError ("Resource file not found: " +:+ file_path)), self)
  else
    match Env.files w !! file_path with
    | None =>
        (Raise (Exn IsADirectoryError
                    ("[Errno 21] Is a directory: " +:+ Env.quote file_path)), self)
    | Some content =>
        match Json.loads content with
        | Ok (Json.JArr data) => (Ok data, set_loaded data self)
        | Ok (Json.JObj members) =>
            (Ok [Json.JObj members], set_loaded [Json.JObj members] self)
        | Ok _ => (Raise (Exn ValueError "Unexpected JSON structure"), self)
        | Raise e =>
            if is_json_decode_error e then
              let resources := _parse_multi_array content in
              (Ok resources, set_loaded resources self)
            else (Raise e, self)
        end
    end.

(** A text that [json.loads] reads as one array of entries. *)
Definition entry_sequence (text : string) (entries : list Json.json) : Prop :=
  Json.loads text = Ok (Json.JArr entries).

(** An entry sequence whose only closing bracket is the one that ends the
    array. *)
Definition flat_sequence (text : string) (entries : list Json.json) : Prop :=
  entry_sequence text entries ∧ PyStr.count_char "]" text = 1.

(** The texts written one after the other. *)
Definition concat_texts (texts : list string) : string :=
  foldr String.append "" texts.

(** [resource.get('url', '').strip().lower()] *)
Definition normalized_url (r : Resource) : string :=
  PyStr.lower (PyStr.strip (default "" (res_url r))).

(** The state of the loop of [deduplicate_resources]. *)
Record DedupState := mkDedup {
  seen_urls : gset string;
  unique_resources : list Resource;
  dup_count : nat
}.

Definition dedup_step (st : DedupState) (resource : Resource) : DedupState :=
  let url := normalized_url resource in
  if decide (url ∉ seen_urls st) then
    mkDedup ({[ url ]} ∪ seen_urls st) (unique_resources st ++ [resource])
            (dup_count st)
  else
    mkDedup (seen_urls st) (unique_resources st) (S (dup_count st)).

Definition deduplicate_resources (stats : LoaderStats) (resources : list Resource)
  : list Resource * LoaderStats :=
  let final := foldl dedup_step (mkDedup ∅ [] (st_duplicates stats)) resources in
  (unique_resources final,
   mkLoaderStats (st_total stats) (st_valid stats) (st_invalid stats)
                 (dup_count final)).

(** The design document's reading of "first occurrence wins": entry [i] is
    kept exactly when no entry before it has the same normalized URL. *)
Definition is_first_occurrence (resources : list Resource) (i : nat) (r : Resource)
  : bool :=
  bool_decide (normalized_url r ∉ normalized_url <$> take i resources).

Definition first_occurrences (resources : list Resource) : list Resource :=
  omap id (imap (λ i r, if is_first_occurrence resources i r then Some r else None)
                resources).

(** [validate_resource], for an entry whose ['url'], when it has one, is a
    string: the key must be there, the value must not be empty nor blank,
    and the stripped value must start with [http://] or [https://]. *)
Definition validate_resource (resource : Resource) : bool :=
  match res_url resource with
  | None => false
  | Some value =>
      if bool_decide (value = "") || bool_decide (PyStr.strip value = "") then false
      else
        let url := PyStr.strip value in
        PyStr.startswith url "http://" || PyStr.startswith url "https://"
  end.






End Loader.

(** ** Storage (core/storage.py) *)

Module Storage.

(** *** The processing log *)

(** The on-disk processing log as [_load_processing_log] sees it: absent,
    present but not loadable ([json.load] or [open] raises), or present and
    holding a log structure. *)
Inductive LogFile (Log : Type) :=
| LogMissing
| LogCorrupt
| LogReadable (log : Log).
Arguments LogMissing {Log}.
Arguments LogCorrupt {Log}.
Arguments LogReadable {Log} log.

Record LogEntry := mkEntry {
  entry_url : string;
  entry_status : string;
  processed_at : string;
  output_file : option string;
  entry_error : option string
}.

Record ProcessingLog := mkLog {
  last_updated : string;
  total_processed : nat;
  successful : nat;
  failed : nat;
  resources : list LogEntry
}.

Record StorageStats := mkStats {
  saved : nat;
  stats_failed : nat;
  total_bytes : nat
}.

Record StorageManager := mkStorage {
  base_path : string;
  create_categories : bool;
  processing_log : ProcessingLog;
  stats : StorageStats
}.

(** The state a storage manager works on: its own fields, the environment,
    and the log file at [processing_log_path]. *)
Record State := mkState {
  self : StorageManager;
  world : Env.World;
  log_file : LogFile ProcessingLog
}.

(** *** Computations that read and write the state, may raise, and may loop *)

(** [None]: the loop of [_generate_filename] has not ended within its fuel. *)
Definition M (A : Type) : Type := State → option (result A * State).

Definition ret {A} (a : A) : M A := λ st, Some (Ok a, st).

Definition raise {A} (e : exn) : M A := λ st, Some (Raise e, st).

Definition bind {A B} (m : M A) (k : A → M B) : M B := λ st,
  match m st with
  | None => None
  | Some (Raise e, st') => Some (Raise e, st')
  | Some (Ok a, st') => k a st'
  end.

(** [try: body except Exception as e: handler e]. State changes made by
    the body before it raised stay. *)
Definition try_except {A} (body : M A) (handler : exn → M A) : M A := λ st,
  match body st with
  | None => None
  | Some (Raise e, st') => handler e st'
  | Some (Ok a, st') => Some (Ok a, st')
  end.

Definition get : M State := λ st, Some (Ok st, st).

Definition modify_world (f : Env.World → Env.World) : M unit := λ st,
  Some (Ok (), mkState (self st) (f (world st)) (log_file st)).

Definition modify_self (f : StorageManager → StorageManager) : M unit := λ st,
  Some (Ok (), mkState (f (self st)) (world st) (log_file st)).

Notation "'do' x <- m ;; k" := (bind m (λ x, k))
  (at level 10, x name, m at level 99, k at level 200).
Notation "'run' m ;; k" := (bind m (λ _, k))
  (at level 10, m at level 99, k at level 200).

(** [datetime.now().isoformat()] *)
Definition now : M string :=
  do st <- get ;;
  run modify_world Env.tick ;;
  ret (Env.isoformat (world st) (Env.clock (world st))).

(** *** File operations *)

(** [p.mkdir(parents=True, exist_ok=True)] *)
Definition mkdir (p : string) : M unit :=
  do st <- get ;;
  if bool_decide (is_Some (Env.files (world st) !! p)) then
    raise (Exn FileExistsError ("[Errno 17] File exists: " +:+ Env.quote p))
  else
    modify_world (Env.add_dir p).

(** [(parent / name).write_text(text, encoding='utf-8')] *)
Definition write_text (parent name text : string) : M unit :=
  do st <- get ;;
  let p := Env.path_join parent name in
  if bool_decide (p ∈ Env.dirs (world st)) then
    raise (Exn IsADirectoryError ("[Errno 21] Is a directory: " +:+ Env.quote p))
  else if bool_decide (parent ∈ Env.dirs (world st)) then
    modify_world (Env.add_file p text)
  else if bool_decide (is_Some (Env.files (world st) !! parent)) then
    raise (Exn NotADirectoryError ("[Errno 20] Not a directory: " +:+ Env.quote p))
  else
    raise (Exn FileNotFoundError ("[Errno 2] No such file or directory: " +:+ Env.quote p)).

(** *** Extracted content *)

Record Metadata := mkMetadata {
  md_url : option string;
  md_domain : option string;
  md_extracted_at : option string;
  md_extractor : option string;
  md_word_count : option nat
}.

Definition empty_metadata : Metadata := mkMetadata None None None None None.

Record ExtractedContent := mkContent {
  title : option string;
  description : option string;
  content : option string;
  metadata : option Metadata
}.

(** *** StorageManager *)

Definition category_map : gmap string string :=
  {[ "github-repo" := "github-repos";
     "youtube-video" := "youtube-videos";
     "blog-post" := "blog-posts";
     "article" := "articles";
     "unknown" := "other" ]}.

Definition _determine_category (resource_type : string) : string :=
  default "other" (category_map !! resource_type).

(** [re.sub(r'[^\w\s-]', '', slug)] keeps these characters. *)
Definition slug_char (c : ascii) : bool :=
  PyStr.isword c || PyStr.isspace c || bool_decide (c = "-"%char).

(** The class [[\s_-]]. *)
Definition slug_sep (c : ascii) : bool :=
  PyStr.isspace c || bool_decide (c = "_"%char) || bool_decide (c = "-"%char).

(** [re.sub(r'[\s_-]+', '-', slug)]; [in_run] says that the previous
    character belonged to the run being replaced. *)
Fixpoint collapse_runs (in_run : bool) (s : string) : string :=
  match s with
  | "" => ""
  | String c s' =>
      if slug_sep c then
        if in_run then collapse_runs true s' else String "-" (collapse_runs true s')
      else String c (collapse_runs false s')
  end.

Definition slugify (title : string) (max_length : nat) : string :=
  let slug := PyStr.lower title in
  let slug := PyStr.filter_chars slug_char slug in
  let slug := collapse_runs false slug in
  let slug := PyStr.strip_chars "-" slug in
  let slug :=
    if (max_length <? String.length slug)%nat
    then PyStr.rstrip_chars "-" (PyStr.take max_length slug)
    else slug in
  if decide (slug = "") then "untitled" else slug.

(** The [while file_path.exists()] loop of [_generate_filename]. *)
Fixpoint free_name (fuel : nat) (w : Env.World) (dir slug filename : string) (counter : nat)
  : option string :=
  if Env.path_exists w (Env.path_join dir filename) then
    match fuel with
    | O => None
    | S fuel' =>
        free_name fuel' w dir slug (slug +:+ "-" +:+ pretty counter +:+ ".md") (S counter)
    end
  else Some filename.

(** The names the loop tries, in order: [slug.md], [slug-2.md],
    [slug-3.md], ... *)
Definition candidate (slug : string) (i : nat) : string :=
  match i with
  | O => slug +:+ ".md"
  | S _ => slug +:+ "-" +:+ pretty (S i) +:+ ".md"
  end.

(** Fuel that the loop cannot use up: one more than the number of entries
    of the file system. *)
Definition loop_fuel (w : Env.World) : nat :=
  S (size (Env.files w) + size (Env.dirs w)).

Definition _generate_filename (title resource_type : string) (max_length : nat)
  : M string := λ st,
  let slug := slugify title max_length in
  let dir := Env.path_join (base_path (self st)) (_determine_category resource_type) in
  match free_name (loop_fuel (world st)) (world st) dir slug (slug +:+ ".md") 2 with
  | Some filename => Some (Ok filename, st)
  | None => None
  end.

Definition nl : string := String "010" "".
Definition dquote : string := String "034" "".

Fixpoint unlines (ls : list string) : string :=
  match ls with
  | [] => ""
  | l :: ls' => l +:+ nl +:+ unlines ls'
  end.

(** The document [_format_markdown] builds; [extracted] and [fallback] are
    the two readings of the clock it makes (the second one is the default
    of the ['extracted_at'] lookup, evaluated whether or not it is used). *)
Definition markdown_document (extracted_data : ExtractedContent)
    (resource_type original_url extracted fallback : string) : string :=
  let title := default "Untitled" (title extracted_data) in
  let description := default "No description available" (description extracted_data) in
  let content := default "" (content extracted_data) in
  let metadata := default empty_metadata (metadata extracted_data) in
  let frontmatter := unlines [
    "---";
    "title: " +:+ dquote +:+ title +:+ dquote;
    "source: " +:+ original_url;
    "type: " +:+ resource_type;
    "extracted: " +:+ extracted;
    "domain: " +:+ default "unknown" (md_domain metadata);
    "word_count: " +:+ pretty (default 0%nat (md_word_count metadata));
    "processing_status: completed";
    "---";
    "" ] in
  let markdown_content := unlines [
    "# " +:+ title;
    "";
    "## Description";
    description;
    "";
    "## Content";
    "";
    content;
    "";
    "---";
    "";
    "## Metadata";
    "";
    "**Source:** [" +:+ original_url +:+ "](" +:+ original_url +:+ ")";
    "**Type:** " +:+ resource_type;
    "**Extracted:** " +:+ default fallback (md_extracted_at metadata);
    "**Extractor:** " +:+ default "unknown" (md_extractor metadata);
    "**Word Count:** " +:+ pretty (default 0%nat (md_word_count metadata)) ] in
  frontmatter +:+ markdown_content.

Definition _format_markdown (extracted_data : ExtractedContent)
    (resource_type original_url : string) : M string :=
  do extracted <- now ;;
  do fallback <- now ;;
  ret (markdown_document extracted_data resource_type original_url extracted fallback).

Definition count_status (status : string) (entries : list LogEntry) : nat :=
  length (filter (λ r, entry_status r = status) entries).

Definition set_log (log : ProcessingLog) (sm : StorageManager) : StorageManager :=
  mkStorage (base_path sm) (create_categories sm) log (stats sm).

Definition set_stats (s : StorageStats) (sm : StorageManager) : StorageManager :=
  mkStorage (base_path sm) (create_categories sm) (processing_log sm) s.

Definition _update_processing_log (url status : string)
    (output_file error : option string) : M unit :=
  do processed <- now ;;
  let log_entry := mkEntry url status processed output_file error in
  do st <- get ;;
  let entries := resources (processing_log (self st)) ++ [log_entry] in
  do updated <- now ;;
  modify_self (set_log (mkLog updated
                              (length entries)
                              (count_status "completed" entries)
                              (count_status "failed" entries)
                              entries)).

Definition save_content (extracted_data : ExtractedContent)
    (resource_type original_url : string) : M (option string) :=
  try_except
    (let category := _determine_category resource_type in
     do filename <- _generate_filename (default "untitled" (title extracted_data))
                                    resource_type 50 ;;
     do st <- get ;;
     let category_path := Env.path_join (base_path (self st)) category in
     run (if create_categories (self st) then mkdir category_path else ret ()) ;;
     let file_path := Env.path_join category_path filename in
     do markdown <- _format_markdown extracted_data resource_type original_url ;;
     run write_text category_path filename markdown ;;
     run modify_self (λ sm, set_stats (mkStats (S (saved (stats sm)))
                                                (stats_failed (stats sm))
                                                (total_bytes (stats sm) + String.length markdown))
                                       sm) ;;
     run _update_processing_log original_url "completed" (Some file_path) None ;;
     ret (Some file_path))
    (λ e,
     run modify_self (λ sm, set_stats (mkStats (saved (stats sm))
                                                (S (stats_failed (stats sm)))
                                                (total_bytes (stats sm)))
                                       sm) ;;
     run _update_processing_log original_url "failed" None (Some (exn_msg e)) ;;
     ret None).

(** The saves of one run, in order, with what each returned. *)
Fixpoint save_all (calls : list (ExtractedContent * string * string))
  : M (list (option string)) :=
  match calls with
  | [] => ret []
  | (extracted_data, resource_type, original_url) :: rest =>
      do saved_to <- save_content extracted_data resource_type original_url ;;
      do others <- save_all rest ;;
      ret (saved_to :: others)
  end.

(** The counts of a log agree with its entries. *)
Definition consistent (log : ProcessingLog) : Prop :=
  total_processed log = length (resources log)
  ∧ successful log = count_status "completed" (resources log)
  ∧ failed log = count_status "failed" (resources log).

(** [m], run from [st], ends (within its fuel) with a result and a state
    that satisfy [Q]. *)
Definition post {A} (m : M A) (st : State) (Q : result A → State → Prop) : Prop :=
  ∃ r st', m st = Some (r, st') ∧ Q r st'.

(** [after] is [before] with the entry [e] appended and the counts
    recomputed. *)
Definition appended (before after : ProcessingLog) (e : LogEntry) : Prop :=
  resources after = resources before ++ [e] ∧ consistent after.

(** What one call of [save_content] does, from [st] to [st']: it returns
    [out]; the path it chose is the first candidate that did not exist; on
    success that path holds the document and the log has one more
    ['completed'] entry; on failure no file has changed and the log has one
    more ['failed'] entry. *)
Definition save_outcome (extracted_data : ExtractedContent)
    (resource_type original_url : string)
    (st : State) (out : option string) (st' : State) : Prop :=
  let w := world st in
  let dir := Env.path_join (base_path (self st)) (_determine_category resource_type) in
  let slug := slugify (default "untitled" (title extracted_data)) 50 in
  let document :=
    markdown_document extracted_data resource_type original_url
      (Env.isoformat w (Env.clock w)) (Env.isoformat w (S (Env.clock w))) in
  ∃ k,
    let p := Env.path_join dir (candidate slug k) in
    Env.path_exists w p = false
    ∧ (∀ j, j < k → Env.path_exists w (Env.path_join dir (candidate slug j)) = true)
    ∧ base_path (self st') = base_path (self st)
    ∧ create_categories (self st') = create_categories (self st)
    ∧ log_file st' = log_file st
    ∧ Env.isoformat (world st') = Env.isoformat w
    ∧ Env.dirs w ⊆ Env.dirs (world st')
    ∧ ∃ e, appended (processing_log (self st)) (processing_log (self st')) e
        ∧ entry_url e = original_url
        ∧ output_file e = out
        ∧ match out with
          | Some saved_to =>
              saved_to = p
              ∧ entry_status e = "completed"
              ∧ entry_error e = None
              ∧ Env.files (world st') = <[ p := document ]> (Env.files w)
              ∧ dir ∈ Env.dirs (world st')
          | None =>
              entry_status e = "failed"
              ∧ is_Some (entry_error e)
              ∧ Env.files (world st') = Env.files w
          end.

(** Between the start of a save and its log update: the manager and the
    files are as at the start, directories may have been made. *)
Definition steady (st0 st : State) : Prop :=
  self st = self st0
  ∧ log_file st = log_file st0
  ∧ Env.files (world st) = Env.files (world st0)
  ∧ Env.dirs (world st0) ⊆ Env.dirs (world st)
  ∧ Env.isoformat (world st) = Env.isoformat (world st0).

Definition processing_log_path (sm : StorageManager) : string :=
  Env.path_join (base_path sm) "_processing-log.json".

Definition new_log (stamp : string) : ProcessingLog := mkLog stamp 0 0 0 [].

(** [_load_processing_log]: the log on disk when it loads, a new one
    otherwise. *)
Definition _load_processing_log (on_disk : LogFile ProcessingLog) (w : Env.World)
  : ProcessingLog * Env.World :=
  match on_disk with
  | LogReadable log => (log, w)
  | _ => (new_log (Env.isoformat w (Env.clock w)), Env.tick w)
  end.

(** [StorageManager(base_path)]: the base directory is made, the log
    loaded, the counters start at zero. *)
Definition init (base_path : string) (create_categories : bool)
    (on_disk : LogFile ProcessingLog) (w : Env.World) : State :=
  let '(log, w') := _load_processing_log on_disk (Env.add_dir base_path w) in
  mkState (mkStorage base_path create_categories log (mkStats 0 0 0)) w' on_disk.

(** [save_processing_log]: the in-memory log replaces the one on disk. *)
Definition save_processing_log (st : State) : State :=
  mkState (self st) (world st) (LogReadable (processing_log (self st))).

End Storage.

(** ** URL parsing (urllib.parse of the standard library) *)

Module Url.

Record ParseResult := mkParse {
  scheme : string;
  netloc : string;
  path : string;
  params : string;
  query : string;
  fragment : string
}.

(** The characters [urlsplit] strips from the left of a URL (code points 0
    to 32) and the ones it deletes everywhere (tab, carriage return, line
    feed). *)
Definition c0_control_or_space (c : ascii) : bool := PyStr.between 0 32 c.

Definition unsafe_url_byte (c : ascii) : bool :=
  bool_decide (c = "009"%char) || bool_decide (c = "013"%char)
  || bool_decide (c = "010"%char).

Definition ascii_alpha (c : ascii) : bool :=
  PyStr.between 65 90 c || PyStr.between 97 122 c.

Definition scheme_char (c : ascii) : bool :=
  ascii_alpha c || PyStr.between 48 57 c || PyStr.mem_char c "+-.".

Definition uses_params : list string :=
  [ ""; "ftp"; "hdl"; "prospero"; "http"; "imap"; "https"; "shttp"; "rtsp";
    "rtspu"; "sip"; "sips"; "mms"; "sftp"; "tel" ].

(** The scheme, when the text before the first colon is one, and the rest. *)
Definition split_scheme (url : string) : string * string :=
  match PyStr.partition_char ":" url with
  | Some (String c before, after) =>
      if ascii_alpha c && PyStr.forall_chars scheme_char (String c before)
      then (PyStr.lower (String c before), after)
      else ("", url)
  | _ => ("", url)
  end.

Definition netloc_char (c : ascii) : bool := negb (PyStr.mem_char c "/?#").

(** [url.split(c, 1)] when [c] occurs, the URL and an empty second part
    otherwise. *)
Definition split_once (c : ascii) (url : string) : string * string :=
  default (url, "") (PyStr.partition_char c url).

(** The text up to and including the last slash, and the text after it. *)
Fixpoint rsplit_slash (s : string) : string * string :=
  match s with
  | "" => ("", "")
  | String c s' =>
      let '(h, t) := rsplit_slash s' in
      if decide (h = "") then
        if bool_decide (c = "/"%char) then (String c "", t) else ("", String c t)
      else (String c h, t)
  end.

(** [_splitparams]: the parameters follow the first semicolon of the last
    path segment. *)
Definition _splitparams (url : string) : string * string :=
  let '(h, t) := rsplit_slash url in
  match PyStr.partition_char ";" t with
  | Some (a, b) => (h +:+ a, b)
  | None => (url, "")
  end.

(** A path that is empty or starts at the root, as every path that follows
    a network location. *)
Definition rooted (path : string) : Prop := path = "" ∨ ∃ rest, path = String "/" rest.

Section Urlparse.

(** What the interpreter makes of a network location that holds both an
    opening and a closing bracket: [None] to accept it, [Some msg] to raise
    [ValueError msg]. Releases differ here (the later ones validate the
    bracketed host with the [ipaddress] module), so the check is a
    parameter of the embedding. *)
Variable check_bracketed_netloc : string → option string.

Definition urlsplit (url : string) : result ParseResult :=
  let url := PyStr.lstrip_by c0_control_or_space url in
  let url := PyStr.filter_chars (λ c, negb (unsafe_url_byte c)) url in
  let '(scheme, url) := split_scheme url in
  let located :=
    if PyStr.startswith url "//" then
      let rest := PyStr.drop 2 url in
      let netloc := PyStr.take_while netloc_char rest in
      let has_open := PyStr.contains "[" netloc in
      let has_close := PyStr.contains "]" netloc in
      if xorb has_open has_close then
        Raise (Exn ValueError "Invalid IPv6 URL")
      else if has_open then
        match check_bracketed_netloc netloc with
        | Some msg => Raise (Exn ValueError msg)
        | None => Ok (netloc, PyStr.drop_while netloc_char rest)
        end
      else Ok (netloc, PyStr.drop_while netloc_char rest)
    else Ok ("", url) in
  result_bind located (λ '(netloc, url),
    let '(url, fragment) := split_once "#" url in
    let '(url, query) := split_once "?" url in
    Ok (mkParse scheme netloc url "" query fragment)).

Definition urlparse (url : string) : result ParseResult :=
  result_bind (urlsplit url) (λ r,
    if bool_decide (scheme r ∈ uses_params) && PyStr.contains ";" (path r) then
      let '(url, params) := _splitparams (path r) in
      Ok (mkParse (scheme r) (netloc r) url params (query r) (fragment r))
    else Ok r).

End Urlparse.

End Url.

(** ** Classification (core/detector.py) *)

Module Detector.

Definition TYPE_GITHUB : string := "github-repo".
Definition TYPE_YOUTUBE : string := "youtube-video".
Definition TYPE_BLOG : string := "blog-post".
Definition TYPE_ARTICLE : string := "article".
Definition TYPE_UNKNOWN : string := "unknown".

(** [__init__]: one counter per type. *)
Definition init_stats : gmap string nat :=
  {[ TYPE_GITHUB := 0%nat; TYPE_YOUTUBE := 0%nat; TYPE_BLOG := 0%nat;
     TYPE_ARTICLE := 0%nat; TYPE_UNKNOWN := 0%nat ]}.

Definition is_github (domain path : string) : bool :=
  PyStr.contains "github.com" domain && (2 <=? PyStr.count_char "/" path)%nat.

Definition is_youtube (domain path : string) : bool :=
  (PyStr.contains "youtube.com" domain && PyStr.contains "/watch" path)
  || PyStr.contains "youtu.be" domain.

Definition blog_indicators : list string :=
  [ "medium.com"; "dev.to"; "substack.com"; "hashnode"; "blog."; "blogs.";
    "/blog/"; "/post/"; "/article/" ].

Definition is_blog (domain path : string) : bool :=
  existsb (λ indicator, PyStr.contains indicator domain || PyStr.contains indicator path)
          blog_indicators.

(** [[p for p in path.split('/') if p]] *)
Definition path_parts (path : string) : list string :=
  filter (λ p, p ≠ "") (PyStr.split_char "/" path).

(** [re.search(r'[?&]v=([^&]+)', url)], the group of the leftmost match. *)
Fixpoint search_video_id (url : string) : option string :=
  match url with
  | "" => None
  | String c rest =>
      let value := PyStr.take_while (λ d, negb (bool_decide (d = "&"%char)))
                                    (PyStr.drop 2 rest) in
      if PyStr.mem_char c "?&" && PyStr.startswith rest "v="
         && negb (bool_decide (value = ""))
      then Some value
      else search_video_id rest
  end.

(** The metadata [parse_github_url] builds from the non-empty segments of
    a path. *)
Definition github_metadata (parts : list string) : gmap string string :=
  match parts with
  | owner :: repo :: _ =>
      <[ "full_name" := owner +:+ "/" +:+ repo ]>
        (<[ "repo" := repo ]> (<[ "owner" := owner ]> {[ "domain" := "github.com" ]}))
  | _ => {[ "domain" := "github.com" ]}
  end.

Section Classify.

Variable check_bracketed_netloc : string → option string.

Definition urlparse := Url.urlparse check_bracketed_netloc.

Definition parse_github_url (url : string) : result (gmap string string) :=
  result_bind (urlparse url) (λ parsed,
    let path_parts := path_parts (Url.path parsed) in
    let metadata : gmap string string := {[ "domain" := "github.com" ]} in
    match path_parts with
    | owner :: repo :: _ =>
        Ok (<[ "full_name" := owner +:+ "/" +:+ repo ]>
              (<[ "repo" := repo ]> (<[ "owner" := owner ]> metadata)))
    | _ => Ok metadata
    end).

Definition parse_youtube_url (url : string) : result (gmap string string) :=
  result_bind (urlparse url) (λ parsed,
    let metadata : gmap string string := {[ "domain" := "youtube.com" ]} in
    if PyStr.contains "youtube.com" (Url.netloc parsed) then
      match search_video_id url with
      | Some v => Ok (<[ "video_id" := v ]> metadata)
      | None => Ok metadata
      end
    else if PyStr.contains "youtu.be" (Url.netloc parsed) then
      match path_parts (Url.path parsed) with
      | v :: _ => Ok (<[ "video_id" := v ]> metadata)
      | [] => Ok metadata
      end
    else Ok metadata).

(** The type and metadata [detect_type] settles on, before it counts. *)
Definition classify (url : string) : result (string * gmap string string) :=
  let url := PyStr.strip url in
  result_bind (urlparse url) (λ parsed,
    let domain := PyStr.lower (Url.netloc parsed) in
    let path := PyStr.lower (Url.path parsed) in
    if is_github domain path then
      result_bind (parse_github_url url) (λ metadata, Ok (TYPE_GITHUB, metadata))
    else if is_youtube domain path then
      result_bind (parse_youtube_url url) (λ metadata, Ok (TYPE_YOUTUBE, metadata))
    else if is_blog domain path then
      Ok (TYPE_BLOG, {[ "domain" := domain ]})
    else
      Ok (TYPE_ARTICLE, {[ "domain" := domain ]})).

(** [detect_type]: the classification, and the counter of its type raised by
    one. An exception leaves the counters as they were. *)
Definition detect_type (detection_stats : gmap string nat) (url : string)
  : result (string * gmap string string) * gmap string nat :=
  match classify url with
  | Ok (resource_type, metadata) =>
      (Ok (resource_type, metadata), alter S resource_type detection_stats)
  | Raise e => (Raise e, detection_stats)
  end.

End Classify.

End Detector.

(** ** Orchestration (main.py) *)

Module Orchestrator.

Record RunStats := mkRunStats {
  total : nat;
  successful : nat;
  failed : nat;
  start_time : option string;
  end_time : option string
}.

(** The orchestrator object: the detector's counters, the storage manager
    with the environment it works on, and the statistics of the run. *)
Record SmartExtractor := mkExtractor {
  detection_stats : gmap string nat;
  storage : Storage.State;
  stats : RunStats
}.

Definition count_success (s : RunStats) : RunStats :=
  mkRunStats (total s) (S (successful s)) (failed s) (start_time s) (end_time s).

Definition count_failure (s : RunStats) : RunStats :=
  mkRunStats (total s) (successful s) (S (failed s)) (start_time s) (end_time s).

(** [datetime.now()] read by the orchestrator. *)
Definition read_clock (st : Storage.State) : string * Storage.State :=
  (Env.isoformat (Storage.world st) (Env.clock (Storage.world st)),
   Storage.mkState (Storage.self st) (Env.tick (Storage.world st)) (Storage.log_file st)).

Section Run.

Variable check_bracketed_netloc : string → option string.

(** The content extractor in use, as a capability: what [extract(url,
    metadata)] returns or raises. *)
Variable extract : string → gmap string string → result Storage.ExtractedContent.

(** [_process_resource]; [None] when the storage manager's file-name loop
    has not ended within its fuel. *)
Definition _process_resource (resource : Loader.Resource) (self : SmartExtractor)
  : option SmartExtractor :=
  let url := PyStr.strip (default "" (Loader.res_url resource)) in
  match Detector.detect_type check_bracketed_netloc (detection_stats self) url with
  | (Raise e, counters) =>
      Some (mkExtractor counters (storage self) (count_failure (stats self)))
  | (Ok (resource_type, type_metadata), counters) =>
      match extract url type_metadata with
      | Raise e =>
          Some (mkExtractor counters (storage self) (count_failure (stats self)))
      | Ok extracted_data =>
          match Storage.save_content extracted_data resource_type url (storage self) with
          | None => None
          | Some (Ok (Some output_file), st) =>
              Some (mkExtractor counters st (count_success (stats self)))
          | Some (Ok None, st) =>
              Some (mkExtractor counters st (count_failure (stats self)))
          | Some (Raise e, st) =>
              Some (mkExtractor counters st (count_failure (stats self)))
          end
      end
  end.

(** The loop [for idx, resource in enumerate(resources, 1)]. *)
Fixpoint process_each (resources : list Loader.Resource) (self : SmartExtractor)
  : option SmartExtractor :=
  match resources with
  | [] => Some self
  | resource :: rest =>
      match _process_resource resource self with
      | Some self' => process_each rest self'
      | None => None
      end
  end.

(** [process_all], given what [load_and_validate] returned or raised. *)
Definition process_all (loading : result (list Loader.Resource)) (self : SmartExtractor)
  : option SmartExtractor :=
  let '(started, st) := read_clock (storage self) in
  let s := stats self in
  let self := mkExtractor (detection_stats self) st
                (mkRunStats (total s) (successful s) (failed s) (Some started) (end_time s)) in
  match loading with
  | Raise e => Some self
  | Ok resources =>
      let s := stats self in
      let self := mkExtractor (detection_stats self) (storage self)
                    (mkRunStats (length resources) (successful s) (failed s)
                                (start_time s) (end_time s)) in
      match resources with
      | [] => Some self
      | _ =>
          match process_each resources self with
          | None => None
          | Some self =>
              let '(ended, st) := read_clock (storage self) in
              let s := stats self in
              Some (mkExtractor (detection_stats self)
                                (Storage.save_processing_log st)
                                (mkRunStats (total s) (successful s) (failed s)
                                            (start_time s) (Some ended)))
          end
      end
  end.

End Run.

(** [SmartExtractor(input_file, output_dir)] *)
Definition init (output_dir : string) (on_disk : Storage.LogFile Storage.ProcessingLog)
    (w : Env.World) : SmartExtractor :=
  mkExtractor Detector.init_stats (Storage.init output_dir true on_disk w)
              (mkRunStats 0 0 0 None None).



End Orchestrator.

(** ** Extraction (extractors/base.py, extractors/fallback.py) *)

Module Extractor.

(** One round of the loop of [validate_extracted_data]: the field must be
    there, must not be empty and must not be blank. *)
Definition field_passes (value : option string) : bool :=
  match value with
  | None => false
  | Some text =>
      if bool_decide (text = "") || bool_decide (PyStr.strip text = "") then false
      else true
  end.

(** [validate_extracted_data], over the required fields ['title'] and
    ['content']. *)
Definition validate_extracted_data (data : Storage.ExtractedContent) : bool :=
  forallb field_passes [Storage.title data; Storage.content data].

(** [s.split()]: the maximal runs of characters that are not white space;
    [word] is the run being read. *)
Fixpoint words_from (word s : string) : list string :=
  match s with
  | "" => if decide (word = "") then [] else [word]
  | String c s' =>
      if PyStr.isspace c then
        if decide (word = "") then words_from "" s' else word :: words_from "" s'
      else words_from (word +:+ String c "") s'
  end.

Definition split_whitespace (s : string) : list string := words_from "" s.

(** The part of a run of white space that follows its last line feed. *)
Fixpoint after_last_newline (run : string) : string :=
  match run with
  | "" => ""
  | String c run' =>
      if PyStr.mem_char "010" run' then after_last_newline run'
      else if bool_decide (c = "010"%char) then run'
      else run
  end.

(** [re.sub(r'\n\s*\n\s*\n+', '\n\n', text)]. A match starts at a line
    feed whose run of white space holds three line feeds or more and ends
    with the last line feed of that run; [skip] counts the characters of
    the match that are still to be passed over. *)
Fixpoint squeeze_blank_lines (skip : nat) (text : string) : string :=
  match text with
  | "" => ""
  | String c text' =>
      match skip with
      | S skip' => squeeze_blank_lines skip' text'
      | O =>
          let run := PyStr.take_while PyStr.isspace text' in
          if bool_decide (c = "010"%char) && (2 <=? PyStr.count_char "010" run)%nat
          then String "010" (String "010"
                 (squeeze_blank_lines
                    (String.length run - String.length (after_last_newline run)) text'))
          else String c (squeeze_blank_lines 0 text')
      end
  end.

(** ['\n'.join(lines)] *)
Fixpoint join_lines (lines : list string) : string :=
  match lines with
  | [] => ""
  | [line] => line
  | line :: rest => line +:+ String "010" (join_lines rest)
  end.

(** [_clean_text] *)
Definition _clean_text (text : string) : string :=
  let text := squeeze_blank_lines 0 text in
  let lines := PyStr.strip <$> PyStr.split_char "010" text in
  let text := join_lines lines in
  PyStr.strip text.

(** A place where the pattern of [_clean_text] matches: a line feed
    followed by white space that holds two more line feeds. *)
Fixpoint has_blank_gap (text : string) : bool :=
  match text with
  | "" => false
  | String c text' =>
      (bool_decide (c = "010"%char)
       && (2 <=? PyStr.count_char "010" (PyStr.take_while PyStr.isspace text'))%nat)
      || has_blank_gap text'
  end.

(** The same, read off the lines of the text: two blank lines in a row
    that are neither the first nor the last line. *)
Fixpoint blank_pair (lines : list string) : bool :=
  match lines with
  | [] => false
  | _ :: rest =>
      match rest with
      | l1 :: l2 :: _ :: _ =>
          (PyStr.forall_chars PyStr.isspace l1 && PyStr.forall_chars PyStr.isspace l2)
          || blank_pair rest
      | _ => blank_pair rest
      end
  end.

Section Fallback.

(** Fetching a page and reading HTML are outside the embedding: what
    [_fetch_html] returns or raises for a URL, and what [_extract_title],
    [_extract_description] and [_extract_content] make of the page. *)
Variable _fetch_html : string → result string.
Variables _extract_title _extract_description _extract_content : string → result string.

(** [len(content.split()) if content else 0] *)
Definition word_count (content : string) : nat :=
  if decide (content = "") then 0%nat else length (split_whitespace content).

(** [metadata.get('domain', '') if metadata else ''] *)
Definition domain_of (metadata : option (gmap string string)) : string :=
  match metadata with
  | Some m => if decide (m = ∅) then "" else default "" (m !! "domain")
  | None => ""
  end.

(** [FallbackExtractor.extract], with the extractor's count of extractions
    and the clock. *)
Definition extract (url : string) (metadata : option (gmap string string))
    (extraction_count : nat) (w : Env.World)
  : result Storage.ExtractedContent * nat * Env.World :=
  match _fetch_html url with
  | Raise e => (Raise e, extraction_count, w)
  | Ok html =>
      match _extract_title html with
      | Raise e => (Raise e, extraction_count, w)
      | Ok title =>
          match _extract_description html with
          | Raise e => (Raise e, extraction_count, w)
          | Ok description =>
              match _extract_content html with
              | Raise e => (Raise e, extraction_count, w)
              | Ok content =>
                  let extracted_metadata :=
                    Storage.mkMetadata (Some url) (Some (domain_of metadata))
                      (Some (Env.isoformat w (Env.clock w))) (Some "fallback")
                      (Some (word_count content)) in
                  let result :=
                    Storage.mkContent (Some title) (Some description) (Some content)
                                      (Some extracted_metadata) in
                  if validate_extracted_data result
                  then (Ok result, S extraction_count, Env.tick w)
                  else (Raise (Exn ValueError "Extracted data validation failed"),
                        extraction_count, Env.tick w)
              end
          end
      end
  end.

End Fallback.

End Extractor.

(** ** Sample data for the examples *)

Module Sample.

(** An empty file system; the clock reads [T0], [T1], ... *)
Definition empty_world : Env.World :=
  Env.mkWorld ∅ ∅ 0 (λ n, "T" +:+ pretty n).

(** A file system in which the path of the articles directory is taken by
    a regular file. *)
Definition blocked_world : Env.World :=
  Env.mkWorld {[ "knowledge/articles" := "" ]} ∅ 0 (λ n, "T" +:+ pretty n).

Definition hello (body : string) : Storage.ExtractedContent :=
  Storage.mkContent (Some "Hello World!!!") (Some "A greeting") (Some body) None.


Definition two_saves : list (Storage.ExtractedContent * string * string) :=
  [ (hello "first body", "article", "http://example.com/1");
    (hello "second body", "article", "http://example.com/2") ].

(** The state a computation ends in ([start] when it does not end). *)
Definition state_after {A} (start : Storage.State)
    (r : option (result A * Storage.State)) : Storage.State :=
  match r with
  | Some (_, st) => st
  | None => start
  end.

Definition start : Storage.State :=
  Storage.init "knowledge" true Storage.LogMissing empty_world.

Definition after_first : Storage.State :=
  state_after start
    (Storage.save_content (hello "first body") "article" "http://example.com/1" start).

Definition after_second : Storage.State :=
  state_after start
    (Storage.save_content (hello "second body") "article" "http://example.com/2" after_first).

Definition blocked_start : Storage.State :=
  Storage.init "knowledge" true Storage.LogMissing blocked_world.

Definition blocked_first : Storage.State :=
  state_after blocked_start
    (Storage.save_content (hello "first body") "article" "http://example.com/1"
                          blocked_start).

Definition blocked_second : Storage.State :=
  state_after blocked_start
    (Storage.save_content (hello "second body") "article" "http://example.com/2"
                          blocked_first).

(** No check of bracketed hosts (the older interpreters). *)
Definition no_bracket_check (netloc : string) : option string := None.

(** An extractor that fails on the second of three pages. *)
Definition flaky_extract (url : string) (type_metadata : gmap string string)
  : result Storage.ExtractedContent :=
  if decide (url = "http://example.com/2") then
    Raise (Exn ExtractionError "Extracted data validation failed")
  else
    Ok (Storage.mkContent (Some ("Page " +:+ url)) (Some "A page") (Some "some words")
          (Some (Storage.mkMetadata (Some url) (type_metadata !! "domain")
                                    (Some "T") (Some "fallback") (Some 2%nat)))).

Definition page (url : string) : Loader.Resource := Loader.mkResource (Some url) [].

Definition three_pages : list Loader.Resource :=
  [ page "http://example.com/1"; page "http://example.com/2"; page "http://example.com/3" ].

Definition fresh_extractor : Orchestrator.SmartExtractor :=
  Orchestrator.init "knowledge" Storage.LogMissing empty_world.

Definition example_metadata : gmap string string := {[ "domain" := "example.com" ]}.

Definition page_content (url : string) : Storage.ExtractedContent :=
  Storage.mkContent (Some ("Page " +:+ url)) (Some "A page") (Some "some words")
    (Some (Storage.mkMetadata (Some url) (Some "example.com")
                              (Some "T") (Some "fallback") (Some 2%nat))).

(** The storage manager after the first and after the third page. *)
Definition after_page_1 : Storage.State :=
  state_after start
    (Storage.save_content (page_content "http://example.com/1") "article"
                          "http://example.com/1" start).

Definition after_page_3 : Storage.State :=
  state_after start
    (Storage.save_content (page_content "http://example.com/3") "article"
                          "http://example.com/3" after_page_1).

(** The orchestrator after the run over the three pages. *)
Definition after_three_pages : Orchestrator.SmartExtractor :=
  default fresh_extractor
    (Orchestrator.process_each no_bracket_check flaky_extract three_pages fresh_extractor).

(** Manifest texts and the entries they hold. *)
Definition json_string (s : string) : string :=
  String "034" s +:+ String "034" "".

Definition entry_text (url : string) : string :=
  "{" +:+ json_string "url" +:+ ": " +:+ json_string url +:+ "}".

Definition tagged_entry_text (url tag : string) : string :=
  "{" +:+ json_string "url" +:+ ": " +:+ json_string url +:+ ", "
      +:+ json_string "tags" +:+ ": [" +:+ json_string tag +:+ "]}".

Definition url_entry (url : string) : Json.json :=
  Json.JObj [("url", Json.JStr url)].

Definition tagged_entry (url tag : string) : Json.json :=
  Json.JObj [("url", Json.JStr url); ("tags", Json.JArr [Json.JStr tag])].

Definition first_batch : string :=
  "[" +:+ entry_text "http://a.example/1" +:+ ", "
      +:+ entry_text "http://a.example/2" +:+ String "010" "]" +:+ String "010" "".

Definition second_batch : string :=
  " [ " +:+ entry_text "http://b.example/1" +:+ " ] ".

Definition tagged_batch : string :=
  "[" +:+ tagged_entry_text "http://a.example/1" "rocq" +:+ "]".

(** A file system with one manifest. *)
Definition manifest_world (content : string) : Env.World :=
  Env.add_file "resources.json" content empty_world.

End Sample.

(** * Properties *)

(** ** Deduplication keeps first occurrences *)

Module LoaderProps.
Import Loader.

Lemma first_occurrences_snoc (l : list Resource) (x : Resource) :
  first_occurrences (l ++ [x]) =
  first_occurrences l ++
    (if decide (normalized_url x ∈ normalized_url <$> l) then [] else [x]).
Proof.
  unfold first_occurrences. rewrite imap_app, omap_app. f_equal.
  - f_equal. apply imap_ext. intros i r Hi. unfold is_first_occurrence.
    rewrite take_app_le; [done|]. apply lookup_lt_Some in Hi. lia.
  - simpl. unfold is_first_occurrence.
    rewrite Nat.add_0_r, take_app_length.
    destruct (decide (normalized_url x ∈ normalized_url <$> l)) as [Hin|Hin].
    + rewrite bool_decide_eq_false_2; [done|]. by intros ?.
    + by rewrite bool_decide_eq_true_2.
Qed.

Lemma first_occurrences_length (l : list Resource) :
  length (first_occurrences l) ≤ length l.
Proof.
  induction l as [|x l IH] using rev_ind; [done|].
  rewrite first_occurrences_snoc, !length_app. case_decide; simpl; lia.
Qed.

Lemma first_occurrences_sublist (l : list Resource) :
  first_occurrences l `sublist_of` l.
Proof.
  induction l as [|x l IH] using rev_ind; [done|].
  rewrite first_occurrences_snoc. apply sublist_app; [done|].
  case_decide; [apply sublist_nil_l | done].
Qed.

Lemma first_occurrences_keys (l : list Resource) (u : string) :
  u ∈ normalized_url <$> first_occurrences l ↔ u ∈ normalized_url <$> l.
Proof.
  induction l as [|x l IH] using rev_ind; [done|].
  rewrite first_occurrences_snoc, !fmap_app, !elem_of_app, IH.
  case_decide as Hx; simpl; [|done].
  rewrite list_elem_of_singleton. split.
  - intros [?|[]%elem_of_nil]. tauto.
  - intros [?| ->]; tauto.
Qed.

Lemma first_occurrences_NoDup (l : list Resource) :
  NoDup (normalized_url <$> first_occurrences l).
Proof.
  induction l as [|x l IH] using rev_ind; [constructor|].
  rewrite first_occurrences_snoc, fmap_app. apply NoDup_app.
  split; [done|]. case_decide as Hx; simpl.
  - split; [|constructor]. intros ? _ []%elem_of_nil.
  - split; [|apply NoDup_singleton].
    intros u Hu ->%list_elem_of_singleton. by apply Hx, first_occurrences_keys.
Qed.

(** The loop invariant of [deduplicate_resources]. *)
Lemma dedup_loop_invariant (d : nat) (l : list Resource) :
  let st := foldl dedup_step (mkDedup ∅ [] d) l in
  seen_urls st = list_to_set (normalized_url <$> l)
  ∧ unique_resources st = first_occurrences l
  ∧ (dup_count st + length (first_occurrences l) = d + length l)%nat.
Proof.
  induction l as [|x l IH] using rev_ind; [done|].
  cbv zeta in *. rewrite foldl_snoc. destruct IH as (Hseen & Huniq & Hcount).
  rewrite first_occurrences_snoc, fmap_app, list_to_set_app_L, !length_app.
  set (st := foldl dedup_step _ l) in *. clearbody st. unfold dedup_step.
  destruct (decide (normalized_url x ∉ seen_urls st)) as [Hx|Hx];
    rewrite Hseen in Hx; simpl; rewrite ?Hseen, ?Huniq.
  - rewrite elem_of_list_to_set in Hx. rewrite decide_False by done. simpl.
    split_and!; [by rewrite union_empty_r_L, (comm_L (∪))|done|lia].
  - apply dec_stable in Hx. rewrite elem_of_list_to_set in Hx.
    rewrite decide_True by done. simpl.
    split_and!; [|by rewrite app_nil_r|lia].
    rewrite union_empty_r_L. apply set_eq; intros u.
    rewrite elem_of_union, elem_of_singleton, elem_of_list_to_set.
    split; [tauto|]. by intros [?| ->].
Qed.

(** C8. For every list of resource entries, [deduplicate_resources] returns a
    list no longer than its input, in which no two entries share a normalized
    (trimmed, lower-cased) URL, and which consists of exactly the first
    occurrence of each normalized URL, in the original relative order. *)
Theorem deduplicate_first_occurrence_wins
    (stats : LoaderStats) (resources : list Resource) :
  let out := (deduplicate_resources stats resources).1 in
  length out ≤ length resources
  ∧ NoDup (normalized_url <$> out)
  ∧ out `sublist_of` resources
  ∧ (∀ u, u ∈ normalized_url <$> resources → u ∈ normalized_url <$> out)
  ∧ out = first_occurrences resources.
Proof.
  simpl. destruct (dedup_loop_invariant (st_duplicates stats) resources)
    as (_ & -> & _).
  split_and!.
  - apply first_occurrences_length.
  - apply first_occurrences_NoDup.
  - apply first_occurrences_sublist.
  - intros u. apply first_occurrences_keys.
  - done.
Qed.

End LoaderProps.

(** ** Strings *)

Module StrFacts.

Lemma app_nil_r (s : string) : s +:+ "" = s.
Proof. induction s as [|c s IH]; simpl; [done|]. unfold String.app in *; simpl. by rewrite IH. Qed.

Lemma app_assoc (a b c : string) : (a +:+ b) +:+ c = a +:+ b +:+ c.
Proof.
  induction a as [|x a IH]; [done|].
  unfold String.app in *; simpl. by rewrite IH.
Qed.

Lemma length_app (a b : string) :
  String.length (a +:+ b) = (String.length a + String.length b)%nat.
Proof.
  induction a as [|x a IH]; [done|].
  unfold String.app in *; simpl. by rewrite IH.
Qed.

Lemma app_inj_r (a b s : string) : a +:+ s = b +:+ s → a = b.
Proof.
  revert b. induction a as [|x a IH]; intros [|y b] H.
  - done.
  - apply (f_equal String.length) in H. rewrite !length_app in H. simpl in H. lia.
  - apply (f_equal String.length) in H. rewrite !length_app in H. simpl in H. lia.
  - unfold String.app in *; simpl in H. injection H as -> H. f_equal. by apply IH.
Qed.

End StrFacts.

(** ** Storage: file names, saves and the processing log *)

Module StorageProps.
Import Storage.

Lemma path_join_inj (d a b : string) : Env.path_join d a = Env.path_join d b → a = b.
Proof.
  unfold Env.path_join. intros Heq. repeat case_decide; [done| |].
  - by apply (inj (String.app "/")) in Heq.
  - apply (inj (String.app d)) in Heq. by apply (inj (String.app "/")) in Heq.
Qed.

Lemma candidate_inj (slug : string) (i j : nat) :
  candidate slug i = candidate slug j → i = j.
Proof.
  unfold candidate. destruct i as [|i], j as [|j]; intros H; [done| | |].
  - apply (inj (String.app slug)) in H. discriminate.
  - apply (inj (String.app slug)) in H. discriminate.
  - apply (inj (String.app slug)) in H. apply (inj (String.app "-")) in H.
    apply StrFacts.app_inj_r in H. apply (inj pretty) in H. lia.
Qed.

Lemma path_exists_occupied (w : Env.World) (p : string) :
  Env.path_exists w p = true ↔ p ∈ Env.occupied w.
Proof.
  unfold Env.path_exists, Env.occupied.
  rewrite orb_true_iff, !bool_decide_eq_true, elem_of_union, elem_of_dom. done.
Qed.

Lemma occupied_size (w : Env.World) : size (Env.occupied w) < loop_fuel w.
Proof.
  unfold Env.occupied, loop_fuel. rewrite size_union_alt, size_dom.
  assert (size (Env.dirs w ∖ dom (Env.files w)) ≤ size (Env.dirs w)).
  { apply subseteq_size. apply subseteq_difference_l. done. }
  lia.
Qed.

(** The loop ends within any fuel that bounds the number of occupied
    candidate paths, on the first candidate that does not exist. *)
Lemma free_name_from (w : Env.World) (dir slug : string) (fuel i : nat) (X : gset string) :
  (∀ j, i ≤ j → Env.path_exists w (Env.path_join dir (candidate slug j)) = true →
        Env.path_join dir (candidate slug j) ∈ X) →
  size X ≤ fuel →
  ∃ k, i ≤ k
    ∧ free_name fuel w dir slug (candidate slug i) (i + 2) = Some (candidate slug k)
    ∧ Env.path_exists w (Env.path_join dir (candidate slug k)) = false
    ∧ ∀ j, i ≤ j < k → Env.path_exists w (Env.path_join dir (candidate slug j)) = true.
Proof.
  revert i X. induction fuel as [|fuel IH]; intros i X HX Hsize.
  - exists i. simpl.
    destruct (Env.path_exists w _) eqn:He.
    + apply HX in He; [|done]. apply size_empty_iff in He; [done|]. lia.
    + split_and!; [done|done|done|]. intros j ?; lia.
  - simpl. destruct (Env.path_exists w (Env.path_join dir (candidate slug i))) eqn:He.
    + destruct (IH (S i) (X ∖ {[ Env.path_join dir (candidate slug i) ]}))
        as (k & Hk & Hfree & Hno & Hall).
      * intros j Hj Hex. apply elem_of_difference. split; [apply HX; [lia|done]|].
        rewrite not_elem_of_singleton. intros Heq%path_join_inj%candidate_inj. lia.
      * assert (Hin : Env.path_join dir (candidate slug i) ∈ X) by (by apply HX).
        rewrite size_difference by (by apply singleton_subseteq_l).
        rewrite size_singleton. apply elem_of_subseteq_singleton, subseteq_size in Hin.
        rewrite size_singleton in Hin. lia.
      * exists k. split_and!; [lia| |done|].
        -- replace (slug +:+ "-" +:+ pretty (i + 2) +:+ ".md") with (candidate slug (S i)).
           ++ replace (S (i + 2)) with (S i + 2) by lia. done.
           ++ unfold candidate. by replace (S (S i)) with (i + 2) by lia.
        -- intros j Hj. destruct (decide (j = i)) as [->|]; [done|]. apply Hall. lia.
    + exists i. split_and!; [done|done|done|]. intros j ?; lia.
Qed.

Lemma free_name_spec (w : Env.World) (dir slug : string) :
  ∃ k, free_name (loop_fuel w) w dir slug (slug +:+ ".md") 2 = Some (candidate slug k)
    ∧ Env.path_exists w (Env.path_join dir (candidate slug k)) = false
    ∧ ∀ j, j < k → Env.path_exists w (Env.path_join dir (candidate slug j)) = true.
Proof.
  destruct (free_name_from w dir slug (loop_fuel w) 0 (Env.occupied w))
    as (k & _ & Hfree & Hno & Hall).
  - intros j _. apply path_exists_occupied.
  - pose proof (occupied_size w). lia.
  - exists k. split_and!; [done|done|]. intros j Hj. apply Hall. lia.
Qed.


(** *** Rules for computations *)

Lemma post_ret {A} (a : A) (st : State) (Q : result A → State → Prop) :
  Q (Ok a) st → post (ret a) st Q.
Proof. intros HQ. by exists (Ok a), st. Qed.

Lemma post_raise {A} (e : exn) (st : State) (Q : result A → State → Prop) :
  Q (Raise e) st → post (raise e) st Q.
Proof. intros HQ. by exists (Raise e), st. Qed.

Lemma post_get (st : State) (Q : result State → State → Prop) :
  Q (Ok st) st → post get st Q.
Proof. intros HQ. by exists (Ok st), st. Qed.

Lemma post_modify_world (f : Env.World → Env.World) (st : State)
    (Q : result unit → State → Prop) :
  Q (Ok ()) (mkState (self st) (f (world st)) (log_file st)) →
  post (modify_world f) st Q.
Proof. intros HQ. by eexists _, _. Qed.

Lemma post_modify_self (f : StorageManager → StorageManager) (st : State)
    (Q : result unit → State → Prop) :
  Q (Ok ()) (mkState (f (self st)) (world st) (log_file st)) →
  post (modify_self f) st Q.
Proof. intros HQ. by eexists _, _. Qed.

Lemma post_bind {A B} (m : M A) (k : A → M B) (st : State)
    (Q : result B → State → Prop) :
  post m st (λ r st', match r with
                      | Ok a => post (k a) st' Q
                      | Raise e => Q (Raise e) st'
                      end) →
  post (bind m k) st Q.
Proof.
  intros (r & st' & Hm & HQ). unfold post, bind. rewrite Hm.
  destruct r as [a|e]; [done|]. by eexists _, _.
Qed.

Lemma post_try {A} (body : M A) (handler : exn → M A) (st : State)
    (Q : result A → State → Prop) :
  post body st (λ r st', match r with
                         | Ok a => Q (Ok a) st'
                         | Raise e => post (handler e) st' Q
                         end) →
  post (try_except body handler) st Q.
Proof.
  intros (r & st' & Hm & HQ). unfold post, try_except. rewrite Hm.
  destruct r as [a|e]; [|done]. by eexists _, _.
Qed.

Lemma post_now (st : State) (Q : result string → State → Prop) :
  Q (Ok (Env.isoformat (world st) (Env.clock (world st))))
    (mkState (self st) (Env.tick (world st)) (log_file st)) →
  post now st Q.
Proof.
  intros HQ. unfold now. apply post_bind, post_get.
  apply post_bind, post_modify_world. by apply post_ret.
Qed.

Lemma post_mkdir (p : string) (st : State) (Q : result unit → State → Prop) :
  (is_Some (Env.files (world st) !! p) →
   Q (Raise (Exn FileExistsError ("[Errno 17] File exists: " +:+ Env.quote p))) st) →
  (Env.files (world st) !! p = None →
   Q (Ok ()) (mkState (self st) (Env.add_dir p (world st)) (log_file st))) →
  post (mkdir p) st Q.
Proof.
  intros Hfile Hfree. unfold mkdir. apply post_bind, post_get.
  case_bool_decide as Hp.
  - by apply post_raise, Hfile.
  - apply post_modify_world, Hfree. by apply eq_None_not_Some.
Qed.

Lemma post_write_text (parent name text : string) (st : State)
    (Q : result unit → State → Prop) :
  (∀ e, parent ∉ Env.dirs (world st) ∨ Env.path_join parent name ∈ Env.dirs (world st) →
        Q (Raise e) st) →
  (parent ∈ Env.dirs (world st) →
   Q (Ok ()) (mkState (self st) (Env.add_file (Env.path_join parent name) text (world st))
                      (log_file st))) →
  post (write_text parent name text) st Q.
Proof.
  intros Hfail Hok. unfold write_text. apply post_bind, post_get.
  repeat case_bool_decide; try (apply post_raise, Hfail; by auto).
  by apply post_modify_world, Hok.
Qed.

Lemma post_generate_filename (title rt : string) (n : nat) (st : State)
    (Q : result string → State → Prop) :
  (∀ k,
     let dir := Env.path_join (base_path (self st)) (_determine_category rt) in
     Env.path_exists (world st) (Env.path_join dir (candidate (slugify title n) k)) = false →
     (∀ j, j < k →
        Env.path_exists (world st) (Env.path_join dir (candidate (slugify title n) j)) = true) →
     Q (Ok (candidate (slugify title n) k)) st) →
  post (_generate_filename title rt n) st Q.
Proof.
  intros HQ.
  destruct (free_name_spec (world st)
              (Env.path_join (base_path (self st)) (_determine_category rt))
              (slugify title n)) as (k & Hfree & Hno & Hall).
  unfold post, _generate_filename. rewrite Hfree. eexists _, _. split; [done|].
  by apply HQ.
Qed.

Lemma post_format_markdown (d : ExtractedContent) (rt url : string) (st : State)
    (Q : result string → State → Prop) :
  Q (Ok (markdown_document d rt url
           (Env.isoformat (world st) (Env.clock (world st)))
           (Env.isoformat (world st) (S (Env.clock (world st))))))
    (mkState (self st) (Env.tick (Env.tick (world st))) (log_file st)) →
  post (_format_markdown d rt url) st Q.
Proof.
  intros HQ. unfold _format_markdown.
  apply post_bind, post_now. apply post_bind, post_now. by apply post_ret.
Qed.

Lemma count_status_snoc (status : string) (entries : list LogEntry) (e : LogEntry) :
  count_status status (entries ++ [e]) =
  (count_status status entries + (if decide (entry_status e = status) then 1 else 0))%nat.
Proof.
  unfold count_status. rewrite filter_app, length_app. f_equal.
  rewrite filter_cons, filter_nil. by case_decide.
Qed.

Lemma post_update_processing_log (url status : string) (out err : option string)
    (st : State) (Q : result unit → State → Prop) :
  (∀ log e,
     appended (processing_log (self st)) log e →
     e = mkEntry url status (Env.isoformat (world st) (Env.clock (world st))) out err →
     Q (Ok ()) (mkState (set_log log (self st)) (Env.tick (Env.tick (world st)))
                        (log_file st))) →
  post (_update_processing_log url status out err) st Q.
Proof.
  intros HQ. unfold _update_processing_log.
  apply post_bind, post_now. apply post_bind, post_get.
  apply post_bind, post_now. apply post_modify_self. cbn.
  eapply HQ; [|done]. by split.
Qed.


(** *** One save *)

Section OneSave.

Variables (d : ExtractedContent) (rt url : string) (st0 : State).

Let done_ (r : result (option string)) (st' : State) : Prop :=
  ∃ out, r = Ok out ∧ save_outcome d rt url st0 out st'.

Let dir : string := Env.path_join (base_path (self st0)) (_determine_category rt).
Let slug : string := slugify (default "untitled" (title d)) 50.

Variable k : nat.
Hypothesis Hfresh :
  Env.path_exists (world st0) (Env.path_join dir (candidate slug k)) = false.
Hypothesis Hearlier :
  ∀ j, j < k → Env.path_exists (world st0) (Env.path_join dir (candidate slug j)) = true.

(** The [except] branch. *)
Lemma post_save_handler (e : exn) (st : State) :
  steady st0 st →
  post (do _ <- modify_self (λ sm, set_stats (mkStats (saved (stats sm))
                                                     (S (stats_failed (stats sm)))
                                                     (total_bytes (stats sm))) sm) ;;
        do _ <- _update_processing_log url "failed" None (Some (exn_msg e)) ;;
        ret None) st done_.
Proof.
  intros (Hself & Hlog & Hfiles & Hdirs & Hiso).
  apply post_bind, post_modify_self.
  apply post_bind, post_update_processing_log. intros log entry Happ ->.
  apply post_ret. exists None. split; [done|]. exists k. cbn in *.
  rewrite Hself in *. split_and!; try done.
  eexists. split_and!; [exact Happ|done..].
Qed.

(** The [try] branch from the point where the category directory has been
    dealt with. *)
Lemma post_save_tail (st : State) :
  steady st0 st →
  Env.clock (world st) = Env.clock (world st0) →
  post (do markdown <- _format_markdown d rt url ;;
        do _ <- write_text dir (candidate slug k) markdown ;;
        do _ <- modify_self (λ sm, set_stats (mkStats (S (saved (stats sm)))
                                                   (stats_failed (stats sm))
                                                   (total_bytes (stats sm) + String.length markdown))
                                          sm) ;;
        do _ <- _update_processing_log url "completed"
                  (Some (Env.path_join dir (candidate slug k))) None ;;
        ret (Some (Env.path_join dir (candidate slug k)))) st
       (λ r st', match r with
                 | Ok a => done_ (Ok a) st'
                 | Raise e =>
                     post (do _ <- modify_self (λ sm, set_stats (mkStats (saved (stats sm))
                                                     (S (stats_failed (stats sm)))
                                                     (total_bytes (stats sm))) sm) ;;
                           do _ <- _update_processing_log url "failed" None (Some (exn_msg e)) ;;
                           ret None) st' done_
                 end).
Proof.
  intros (Hself & Hlog & Hfiles & Hdirs & Hiso) Hclock.
  apply post_bind, post_format_markdown.
  apply post_bind, post_write_text; cbn.
  - intros e _. apply post_save_handler. by split_and!.
  - intros Hdir. apply post_bind, post_modify_self.
    apply post_bind, post_update_processing_log. intros log entry Happ ->.
    apply post_ret. exists (Some (Env.path_join dir (candidate slug k))).
    split; [done|]. exists k. cbn in *. rewrite Hself in *.
    split_and!; try done.
    eexists. split_and!; [exact Happ|done..| |done].
    by rewrite Hfiles, Hiso, Hclock.
Qed.

End OneSave.

Lemma steady_refl (st : State) : steady st st.
Proof. by split_and!. Qed.

(** [save_content] always ends, never raises, and does what [save_outcome]
    says. *)
Lemma save_content_spec (d : ExtractedContent) (rt url : string) (st : State) :
  ∃ out st', save_content d rt url st = Some (Ok out, st')
             ∧ save_outcome d rt url st out st'.
Proof.
  cut (post (save_content d rt url) st
            (λ r st', ∃ out, r = Ok out ∧ save_outcome d rt url st out st')).
  { intros (r & st' & Hrun & out & -> & Hout). by exists out, st'. }
  unfold save_content. apply post_try.
  apply post_bind, post_generate_filename. intros k dir Hfresh Hearlier.
  apply post_bind, post_get. apply post_bind.
  destruct (create_categories (self st)).
  - apply post_mkdir.
    + intros _. apply (post_save_handler d rt url st k Hfresh Hearlier), steady_refl.
    + intros _. apply (post_save_tail d rt url st k Hfresh Hearlier); [|done].
      split_and!; try done. cbn. apply union_subseteq_r.
  - apply post_ret.
    apply (post_save_tail d rt url st k Hfresh Hearlier); [apply steady_refl|done].
Qed.



(** *** A run of saves *)

Lemma save_all_spec (calls : list (ExtractedContent * string * string)) (st : State) :
  ∃ outs st',
    save_all calls st = Some (Ok outs, st')
    ∧ length outs = length calls
    ∧ log_file st' = log_file st
    ∧ (∃ new, resources (processing_log (self st'))
              = resources (processing_log (self st)) ++ new
              ∧ length new = length calls)
    ∧ (calls = [] → processing_log (self st') = processing_log (self st))
    ∧ (calls ≠ [] → consistent (processing_log (self st'))).
Proof.
  revert st. induction calls as [|[[d rt] url] calls IH]; intros st.
  - exists [], st. split_and!; try done. exists []. by rewrite app_nil_r.
  - destruct (save_content_spec d rt url st) as (out & st1 & Hrun & k & Hout).
    cbn zeta in Hout.
    destruct Hout as (_ & _ & _ & _ & Hlf & _ & _ & e & [Hres Hcons] & _).
    destruct (IH st1) as (outs & st' & Hrest & Hlen & Hlf' & (new & Hnew & Hnewlen) & Hnil & Hcons').
    exists (out :: outs), st'. simpl. unfold bind. rewrite Hrun, Hrest.
    split_and!; try done.
    + simpl. by rewrite Hlen.
    + congruence.
    + exists (e :: new). split; [|simpl; by rewrite Hnewlen].
      by rewrite Hnew, Hres, <- app_assoc.
    + intros _. destruct calls; [|by apply Hcons'].
      by rewrite Hnil.
Qed.




(** A log made by [_load_processing_log] when none loads is consistent, and
    so is every log a save has touched: the logs runs write are the ones the
    theorem above speaks of. *)
Lemma new_log_consistent (stamp : string) : consistent (new_log stamp).
Proof. by split_and!. Qed.

Lemma saved_log_consistent (d : ExtractedContent) (rt url : string) (st st' : State)
    (out : option string) :
  save_content d rt url st = Some (Ok out, st') → consistent (processing_log (self st')).
Proof.
  intros Hrun. destruct (save_content_spec d rt url st) as (out' & st'' & Hrun' & k & Hout).
  rewrite Hrun in Hrun'. injection Hrun' as <- <-. cbn zeta in Hout.
  by destruct Hout as (_ & _ & _ & _ & _ & _ & _ & e & [_ Hcons] & _).
Qed.

(** *** Two saves under one title *)

Lemma path_exists_file (w : Env.World) (p text : string) :
  Env.files w !! p = Some text → Env.path_exists w p = true.
Proof.
  intros H. unfold Env.path_exists. rewrite bool_decide_eq_true_2; [done|]. by eexists.
Qed.

Lemma path_exists_mono (w w' : Env.World) (p : string) :
  Env.files w ⊆ Env.files w' → Env.dirs w ⊆ Env.dirs w' →
  Env.path_exists w p = true → Env.path_exists w' p = true.
Proof.
  intros Hf Hd. rewrite !path_exists_occupied. unfold Env.occupied.
  rewrite !elem_of_union, !elem_of_dom. intros [[x Hx]|Hin].
  - left. exists x. by eapply lookup_weaken.
  - right. by apply Hd.
Qed.

(** C2, as the code has it. Of two consecutive calls of [save_content] with
    the same title and resource type that both return a path, the second
    writes to a path other than the first: each path is the first of
    [slug.md], [slug-2.md], [slug-3.md], ... that did not exist when its call
    was made, so the second comes later in that sequence; the first file is
    not overwritten; and afterwards both files exist, each holding the
    document of its own call. *)
Theorem same_title_saves_get_distinct_files
    (d1 d2 : ExtractedContent) (rt url1 url2 : string) (st st1 st2 : State)
    (p1 p2 : string) :
  title d1 = title d2 →
  save_content d1 rt url1 st = Some (Ok (Some p1), st1) →
  save_content d2 rt url2 st1 = Some (Ok (Some p2), st2) →
  let dir := Env.path_join (base_path (self st)) (_determine_category rt) in
  let slug := slugify (default "untitled" (title d1)) 50 in
  let doc1 := markdown_document d1 rt url1
                (Env.isoformat (world st) (Env.clock (world st)))
                (Env.isoformat (world st) (S (Env.clock (world st)))) in
  let doc2 := markdown_document d2 rt url2
                (Env.isoformat (world st1) (Env.clock (world st1)))
                (Env.isoformat (world st1) (S (Env.clock (world st1)))) in
  p1 ≠ p2
  ∧ (∃ i j, i < j
            ∧ p1 = Env.path_join dir (candidate slug i)
            ∧ p2 = Env.path_join dir (candidate slug j)
            ∧ (∀ n, n < i → Env.path_exists (world st) (Env.path_join dir (candidate slug n)) = true)
            ∧ (∀ n, n < j → Env.path_exists (world st1) (Env.path_join dir (candidate slug n)) = true))
  ∧ Env.files (world st) !! p1 = None
  ∧ Env.files (world st1) !! p1 = Some doc1
  ∧ Env.files (world st2) !! p1 = Some doc1
  ∧ Env.files (world st2) !! p2 = Some doc2.
Proof.
  intros Htitle Hrun1 Hrun2 dir slug doc1 doc2.
  destruct (save_content_spec d1 rt url1 st) as (o1 & s1 & Hr1 & k1 & Ho1).
  rewrite Hrun1 in Hr1. injection Hr1 as <- <-. cbn zeta in Ho1.
  destruct Ho1 as (Hfresh1 & Hearlier1 & Hbase1 & _ & _ & _ & Hdirs1 & e1 & _ & _ & _ & Hcase1).
  destruct Hcase1 as (Hp1 & _ & _ & Hfiles1 & _).
  destruct (save_content_spec d2 rt url2 st1) as (o2 & s2 & Hr2 & k2 & Ho2).
  rewrite Hrun2 in Hr2. injection Hr2 as <- <-. cbn zeta in Ho2.
  destruct Ho2 as (Hfresh2 & Hearlier2 & _ & _ & _ & _ & _ & e2 & _ & _ & _ & Hcase2).
  destruct Hcase2 as (Hp2 & _ & _ & Hfiles2 & _).
  rewrite Hbase1, <- Htitle in *. fold dir slug in Hfresh1, Hearlier1, Hp1, Hfiles1,
    Hfresh2, Hearlier2, Hp2, Hfiles2. fold doc1 in Hfiles1. fold doc2 in Hfiles2.
  assert (Hnone1 : Env.files (world st) !! p1 = None).
  { rewrite Hp1. apply eq_None_not_Some. intros Hsome.
    unfold Env.path_exists in Hfresh1. apply orb_false_elim in Hfresh1 as [Hf _].
    by apply bool_decide_eq_false in Hf. }
  assert (Hin1 : Env.files (world st1) !! p1 = Some doc1).
  { by rewrite Hfiles1, Hp1, lookup_insert_eq. }
  assert (Hne : p1 ≠ p2).
  { intros Heq. rewrite Hp2 in Heq. rewrite <- Heq in Hfresh2.
    apply path_exists_file in Hin1. congruence. }
  split_and!; try done.
  - exists k1, k2. split_and!; try done.
    destruct (decide (k1 < k2)) as [|Hge]; [done|]. exfalso.
    destruct (decide (k2 = k1)) as [->|]; [by rewrite Hp1, Hp2 in Hne|].
    assert (Hlt : k2 < k1) by lia. apply Hearlier1 in Hlt.
    eapply path_exists_mono in Hlt; [by rewrite Hlt in Hfresh2| |done].
    rewrite Hfiles1. apply insert_subseteq. by rewrite <- Hp1.
  - rewrite Hfiles2, lookup_insert_ne; [done|by rewrite <- Hp2].
  - by rewrite Hfiles2, Hp2, lookup_insert_eq.
Qed.


Lemma same_title_saves_witness :
  title (Sample.hello "first body") = title (Sample.hello "second body")
  ∧ save_content (Sample.hello "first body") "article" "http://example.com/1" Sample.start
    = Some (Ok (Some "knowledge/articles/hello-world.md"), Sample.after_first)
  ∧ save_content (Sample.hello "second body") "article" "http://example.com/2"
                 Sample.after_first
    = Some (Ok (Some "knowledge/articles/hello-world-2.md"), Sample.after_second)
  ∧ "knowledge/articles/hello-world.md" ≠ "knowledge/articles/hello-world-2.md"
  ∧ Env.files (world Sample.after_second) !! "knowledge/articles/hello-world.md"
    = Some (markdown_document (Sample.hello "first body") "article"
                              "http://example.com/1" "T1" "T2")
  ∧ Env.files (world Sample.after_second) !! "knowledge/articles/hello-world-2.md"
    = Some (markdown_document (Sample.hello "second body") "article"
                              "http://example.com/2" "T5" "T6").
Proof.
  assert (H1 : save_content (Sample.hello "first body") "article" "http://example.com/1"
                 Sample.start
               = Some (Ok (Some "knowledge/articles/hello-world.md"), Sample.after_first))
    by (vm_compute; reflexivity).
  assert (H2 : save_content (Sample.hello "second body") "article" "http://example.com/2"
                 Sample.after_first
               = Some (Ok (Some "knowledge/articles/hello-world-2.md"), Sample.after_second))
    by (vm_compute; reflexivity).
  destruct (same_title_saves_get_distinct_files
              (Sample.hello "first body") (Sample.hello "second body") "article"
              "http://example.com/1" "http://example.com/2"
              Sample.start Sample.after_first Sample.after_second
              "knowledge/articles/hello-world.md" "knowledge/articles/hello-world-2.md"
              eq_refl H1 H2)
    as (Hne & _ & _ & _ & Hdoc1 & Hdoc2).
  split_and!; [reflexivity|exact H1|exact H2|exact Hne| |].
  - vm_compute. vm_compute in Hdoc1. exact Hdoc1.
  - vm_compute. vm_compute in Hdoc2. exact Hdoc2.
Defined.

(** C2 as stated fails when the saves fail: with the articles directory's
    path taken by a regular file both calls return [None], the name
    generated is [hello-world.md] both times, and no file exists afterwards. *)
Lemma same_title_failed_saves_write_nothing :
  save_content (Sample.hello "first body") "article" "http://example.com/1"
               Sample.blocked_start
  = Some (Ok None, Sample.blocked_first)
  ∧ save_content (Sample.hello "second body") "article" "http://example.com/2"
                 Sample.blocked_first
    = Some (Ok None, Sample.blocked_second)
  ∧ _generate_filename "Hello World!!!" "article" 50 Sample.blocked_start
    = Some (Ok "hello-world.md", Sample.blocked_start)
  ∧ _generate_filename "Hello World!!!" "article" 50 Sample.blocked_first
    = Some (Ok "hello-world.md", Sample.blocked_first)
  ∧ Env.files (world Sample.blocked_second) !! "knowledge/articles/hello-world.md" = None
  ∧ Env.files (world Sample.blocked_second) !! "knowledge/articles/hello-world-2.md" = None.
Proof. split_and!; vm_compute; reflexivity. Qed.

End StorageProps.

(** ** Orchestration: a failed extraction is counted, not logged *)

Module OrchestratorProps.
Import Orchestrator.

Section Run.

Variable check : string → option string.
Variable extract : string → gmap string string → result Storage.ExtractedContent.

Notation url_of r := (PyStr.strip (default "" (Loader.res_url r))).

(** A resource whose content is extracted and saved: the save's effect on
    the storage manager, and one more success. *)
Lemma process_resource_saved (r : Loader.Resource) (self : SmartExtractor)
    (rt : string) (md : gmap string string) (d : Storage.ExtractedContent)
    (p : string) (st : Storage.State) :
  Detector.classify check (url_of r) = Ok (rt, md) →
  extract (url_of r) md = Ok d →
  Storage.save_content d rt (url_of r) (storage self) = Some (Ok (Some p), st) →
  _process_resource check extract r self
  = Some (mkExtractor (alter S rt (detection_stats self)) st (count_success (stats self))).
Proof.
  intros Hc He Hs. unfold _process_resource, Detector.detect_type.
  by rewrite Hc, He, Hs.
Qed.

(** A resource whose extraction raises: one more failure, and the storage
    manager (its processing log included) is left as it was. *)
Lemma process_resource_extract_raises (r : Loader.Resource) (self : SmartExtractor)
    (rt : string) (md : gmap string string) (e : exn) :
  Detector.classify check (url_of r) = Ok (rt, md) →
  extract (url_of r) md = Raise e →
  _process_resource check extract r self
  = Some (mkExtractor (alter S rt (detection_stats self)) (storage self)
                      (count_failure (stats self))).
Proof.
  intros Hc He. unfold _process_resource, Detector.detect_type.
  by rewrite Hc, He.
Qed.

(** No error of a resource stops the loop: every resource is processed. *)
Lemma process_resource_total (r : Loader.Resource) (self : SmartExtractor) :
  ∃ self', _process_resource check extract r self = Some self'
           ∧ (successful (stats self') + failed (stats self')
              = S (successful (stats self) + failed (stats self)))%nat.
Proof.
  unfold _process_resource, Detector.detect_type.
  destruct (Detector.classify check _) as [[rt md]|e]; [|eexists; split; [done|simpl; lia]].
  destruct (extract _ md) as [d|e]; [|eexists; split; [done|simpl; lia]].
  destruct (StorageProps.save_content_spec d rt (url_of r) (storage self))
    as (out & st' & -> & _).
  destruct out; eexists; (split; [done|simpl; lia]).
Qed.

Lemma process_each_total (rs : list Loader.Resource) (self : SmartExtractor) :
  ∃ self', process_each check extract rs self = Some self'
           ∧ (successful (stats self') + failed (stats self')
              = length rs + (successful (stats self) + failed (stats self)))%nat.
Proof.
  revert self. induction rs as [|r rs IH]; intros self; [by exists self|].
  destruct (process_resource_total r self) as (self1 & Hr & Hcount).
  destruct (IH self1) as (self' & Hrs & Hcount').
  exists self'. simpl. rewrite Hr. split; [done|]. lia.
Qed.

(** C1, as the code has it. In a run over three resources in which the
    first and the third are extracted and saved and the extractor raises for
    the second, the error is caught and the third resource is processed;
    the run statistics end with two more successes and one more failure;
    the processing log gets exactly two entries, both ['completed'] (for the
    first and the third resource), and none with status ['failed']: the
    failed extraction is counted, and the log keeps no entry of it. *)
Theorem extraction_failure_is_counted_and_run_continues
    (r1 r2 r3 : Loader.Resource) (self : SmartExtractor)
    (rt1 rt2 rt3 : string) (md1 md2 md3 : gmap string string)
    (d1 d3 : Storage.ExtractedContent) (e2 : exn) (p1 p3 : string)
    (st1 st3 : Storage.State) :
  Detector.classify check (url_of r1) = Ok (rt1, md1) →
  extract (url_of r1) md1 = Ok d1 →
  Storage.save_content d1 rt1 (url_of r1) (storage self) = Some (Ok (Some p1), st1) →
  Detector.classify check (url_of r2) = Ok (rt2, md2) →
  extract (url_of r2) md2 = Raise e2 →
  Detector.classify check (url_of r3) = Ok (rt3, md3) →
  extract (url_of r3) md3 = Ok d3 →
  Storage.save_content d3 rt3 (url_of r3) st1 = Some (Ok (Some p3), st3) →
  let log0 := Storage.processing_log (Storage.self (storage self)) in
  let log3 := Storage.processing_log (Storage.self st3) in
  ∃ final,
    process_each check extract [r1; r2; r3] self = Some final
    ∧ storage final = st3
    ∧ successful (stats final) = (successful (stats self) + 2)%nat
    ∧ failed (stats final) = (failed (stats self) + 1)%nat
    ∧ (∃ entry1 entry3,
         Storage.resources log3 = Storage.resources log0 ++ [entry1; entry3]
         ∧ Storage.entry_url entry1 = url_of r1
         ∧ Storage.entry_status entry1 = "completed"
         ∧ Storage.entry_url entry3 = url_of r3
         ∧ Storage.entry_status entry3 = "completed")
    ∧ Storage.count_status "completed" (Storage.resources log3)
      = (Storage.count_status "completed" (Storage.resources log0) + 2)%nat
    ∧ Storage.count_status "failed" (Storage.resources log3)
      = Storage.count_status "failed" (Storage.resources log0).
Proof.
  intros Hc1 He1 Hs1 Hc2 He2 Hc3 He3 Hs3 log0 log3.
  eexists. split.
  { simpl. rewrite (process_resource_saved _ _ _ _ _ _ _ Hc1 He1 Hs1).
    rewrite (process_resource_extract_raises _ _ _ _ _ Hc2 He2).
    simpl. rewrite (process_resource_saved r3 (mkExtractor _ st1 _) _ _ _ _ _ Hc3 He3 Hs3).
    done. }
  simpl. split_and!; [done|lia|lia|..].
  all: destruct (StorageProps.save_content_spec d1 rt1 (url_of r1) (storage self))
         as (o1 & s1 & Hr1 & k1 & Ho1);
       rewrite Hs1 in Hr1; injection Hr1 as <- <-; cbn zeta in Ho1;
       destruct Ho1 as (_ & _ & _ & _ & _ & _ & _ & entry1 & [Hres1 _] & Hu1 & _ & _ & Hst1 & _);
       destruct (StorageProps.save_content_spec d3 rt3 (url_of r3) st1)
         as (o3 & s3 & Hr3 & k3 & Ho3);
       rewrite Hs3 in Hr3; injection Hr3 as <- <-; cbn zeta in Ho3;
       destruct Ho3 as (_ & _ & _ & _ & _ & _ & _ & entry3 & [Hres3 _] & Hu3 & _ & _ & Hst3 & _);
       subst log0 log3; rewrite Hres3, Hres1.
  - exists entry1, entry3. by rewrite <- app_assoc.
  - rewrite !StorageProps.count_status_snoc, Hst1, Hst3. simpl. lia.
  - rewrite !StorageProps.count_status_snoc, Hst1, Hst3. simpl. lia.
Qed.

End Run.


Lemma extraction_failure_witness :
  Detector.classify Sample.no_bracket_check "http://example.com/1"
  = Ok ("article", Sample.example_metadata)
  ∧ Sample.flaky_extract "http://example.com/1" Sample.example_metadata
    = Ok (Sample.page_content "http://example.com/1")
  ∧ Storage.save_content (Sample.page_content "http://example.com/1") "article"
      "http://example.com/1" Sample.start
    = Some (Ok (Some "knowledge/articles/page-httpexamplecom1.md"), Sample.after_page_1)
  ∧ Detector.classify Sample.no_bracket_check "http://example.com/2"
    = Ok ("article", Sample.example_metadata)
  ∧ Sample.flaky_extract "http://example.com/2" Sample.example_metadata
    = Raise (Exn ExtractionError "Extracted data validation failed")
  ∧ Detector.classify Sample.no_bracket_check "http://example.com/3"
    = Ok ("article", Sample.example_metadata)
  ∧ Sample.flaky_extract "http://example.com/3" Sample.example_metadata
    = Ok (Sample.page_content "http://example.com/3")
  ∧ Storage.save_content (Sample.page_content "http://example.com/3") "article"
      "http://example.com/3" Sample.after_page_1
    = Some (Ok (Some "knowledge/articles/page-httpexamplecom3.md"), Sample.after_page_3)
  ∧ ∃ final,
      process_each Sample.no_bracket_check Sample.flaky_extract Sample.three_pages
                   Sample.fresh_extractor = Some final
      ∧ storage final = Sample.after_page_3
      ∧ successful (stats final) = 2%nat
      ∧ failed (stats final) = 1%nat
      ∧ Storage.count_status "failed"
          (Storage.resources (Storage.processing_log (Storage.self Sample.after_page_3)))
        = 0%nat.
Proof.
  assert (Hc1 : Detector.classify Sample.no_bracket_check
                  (PyStr.strip (default "" (Loader.res_url (Sample.page "http://example.com/1"))))
                = Ok ("article", Sample.example_metadata)) by (vm_compute; reflexivity).
  assert (He1 : Sample.flaky_extract
                  (PyStr.strip (default "" (Loader.res_url (Sample.page "http://example.com/1"))))
                  Sample.example_metadata
                = Ok (Sample.page_content "http://example.com/1")) by (vm_compute; reflexivity).
  assert (Hs1 : Storage.save_content (Sample.page_content "http://example.com/1") "article"
                  (PyStr.strip (default "" (Loader.res_url (Sample.page "http://example.com/1"))))
                  (storage Sample.fresh_extractor)
                = Some (Ok (Some "knowledge/articles/page-httpexamplecom1.md"),
                        Sample.after_page_1)) by (vm_compute; reflexivity).
  assert (Hc2 : Detector.classify Sample.no_bracket_check
                  (PyStr.strip (default "" (Loader.res_url (Sample.page "http://example.com/2"))))
                = Ok ("article", Sample.example_metadata)) by (vm_compute; reflexivity).
  assert (He2 : Sample.flaky_extract
                  (PyStr.strip (default "" (Loader.res_url (Sample.page "http://example.com/2"))))
                  Sample.example_metadata
                = Raise (Exn ExtractionError "Extracted data validation failed"))
    by (vm_compute; reflexivity).
  assert (Hc3 : Detector.classify Sample.no_bracket_check
                  (PyStr.strip (default "" (Loader.res_url (Sample.page "http://example.com/3"))))
                = Ok ("article", Sample.example_metadata)) by (vm_compute; reflexivity).
  assert (He3 : Sample.flaky_extract
                  (PyStr.strip (default "" (Loader.res_url (Sample.page "http://example.com/3"))))
                  Sample.example_metadata
                = Ok (Sample.page_content "http://example.com/3")) by (vm_compute; reflexivity).
  assert (Hs3 : Storage.save_content (Sample.page_content "http://example.com/3") "article"
                  (PyStr.strip (default "" (Loader.res_url (Sample.page "http://example.com/3"))))
                  Sample.after_page_1
                = Some (Ok (Some "knowledge/articles/page-httpexamplecom3.md"),
                        Sample.after_page_3)) by (vm_compute; reflexivity).
  destruct (extraction_failure_is_counted_and_run_continues
              Sample.no_bracket_check Sample.flaky_extract
              (Sample.page "http://example.com/1") (Sample.page "http://example.com/2")
              (Sample.page "http://example.com/3") Sample.fresh_extractor
              "article" "article" "article"
              Sample.example_metadata Sample.example_metadata Sample.example_metadata
              (Sample.page_content "http://example.com/1")
              (Sample.page_content "http://example.com/3")
              (Exn ExtractionError "Extracted data validation failed")
              "knowledge/articles/page-httpexamplecom1.md"
              "knowledge/articles/page-httpexamplecom3.md"
              Sample.after_page_1 Sample.after_page_3
              Hc1 He1 Hs1 Hc2 He2 Hc3 He3 Hs3)
    as (final & Hrun & Hst & Hok & Hfail & _ & _ & Hnofail).
  split_and!; try (vm_compute; reflexivity).
  exists final. split_and!; [exact Hrun|exact Hst|exact Hok|exact Hfail|exact Hnofail].
Defined.

(** C1 as stated fails: after the run over three pages in which the
    extractor raises for the second, the processing log holds the two
    ['completed'] entries of the first and the third page and no ['failed']
    entry, although the run statistics count one failure. *)
Lemma failed_extraction_leaves_no_log_entry :
  Sample.flaky_extract "http://example.com/2" Sample.example_metadata
  = Raise (Exn ExtractionError "Extracted data validation failed")
  ∧ process_each Sample.no_bracket_check Sample.flaky_extract Sample.three_pages
                 Sample.fresh_extractor = Some Sample.after_three_pages
  ∧ successful (stats Sample.after_three_pages) = 2%nat
  ∧ failed (stats Sample.after_three_pages) = 1%nat
  ∧ Storage.entry_url <$>
      Storage.resources (Storage.processing_log (Storage.self (storage Sample.after_three_pages)))
    = ["http://example.com/1"; "http://example.com/3"]
  ∧ Storage.count_status "completed"
      (Storage.resources (Storage.processing_log (Storage.self (storage Sample.after_three_pages))))
    = 2%nat
  ∧ Storage.count_status "failed"
      (Storage.resources (Storage.processing_log (Storage.self (storage Sample.after_three_pages))))
    = 0%nat
  ∧ Storage.failed (Storage.processing_log (Storage.self (storage Sample.after_three_pages)))
    = 0%nat.
Proof. split_and!; vm_compute; reflexivity. Qed.

End OrchestratorProps.

(** ** Characters of strings *)

Module PyStrFacts.
Import PyStr.

Lemma prefix_nil (s : string) : String.prefix "" s = true.
Proof. by destruct s. Qed.

Lemma contains_char (c : ascii) (s : string) :
  contains (String c "") s = mem_char c s.
Proof.
  induction s as [|d s IH]; [done|]. simpl. rewrite IH, prefix_nil.
  destruct (Ascii.ascii_dec c d) as [->|Hne].
  - by rewrite bool_decide_eq_true_2.
  - by rewrite bool_decide_eq_false_2.
Qed.

Lemma chars_within_refl (s : string) : chars_within s s.
Proof. by intros c. Qed.

Lemma chars_within_trans (s t u : string) :
  chars_within s t → chars_within t u → chars_within s u.
Proof. intros Hst Htu c Hc. by apply Htu, Hst. Qed.

Lemma chars_within_tail (s t : string) (d : ascii) :
  chars_within s t → chars_within s (String d t).
Proof. intros H c Hc. simpl. rewrite (H c Hc). by rewrite orb_true_r. Qed.

Lemma chars_within_cons (s t : string) (d : ascii) :
  chars_within s t → chars_within (String d s) (String d t).
Proof.
  intros H c. simpl. rewrite !orb_true_iff. intros [?|Hc]; [by left|]. right. by apply H.
Qed.

Lemma lstrip_by_within (p : ascii → bool) (s : string) : chars_within (lstrip_by p s) s.
Proof.
  induction s as [|d s IH]; [done|]. simpl. destruct (p d).
  - by apply chars_within_tail.
  - apply chars_within_refl.
Qed.

Lemma rstrip_by_within (p : ascii → bool) (s : string) : chars_within (rstrip_by p s) s.
Proof.
  induction s as [|d s IH]; [done|]. simpl. destruct (rstrip_by p s) eqn:Hr.
  - destruct (p d); [done|]. intros c. simpl. rewrite !orb_false_r. by intros ->.
  - by apply chars_within_cons.
Qed.

Lemma strip_within (s : string) : chars_within (strip s) s.
Proof.
  unfold strip, strip_by.
  eapply chars_within_trans; [apply rstrip_by_within|apply lstrip_by_within].
Qed.


Lemma take_while_within (p : ascii → bool) (s : string) : chars_within (take_while p s) s.
Proof.
  induction s as [|d s IH]; [done|]. simpl. destruct (p d); [|done].
  by apply chars_within_cons.
Qed.

Lemma drop_while_within (p : ascii → bool) (s : string) : chars_within (drop_while p s) s.
Proof.
  induction s as [|d s IH]; [done|]. simpl. destruct (p d).
  - by apply chars_within_tail.
  - apply chars_within_refl.
Qed.



(** What [partition_char] splits at is the first occurrence. *)
Lemma partition_char_spec (c : ascii) (s a b : string) :
  partition_char c s = Some (a, b) → s = a +:+ String c b ∧ mem_char c a = false.
Proof.
  revert a b. induction s as [|d s IH]; intros a b; [done|]. simpl.
  case_bool_decide as Hd.
  - intros [= <- <-]. by subst.
  - destruct (partition_char c s) as [[a' b']|]; [|done]. intros [= <- <-].
    destruct (IH a' b' eq_refl) as [-> Ha]. split; [done|]. simpl.
    rewrite Ha, orb_false_r. apply bool_decide_eq_false. congruence.
Qed.

Lemma count_char_lower (c : ascii) (s : string) :
  tolower c = c → (∀ d, tolower d = c → d = c) →
  count_char c (lower s) = count_char c s.
Proof.
  intros Hc Hinj. induction s as [|d s IH]; [done|]. simpl. rewrite IH. f_equal.
  destruct (decide (d = c)) as [->|Hne].
  - by rewrite Hc, !bool_decide_eq_true_2.
  - rewrite (bool_decide_eq_false_2 (d = c)) by done.
    rewrite bool_decide_eq_false_2; [done|]. intros Heq. by apply Hne, Hinj.
Qed.

Lemma count_slash_lower (s : string) :
  count_char "/" (lower s) = count_char "/" s.
Proof.
  apply count_char_lower; [done|]. intros d.
  destruct d as [[] [] [] [] [] [] [] []]; vm_compute; congruence.
Qed.

(** [split_char] makes one part more than there are separators. *)
Lemma split_char_length (c : ascii) (s : string) :
  length (split_char c s) = S (count_char c s).
Proof.
  induction s as [|d s IH]; [done|]. simpl. case_bool_decide; simpl.
  - by rewrite IH.
  - destruct (split_char c s); simpl in *; lia.
Qed.

End PyStrFacts.

(** ** URL parsing *)

Module UrlProps.
Import PyStr PyStrFacts Url.


Section Urlparse.

Variable check : string → option string.





Lemma drop_while_head (p : ascii → bool) (s : string) :
  drop_while p s = "" ∨ ∃ c r, drop_while p s = String c r ∧ p c = false.
Proof.
  induction s as [|d s IH]; [by left|]. simpl. destruct (p d) eqn:Hd; [done|].
  right. by exists d, s.
Qed.

Lemma split_once_head (c : ascii) (s : string) :
  (split_once c s).1 = ""
  ∨ ∃ d r r', s = String d r ∧ d ≠ c ∧ (split_once c s).1 = String d r'.
Proof.
  unfold split_once. destruct s as [|d s]; [by left|]. simpl.
  case_bool_decide; [by left|]. right.
  destruct (partition_char c s) as [[a b]|]; simpl; by eexists _, _, _.
Qed.

Lemma rsplit_slash_rooted (s : string) :
  ∃ h, (rsplit_slash (String "/" s)).1 = String "/" h.
Proof.
  simpl. destruct (rsplit_slash s) as [h t]. case_decide; simpl; by eexists.
Qed.

Lemma splitparams_rooted (path : string) : rooted path → rooted (_splitparams path).1.
Proof.
  intros [->|[rest ->]]; [by left|]. right. unfold _splitparams.
  destruct (rsplit_slash_rooted rest) as [h Hh].
  destruct (rsplit_slash (String "/" rest)) as [h' t]. simpl in Hh. subst h'.
  destruct (partition_char ";" t) as [[a b]|]; simpl; by eexists.
Qed.

Lemma urlsplit_rooted (url : string) (parsed : ParseResult) :
  urlsplit check url = Ok parsed → netloc parsed ≠ "" → rooted (path parsed).
Proof.
  unfold urlsplit. destruct (split_scheme _) as [sch url3].
  destruct (startswith url3 "//"); cbv beta iota zeta.
  - set (rest := PyStr.drop 2 url3).
    assert (Hshape : ∀ q,
      result_bind (Ok (take_while netloc_char rest, drop_while netloc_char rest))
        (λ '(netloc, url),
           let '(url, fragment) := split_once "#" url in
           let '(url, query) := split_once "?" url in
           Ok (mkParse sch netloc url "" query fragment)) = Ok q → rooted (path q)).
    { intros q. cbv beta iota zeta delta [result_bind].
      pose proof (split_once_head "#" (drop_while netloc_char rest)) as H1.
      destruct (split_once "#" (drop_while netloc_char rest)) as [u1 frag]. simpl in H1.
      pose proof (split_once_head "?" u1) as H2.
      destruct (split_once "?" u1) as [u2 qy]. simpl in H2.
      intros [= <-]. simpl.
      destruct H2 as [->|(d & r & r' & -> & Hq & ->)]; [by left|].
      destruct H1 as [?|(d' & r0 & r1 & Hdw & Hh & [= <- <-])]; [done|].
      destruct (drop_while_head netloc_char rest) as [Hnil|(c & r2 & Hc & Hpc)];
        rewrite Hdw in *; [done|]. injection Hc as <- <-.
      right. exists r'. f_equal.
      unfold netloc_char in Hpc. apply negb_false_iff in Hpc. simpl in Hpc.
      rewrite !orb_true_iff, !bool_decide_eq_true in Hpc.
      by destruct Hpc as [?|[?|[?|?]]]. }
    rewrite !contains_char.
    destruct (mem_char "[" _), (mem_char "]" _); cbv beta iota zeta delta [xorb];
      try done; [|by intros ? _; apply Hshape].
    destruct (check _); [done|]. by intros ? _; apply Hshape.
  - cbv beta iota zeta delta [result_bind].
    destruct (split_once "#" _), (split_once "?" _). by intros [= <-].
Qed.

Lemma urlparse_rooted (url : string) (parsed : ParseResult) :
  urlparse check url = Ok parsed → netloc parsed ≠ "" → rooted (path parsed).
Proof.
  unfold urlparse. destruct (urlsplit check url) as [r|e] eqn:Hsplit; [|done]. simpl.
  pose proof (urlsplit_rooted url r Hsplit) as Hr.
  destruct (_ && _).
  - pose proof (splitparams_rooted (path r)) as Hp.
    destruct (_splitparams (path r)) as [u ps]. intros [= <-]. simpl in *. auto.
  - intros [= <-]. done.
Qed.

End Urlparse.

End UrlProps.

(** ** Classification *)

Module DetectorProps.
Import PyStr PyStrFacts Detector.

Section Classify.

Variable check : string → option string.

Lemma detect_type_classify (counters : gmap string nat) (url : string) :
  (detect_type check counters url).1 = classify check url.
Proof.
  unfold detect_type. by destruct (classify check url) as [[ty md]|e].
Qed.

Lemma parse_github_url_parsed (url : string) (parsed : Url.ParseResult) :
  urlparse check url = Ok parsed →
  parse_github_url check url = Ok (github_metadata (path_parts (Url.path parsed))).
Proof.
  intros Hp. unfold parse_github_url. rewrite Hp. simpl.
  by destruct (path_parts (Url.path parsed)) as [|owner [|repo rest]].
Qed.

Lemma parse_youtube_url_parsed (url : string) (parsed : Url.ParseResult) :
  urlparse check url = Ok parsed →
  ∃ md, parse_youtube_url check url = Ok md ∧ md !! "domain" = Some "youtube.com".
Proof.
  intros Hp. unfold parse_youtube_url. rewrite Hp. simpl.
  destruct (contains "youtube.com" _).
  - destruct (search_video_id url); eexists; (split; [done|]); by simplify_map_eq.
  - destruct (contains "youtu.be" _); [|eexists; split; [done|]; by simplify_map_eq].
    destruct (path_parts _); eexists; (split; [done|]); by simplify_map_eq.
Qed.

(** The decision order of [detect_type], read off a parsed URL. *)
Lemma classify_parsed (url : string) (parsed : Url.ParseResult) :
  urlparse check (strip url) = Ok parsed →
  let domain := lower (Url.netloc parsed) in
  let path := lower (Url.path parsed) in
  if is_github domain path then
    classify check url = Ok (TYPE_GITHUB, github_metadata (path_parts (Url.path parsed)))
  else if is_youtube domain path then
    ∃ md, classify check url = Ok (TYPE_YOUTUBE, md) ∧ md !! "domain" = Some "youtube.com"
  else if is_blog domain path then
    classify check url = Ok (TYPE_BLOG, {[ "domain" := domain ]})
  else
    classify check url = Ok (TYPE_ARTICLE, {[ "domain" := domain ]}).
Proof.
  intros Hp domain path. unfold classify. rewrite Hp. simpl. fold domain path.
  destruct (is_github domain path).
  - by rewrite (parse_github_url_parsed _ _ Hp).
  - destruct (is_youtube domain path).
    + destruct (parse_youtube_url_parsed _ _ Hp) as (md & -> & Hmd). by exists md.
    + by destruct (is_blog domain path).
Qed.

Lemma github_metadata_domain (parts : list string) :
  github_metadata parts !! "domain" = Some "github.com".
Proof. destruct parts as [|owner [|repo rest]]; by simplify_map_eq. Qed.



(** C10. Whatever URL [detect_type] assigns to github-repo, the ['domain'] of
    the metadata is the literal [github.com]; whatever URL it assigns to
    youtube-video (short links included), it is the literal [youtube.com];
    for blog-post and article it is the lower-cased host that was parsed
    from the URL. *)
Theorem reported_domain_is_fixed_for_github_and_youtube
    (counters : gmap string nat) (url resource_type : string)
    (metadata : gmap string string) :
  (detect_type check counters url).1 = Ok (resource_type, metadata) →
  (resource_type = TYPE_GITHUB → metadata !! "domain" = Some "github.com")
  ∧ (resource_type = TYPE_YOUTUBE → metadata !! "domain" = Some "youtube.com")
  ∧ (resource_type = TYPE_BLOG ∨ resource_type = TYPE_ARTICLE →
     ∃ parsed, urlparse check (strip url) = Ok parsed
               ∧ metadata !! "domain" = Some (lower (Url.netloc parsed))).
Proof.
  rewrite detect_type_classify. intros Hc.
  destruct (urlparse check (strip url)) as [parsed|e] eqn:Hp.
  2: { unfold classify in Hc. by rewrite Hp in Hc. }
  pose proof (classify_parsed url parsed Hp) as Hcase. cbv zeta in Hcase.
  destruct (is_github _ _).
  { rewrite Hcase in Hc. injection Hc as <- <-.
    split_and!; [intros _; apply github_metadata_domain|done|by intros [|]]. }
  destruct (is_youtube _ _).
  { destruct Hcase as (md & Hcase & Hmd). rewrite Hcase in Hc. injection Hc as <- <-.
    split_and!; [done|done|by intros [|]]. }
  destruct (is_blog _ _); rewrite Hcase in Hc; injection Hc as <- <-.
  - split_and!; [done|done|]. intros _. exists parsed. split; [done|]. by simplify_map_eq.
  - split_and!; [done|done|]. intros _. exists parsed. split; [done|]. by simplify_map_eq.
Qed.

(** The two-segment rule of [is_github], for a path that follows a host. *)
Lemma two_parts_two_slashes (path : string) :
  Url.rooted path → 2 ≤ length (path_parts path) → 2 ≤ count_char "/" path.
Proof.
  intros [->|[rest ->]]; [simpl; lia|].
  unfold path_parts. simpl. rewrite filter_cons_False by (by intros ?).
  intros Hlen. pose proof (length_filter (λ p : string, p ≠ "") (split_char "/" rest)) as Hle.
  rewrite split_char_length in Hle. lia.
Qed.

Lemma contains_nonempty (sub s : string) : sub ≠ "" → contains sub s = true → s ≠ "".
Proof. intros Hsub Hc ->. destruct sub; [done|]. simpl in Hc. done. Qed.

(** C5, as the code has it. A URL that parses is classified github-repo
    exactly when its lower-cased host contains [github.com] and its
    lower-cased path contains at least two slashes; that is so whenever the
    host contains [github.com] and the path has at least two non-empty
    segments. The metadata of a github-repo holds the first two non-empty
    path segments as owner and repo, with [full_name = owner/repo], when
    the path has that many, and the domain alone when it has not. *)
Theorem github_repo_classification
    (counters : gmap string nat) (url : string) (parsed : Url.ParseResult) :
  urlparse check (strip url) = Ok parsed →
  let domain := lower (Url.netloc parsed) in
  let path := lower (Url.path parsed) in
  ((∃ metadata, (detect_type check counters url).1 = Ok (TYPE_GITHUB, metadata))
   ↔ contains "github.com" domain = true ∧ 2 ≤ count_char "/" path)
  ∧ (contains "github.com" domain = true →
     2 ≤ length (path_parts (Url.path parsed)) →
     ∃ owner repo rest,
       path_parts (Url.path parsed) = owner :: repo :: rest
       ∧ (detect_type check counters url).1
         = Ok (TYPE_GITHUB,
               <[ "full_name" := owner +:+ "/" +:+ repo ]>
                 (<[ "repo" := repo ]> (<[ "owner" := owner ]> {[ "domain" := "github.com" ]}))))
  ∧ (∀ metadata,
       (detect_type check counters url).1 = Ok (TYPE_GITHUB, metadata) →
       metadata = github_metadata (path_parts (Url.path parsed))).
Proof.
  intros Hp domain path. rewrite detect_type_classify.
  pose proof (classify_parsed url parsed Hp) as Hcase. cbv zeta in Hcase.
  fold domain path in Hcase.
  assert (Hgithub : is_github domain path = true
                    ↔ contains "github.com" domain = true ∧ 2 ≤ count_char "/" path).
  { unfold is_github. rewrite andb_true_iff, Nat.leb_le. done. }
  assert (Hiff : (∃ metadata, classify check url = Ok (TYPE_GITHUB, metadata))
                 ↔ is_github domain path = true).
  { destruct (is_github domain path).
    - split; [done|]. intros _. by eexists.
    - split; [|done]. intros [md Hmd]. destruct (is_youtube domain path).
      + destruct Hcase as (md' & Hcase & _). by rewrite Hcase in Hmd.
      + destruct (is_blog domain path); by rewrite Hcase in Hmd. }
  split_and!.
  - by rewrite Hiff.
  - intros Hdomain Hparts.
    assert (Hg : is_github domain path = true).
    { apply Hgithub. split; [done|]. unfold path. rewrite count_slash_lower.
      apply two_parts_two_slashes; [|done].
      apply (UrlProps.urlparse_rooted check (strip url)); [done|].
      intros Hnil. unfold domain in Hdomain. by rewrite Hnil in Hdomain. }
    rewrite Hg in Hcase.
    destruct (path_parts (Url.path parsed)) as [|owner [|repo rest]] eqn:Hpp;
      simpl in Hparts; [lia|lia|].
    by exists owner, repo, rest.
  - intros md Hmd. destruct (is_github domain path) eqn:Hg.
    + rewrite Hcase in Hmd. by injection Hmd as <-.
    + assert (Hex : ∃ metadata, classify check url = Ok (TYPE_GITHUB, metadata)) by (by eexists).
      apply Hiff in Hex. done.
Qed.

End Classify.

Lemma reported_domain_witness :
  (detect_type Sample.no_bracket_check init_stats "https://youtu.be/abc123").1
  = Ok (TYPE_YOUTUBE, {[ "domain" := "youtube.com"; "video_id" := "abc123" ]})
  ∧ ({[ "domain" := "youtube.com"; "video_id" := "abc123" ]} : gmap string string)
      !! "domain" = Some "youtube.com".
Proof.
  assert (H : (detect_type Sample.no_bracket_check init_stats "https://youtu.be/abc123").1
              = Ok (TYPE_YOUTUBE, {[ "domain" := "youtube.com"; "video_id" := "abc123" ]}))
    by (vm_compute; reflexivity).
  split; [exact H|].
  exact (proj1 (proj2 (reported_domain_is_fixed_for_github_and_youtube
                         Sample.no_bracket_check init_stats "https://youtu.be/abc123" TYPE_YOUTUBE _ H))
               eq_refl).
Defined.



Lemma github_repo_witness :
  urlparse Sample.no_bracket_check (strip "https://github.com/acme/widgets/issues/3")
  = Ok (Url.mkParse "https" "github.com" "/acme/widgets/issues/3" "" "" "")
  ∧ (detect_type Sample.no_bracket_check init_stats
                 "https://github.com/acme/widgets/issues/3").1
    = Ok (TYPE_GITHUB,
          <[ "full_name" := "acme/widgets" ]>
            (<[ "repo" := "widgets" ]> (<[ "owner" := "acme" ]> {[ "domain" := "github.com" ]}))).
Proof.
  assert (Hp : urlparse Sample.no_bracket_check
                 (strip "https://github.com/acme/widgets/issues/3")
               = Ok (Url.mkParse "https" "github.com" "/acme/widgets/issues/3" "" "" ""))
    by (vm_compute; reflexivity).
  split; [exact Hp|].
  destruct (proj1 (proj2 (github_repo_classification Sample.no_bracket_check init_stats
                            "https://github.com/acme/widgets/issues/3" _ Hp)))
    as (owner & repo & rest & Hparts & Hclass);
    [vm_compute; reflexivity|vm_compute; lia|].
  vm_compute in Hparts. injection Hparts as <- <- <-. exact Hclass.
Defined.

(** C5 as stated fails: a path with a single non-empty segment and a
    trailing slash is classified github-repo, and its metadata holds the
    domain alone. *)
Lemma github_repo_with_one_segment :
  (detect_type Sample.no_bracket_check init_stats "https://github.com/acme/").1
  = Ok (TYPE_GITHUB, {[ "domain" := "github.com" ]})
  ∧ urlparse Sample.no_bracket_check (strip "https://github.com/acme/")
    = Ok (Url.mkParse "https" "github.com" "/acme/" "" "" "")
  ∧ path_parts "/acme/" = ["acme"].
Proof. split_and!; vm_compute; reflexivity. Qed.

End DetectorProps.

(** ** JSON scanning and parsing *)

Module JsonProps.
Import PyStr PyStrFacts Json.

(** *** The scanner, piece by piece *)

Lemma lex_from_app (st : lexstate) (a b : string) :
  lex_from st (a +:+ b) =
  match lex_run st a with
  | Some (toks, st') => app toks <$> lex_from st' b
  | None => None
  end.
Proof.
  revert st. induction a as [|c a IH]; intros st.
  - simpl. change ("" +:+ b) with b. destruct (lex_from st b); simpl; [|done].
    by rewrite ?app_nil_l.
  - change (String c a +:+ b) with (String c (a +:+ b)). simpl.
    destruct (lex_step st c) as [[toks st']|]; [|done].
    rewrite IH. destruct (lex_run st' a) as [[toks' st'']|]; [|done].
    destruct (lex_from st'' b); simpl; [|done]. by rewrite app_assoc.
Qed.

Lemma lex_from_run (st : lexstate) (s : string) :
  lex_from st s =
  match lex_run st s with
  | Some (toks, st') => app toks <$> lex_finish st'
  | None => None
  end.
Proof.
  rewrite <- (StrFacts.app_nil_r s) at 1. by rewrite lex_from_app.
Qed.


(** *** Characters between tokens *)

Ltac each_char c := destruct c as [[] [] [] [] [] [] [] []].

Ltac case_if :=
  match goal with
  | |- context [if ?b then _ else _] => destruct b eqn:?
  end.

Lemma is_ws_cases (c : ascii) :
  is_ws c = true → c = " "%char ∨ c = "009"%char ∨ c = "010"%char ∨ c = "013"%char.
Proof. each_char c; vm_compute; intros H; try discriminate H; tauto. Qed.

Lemma is_ws_isspace (c : ascii) : is_ws c = true → isspace c = true.
Proof. intros [->|[->|[->| ->]]]%is_ws_cases; reflexivity. Qed.

Lemma idle_step_ws (c : ascii) : is_ws c = true → idle_step c = Some ([], LIdle).
Proof. intros H. unfold idle_step. by rewrite H. Qed.

(** White space of Python that the scanner accepts between tokens is white
    space of JSON. *)
Lemma idle_step_isspace (c : ascii) (r : list token * lexstate) :
  isspace c = true → idle_step c = Some r → is_ws c = true ∧ r = ([], LIdle).
Proof. each_char c; vm_compute; intros H1 H2; try discriminate; by injection H2 as <-. Qed.

Lemma idle_step_silent (c : ascii) : idle_step c = Some ([], LIdle) → is_ws c = true.
Proof. each_char c; vm_compute; intros H; try discriminate H; done. Qed.

Lemma idle_step_rbrack (c : ascii) (toks : list token) (st : lexstate) :
  idle_step c = Some (toks, st) → TRBrack ∈ toks → c = "]"%char.
Proof.
  each_char c; vm_compute; intros H; try discriminate H;
    injection H as <- <-; intros Hin; try done;
    repeat (apply elem_of_cons in Hin as [Hin|Hin]; [discriminate Hin|]);
    by apply elem_of_nil in Hin.
Qed.

Lemma idle_step_lbrack (c : ascii) (toks : list token) (st : lexstate) :
  idle_step c = Some (TLBrack :: toks, st) → c = "["%char ∧ toks = [] ∧ st = LIdle.
Proof. each_char c; vm_compute; intros H; try discriminate H; by injection H as <- <-. Qed.

Lemma idle_step_wf (c : ascii) (toks : list token) (st : lexstate) :
  idle_step c = Some (toks, st) → lex_wf st.
Proof.
  unfold idle_step. repeat case_if; intros [= <- <-]; try done; by vm_compute.
Qed.

(** A step that emits nothing and leaves the scanner between tokens was
    made between tokens, on white space. *)
Lemma lex_step_silent (st : lexstate) (c : ascii) :
  lex_step st c = Some ([], LIdle) → st = LIdle ∧ is_ws c = true.
Proof.
  destruct st as [|acc|acc|acc n|acc ph|tok rest]; simpl.
  - intros H. split; [done|]. by apply idle_step_silent.
  - by repeat case_if.
  - by repeat case_if.
  - case_if; [|done]. by destruct n as [|[|n]].
  - unfold num_step, end_number.
    destruct ph; repeat (case_if; try done); by destruct (idle_step c) as [[? ?]|].
  - destruct rest as [|e [|e' rest]]; [done| |]; by case_if.
Qed.


Lemma isspace_cases (c : ascii) :
  isspace c = true →
  c = "009"%char ∨ c = "010"%char ∨ c = "011"%char ∨ c = "012"%char ∨ c = "013"%char
  ∨ c = "028"%char ∨ c = "029"%char ∨ c = "030"%char ∨ c = "031"%char ∨ c = " "%char
  ∨ c = "133"%char ∨ c = "160"%char.
Proof. each_char c; vm_compute; intros H; try discriminate H; tauto. Qed.

Ltac each_space c H :=
  apply isspace_cases in H;
  destruct H as [->|[->|[->|[->|[->|[->|[->|[->|[->|[->|[->| ->]]]]]]]]]]].

(** White space of Python ends a number that may end, and nothing else
    about a number. *)
Lemma num_step_isspace (acc : string) (ph : numphase) (c : ascii)
    (r : list token * lexstate) :
  isspace c = true → num_step acc ph c = Some r →
  accepting ph = true ∧ is_ws c = true ∧ r = ([TNum acc], LIdle).
Proof.
  intros Hc. each_space c Hc; destruct ph; vm_compute; intros H; try discriminate H;
    by injection H as <-.
Qed.

Lemma lex_step_wf (st : lexstate) (c : ascii) (toks : list token) (st' : lexstate) :
  lex_wf st → lex_step st c = Some (toks, st') → lex_wf st'.
Proof.
  destruct st as [|acc|acc|acc n|acc ph|tok rest]; simpl.
  - intros _. apply idle_step_wf.
  - intros _. repeat case_if; by intros [= <- <-].
  - intros _. repeat case_if; by intros [= <- <-].
  - intros _. case_if; [|done]. destruct n as [|[|n]]; by intros [= <- <-].
  - intros _. unfold num_step, end_number.
    destruct ph; repeat case_if; try (by intros [= <- <-]).
    all: destruct (idle_step c) as [[toks0 st0]|] eqn:Hidle; [|done];
      intros [= <- <-]; by apply idle_step_wf in Hidle.
  - intros [Htok Hrest]. destruct rest as [|e [|e' rest]]; [done| |];
      case_if; try done; intros [= <- <-]; [done|].
    split; [done|]. simpl in Hrest. by apply andb_true_iff in Hrest as [_ Hrest].
Qed.

(** A closing bracket token comes from a closing bracket character read
    outside a string. *)
Lemma lex_step_rbrack (st : lexstate) (c : ascii) (toks : list token) (st' : lexstate) :
  lex_wf st → lex_step st c = Some (toks, st') → TRBrack ∈ toks →
  c = "]"%char ∧ in_string st = false.
Proof.
  destruct st as [|acc|acc|acc n|acc ph|tok rest]; simpl.
  - intros _ H Hin. split; [|done]. by eapply idle_step_rbrack.
  - intros _. repeat case_if; intros [= <- <-]; set_solver.
  - intros _. repeat case_if; intros [= <- <-]; set_solver.
  - intros _. case_if; [|done]. destruct n as [|[|n]]; intros [= <- <-]; set_solver.
  - intros _. unfold num_step, end_number.
    destruct ph; repeat case_if; try (intros [= <- <-]; set_solver).
    all: destruct (idle_step c) as [[toks0 st0]|] eqn:Hidle; [|done];
      intros [= <- <-] [Hin|Hin]%elem_of_cons; [done|];
      split; [|done]; by eapply idle_step_rbrack.
  - intros [Htok _]. destruct rest as [|e [|e' rest]]; [done| |];
      case_if; try done; intros [= <- <-]; [|set_solver].
    intros <-%list_elem_of_singleton. done.
Qed.

Lemma lex_run_wf (s : string) (st : lexstate) (toks : list token) (st' : lexstate) :
  lex_wf st → lex_run st s = Some (toks, st') → lex_wf st'.
Proof.
  revert st toks. induction s as [|c s IH]; intros st toks Hwf; simpl.
  - by intros [= <- <-].
  - destruct (lex_step st c) as [[t1 st1]|] eqn:Hstep; [|done].
    destruct (lex_run st1 s) as [[t2 st2]|] eqn:Hrun; [|done]. intros [= <- <-].
    eapply IH; [|done]. by eapply lex_step_wf.
Qed.

Lemma lex_run_no_rbrack (s : string) (st : lexstate) (toks : list token) (st' : lexstate) :
  lex_wf st → mem_char "]" s = false → lex_run st s = Some (toks, st') → TRBrack ∉ toks.
Proof.
  revert st toks. induction s as [|c s IH]; intros st toks Hwf; simpl.
  - intros _ [= <- <-]. set_solver.
  - intros [Hc Hs]%orb_false_elim.
    destruct (lex_step st c) as [[t1 st1]|] eqn:Hstep; [|done].
    destruct (lex_run st1 s) as [[t2 st2]|] eqn:Hrun; [|done]. intros [= <- <-].
    rewrite elem_of_app. intros [Hin|Hin].
    + destruct (lex_step_rbrack _ _ _ _ Hwf Hstep Hin) as [-> _]. done.
    + eapply IH; [|done|done|done]. by eapply lex_step_wf.
Qed.

Lemma lex_finish_no_rbrack (st : lexstate) (toks : list token) :
  lex_finish st = Some toks → TRBrack ∉ toks.
Proof.
  destruct st as [|acc|acc|acc n|acc ph|tok rest]; simpl; try done.
  - intros [= <-]. set_solver.
  - case_if; [|done]. intros [= <-]. set_solver.
Qed.


(** *** White space around tokens *)

Lemma lex_from_nil (s : string) (st : lexstate) :
  lex_from st s = Some [] → st = LIdle ∧ all_ws s.
Proof.
  revert st. induction s as [|c s IH]; intros st; simpl.
  - destruct st as [|acc|acc|acc n|acc ph|tok rest]; simpl; try done.
    by case_if.
  - destruct (lex_step st c) as [[t1 st1]|] eqn:Hstep; [|done].
    destruct (lex_from st1 s) as [r1|] eqn:Hrest; [|done]. simpl.
    intros [= Happ]. apply app_eq_nil in Happ as [-> ->].
    destruct (IH _ Hrest) as [-> Hws].
    destruct (lex_step_silent _ _ Hstep) as [-> Hc]. split; [done|].
    unfold all_ws in *. simpl. by rewrite Hc.
Qed.

Lemma word_step_not_letter (tok : token) (rest : string) (c : ascii) :
  lex_wf (LWord tok rest) → between 65 90 c || between 97 122 c = false →
  lex_step (LWord tok rest) c = None.
Proof.
  intros [_ Hrest] Hc. simpl.
  destruct rest as [|e [|e' rest]]; [done| |]; case_bool_decide as Heq; try done;
    subst e; simpl in Hrest; by rewrite Hc in Hrest.
Qed.

Lemma num_step_ws (acc : string) (ph : numphase) (c : ascii) :
  is_ws c = true →
  num_step acc ph c = if accepting ph then Some ([TNum acc], LIdle) else None.
Proof. intros [->|[->|[->| ->]]]%is_ws_cases; by destruct ph. Qed.

Lemma string_step_ws (st : lexstate) (c : ascii) (r : list token * lexstate) :
  in_string st = true → isspace c = true → lex_step st c = Some r → in_string r.2 = true.
Proof.
  intros Hst Hc. destruct st as [|acc|acc|acc n|acc ph|tok rest]; try done;
    each_space c Hc; vm_compute; intros H; try discriminate H; by injection H as <-.
Qed.

(** White space at the end of the text changes nothing. *)
Lemma lex_from_all_ws (tail : string) (st : lexstate) :
  lex_wf st → all_ws tail → lex_from st tail = lex_finish st.
Proof.
  revert st. induction tail as [|c tail IH]; intros st Hwf Hws; [done|].
  unfold all_ws in Hws. simpl in Hws. apply andb_true_iff in Hws as [Hc Htail].
  simpl. destruct st as [|acc|acc|acc n|acc ph|tok rest].
  - simpl. rewrite (idle_step_ws _ Hc). by rewrite (IH LIdle).
  - destruct (lex_step (LStr acc) c) as [[t1 st1]|] eqn:Hstep; [|done].
    pose proof (string_step_ws (LStr acc) c _ eq_refl (is_ws_isspace _ Hc) Hstep) as Hin.
    simpl in Hin. rewrite (IH st1); [|by eapply lex_step_wf|done].
    by destruct st1.
  - destruct (lex_step (LStrEsc acc) c) as [[t1 st1]|] eqn:Hstep; [|done].
    pose proof (string_step_ws (LStrEsc acc) c _ eq_refl (is_ws_isspace _ Hc) Hstep) as Hin.
    simpl in Hin. rewrite (IH st1); [|by eapply lex_step_wf|done].
    by destruct st1.
  - destruct (lex_step (LStrU acc n) c) as [[t1 st1]|] eqn:Hstep; [|done].
    pose proof (string_step_ws (LStrU acc n) c _ eq_refl (is_ws_isspace _ Hc) Hstep) as Hin.
    simpl in Hin. rewrite (IH st1); [|by eapply lex_step_wf|done].
    by destruct st1.
  - simpl. rewrite (num_step_ws _ _ _ Hc). destruct (accepting ph); [|done].
    by rewrite (IH LIdle).
  - rewrite word_step_not_letter; [done|done|].
    by apply is_ws_cases in Hc as [->|[->|[->| ->]]].
Qed.

Lemma lex_from_ws_tail (s tail : string) :
  all_ws tail → lex (s +:+ tail) = lex s.
Proof.
  intros Hws. unfold lex. rewrite lex_from_app, (lex_from_run LIdle s).
  destruct (lex_run LIdle s) as [[toks st]|] eqn:Hrun; [|done].
  rewrite lex_from_all_ws; [done| |done]. exact (lex_run_wf s LIdle toks st I Hrun).
Qed.

Lemma lex_from_ws_head (s head : string) :
  all_ws head → lex_from LIdle (head +:+ s) = lex_from LIdle s.
Proof.
  intros Hws. induction head as [|c head IH]; [done|].
  unfold all_ws in Hws. simpl in Hws. apply andb_true_iff in Hws as [Hc Hhead].
  change (String c head +:+ s) with (String c (head +:+ s)). simpl.
  rewrite (idle_step_ws _ Hc), IH by done. by destruct (lex_from LIdle s).
Qed.

(** Inside a string the scanner needs a closing quote. *)
Lemma lex_from_in_string (s : string) (st : lexstate) :
  in_string st = true → mem_char "034" s = false → lex_from st s = None.
Proof.
  revert st. induction s as [|c s IH]; intros st Hst; simpl.
  - by destruct st.
  - intros [Hc Hs]%orb_false_elim. apply bool_decide_eq_false in Hc.
    destruct (lex_step st c) as [[t1 st1]|] eqn:Hstep; [|done].
    rewrite (IH st1); [done| |done].
    destruct st as [|acc|acc|acc n|acc ph|tok rest]; try done; simpl in Hstep.
    + revert Hstep. repeat case_if; intros [= <- <-]; try done.
      by apply bool_decide_eq_true in Heqb.
    + revert Hstep. repeat case_if; by intros [= <- <-].
    + revert Hstep. case_if; [|done]. destruct n as [|[|n]]; by intros [= <- <-].
Qed.

Lemma isspace_no_quote (w : string) :
  forall_chars isspace w = true → mem_char "034" (w +:+ "]") = false.
Proof.
  induction w as [|c w IH]; [done|]. simpl. intros [Hc Hw]%andb_true_iff.
  change (String c w +:+ "]") with (String c (w +:+ "]")). simpl. rewrite IH by done.
  rewrite orb_false_r. apply bool_decide_eq_false. intros Heq. subst c. done.
Qed.

(** White space of Python in front of the closing bracket of a sequence
    is white space to the scanner too, and can be left out. *)
Lemma lex_ws_before_bracket (w : string) (st : lexstate) (r : list token) :
  lex_wf st → forall_chars isspace w = true →
  lex_from st (w +:+ "]") = Some r → last r = Some TRBrack →
  lex_from st "]" = Some r.
Proof.
  revert st r. induction w as [|c w IH]; intros st r Hwf Hw Hlex Hlast; [done|].
  simpl in Hw. apply andb_true_iff in Hw as [Hc Hw].
  destruct (in_string st) eqn:Hstr.
  { rewrite lex_from_in_string in Hlex; [done|done|].
    apply (isspace_no_quote (String c w)). simpl. by rewrite Hc. }
  change (String c w +:+ "]") with (String c (w +:+ "]")) in Hlex. simpl in Hlex.
  destruct (lex_step st c) as [[t1 st1]|] eqn:Hstep; [|done].
  destruct (lex_from st1 (w +:+ "]")) as [r1|] eqn:Hrest; [|done].
  injection Hlex as <-.
  destruct st as [|acc|acc|acc n|acc ph|tok rest]; try done.
  - simpl in Hstep. destruct (idle_step_isspace _ _ Hc Hstep) as [_ [= -> ->]].
    by apply IH.
  - simpl in Hstep. destruct (num_step_isspace _ _ _ _ Hc Hstep) as (Hph & _ & [= -> ->]).
    assert (Hne : r1 ≠ []).
    { intros ->. apply lex_from_nil in Hrest as [_ Hall]. clear -Hall.
      unfold all_ws in Hall. induction w as [|d w IHw]; [done|].
      change (String d w +:+ "]") with (String d (w +:+ "]")) in Hall. simpl in Hall.
      apply andb_true_iff in Hall as [_ Hall]. by apply IHw. }
    assert (Hlast1 : last r1 = Some TRBrack).
    { destruct r1 as [|tok r1]; [done|]. exact Hlast. }
    pose proof (IH LIdle r1 I Hw Hrest Hlast1) as Hb.
    cbn in Hb. injection Hb as <-. by destruct ph.
  - rewrite word_step_not_letter in Hstep; [done|done|]. by each_space c Hc.
Qed.


(** *** The first and the last token of an array *)

Lemma lex_step_first_token (st : lexstate) (c : ascii) (tok : token) (toks : list token)
    (st' : lexstate) :
  lex_wf st → st ≠ LIdle → lex_step st c = Some (tok :: toks, st') → tok ≠ TLBrack.
Proof.
  destruct st as [|acc|acc|acc n|acc ph|tok0 rest]; simpl; try done.
  - intros _ _. repeat case_if; by intros [= <- <- <-].
  - intros _ _. repeat case_if; by intros [= <- <- <-].
  - intros _ _. case_if; [|done]. by destruct n as [|[|n]].
  - intros _ _. unfold num_step, end_number.
    destruct ph; repeat case_if; try done;
      destruct (idle_step c) as [[? ?]|]; try done; by intros [= <- <- <-].
  - intros [Htok _] _. destruct rest as [|e [|e' rest]]; [done| |];
      case_if; try done. intros [= <- <- <-]. by intros ->.
Qed.

(** Once inside a token, the next token to come out is not an opening
    bracket. *)
Lemma lex_from_first_token (s : string) (st : lexstate) (tok : token) (toks : list token) :
  lex_wf st → st ≠ LIdle → lex_from st s = Some (tok :: toks) → tok ≠ TLBrack.
Proof.
  revert st. induction s as [|c s IH]; intros st Hwf Hst; simpl.
  - destruct st as [|acc|acc|acc n|acc ph|tok0 rest]; simpl; try done.
    case_if; [|done]. by intros [= <- <-].
  - destruct (lex_step st c) as [[t1 st1]|] eqn:Hstep; [|done].
    destruct (lex_from st1 s) as [r1|] eqn:Hrest; [|done]. simpl. intros [= Happ].
    destruct t1 as [|tok1 t1].
    + simpl in Happ. subst r1. eapply IH; [|  |done].
      * by eapply lex_step_wf.
      * intros ->. by destruct (lex_step_silent _ _ Hstep).
    + injection Happ as -> _. by eapply lex_step_first_token.
Qed.

(** A text whose first token is an opening bracket starts, after white
    space, with the bracket. *)
Lemma lex_first_lbrack (s : string) (toks : list token) :
  lex_from LIdle s = Some (TLBrack :: toks) →
  ∃ head inner, s = head +:+ String "[" inner ∧ all_ws head
                ∧ lex_from LIdle inner = Some toks.
Proof.
  induction s as [|c s IH]; [done|]. simpl.
  destruct (idle_step c) as [[t1 st1]|] eqn:Hstep; [|done].
  destruct (lex_from st1 s) as [r1|] eqn:Hrest; [|done]. simpl. intros [= Happ].
  destruct t1 as [|tok1 t1].
  - simpl in Happ. subst r1.
    assert (st1 = LIdle ∨ st1 ≠ LIdle) as [->|Hne] by (destruct st1; auto).
    + destruct (IH Hrest) as (head & inner & -> & Hhead & Hinner).
      exists (String c head), inner. split_and!; [done| |done].
      unfold all_ws in *. simpl. by rewrite (idle_step_silent _ Hstep).
    + exfalso. eapply lex_from_first_token; [|done|done|done].
      by eapply idle_step_wf.
  - injection Happ as -> <-.
    destruct (idle_step_lbrack _ _ _ Hstep) as (-> & -> & ->).
    exists "", s. by split_and!.
Qed.

Lemma parse_from_run (toks : list token) (st : pstate) :
  parse_from st toks =
  match parse_run st toks with
  | Some (_, PDone v) => Some v
  | _ => None
  end.
Proof.
  revert st. induction toks as [|tok toks IH]; intros st; simpl.
  - by destruct st as [stack []].
  - destruct (parse_step st tok); [apply IH|done].
Qed.

Lemma parse_run_snoc (toks : list token) (tok : token) (st : pstate) :
  parse_run st (toks ++ [tok]) =
  match parse_run st toks with
  | Some st' => parse_step st' tok
  | None => None
  end.
Proof.
  revert st. induction toks as [|t toks IH]; intros st; simpl.
  - by destruct (parse_step st tok).
  - destruct (parse_step st t); [apply IH|done].
Qed.

Lemma parse_step_done_array (st : pstate) (tok : token) (stack : list frame)
    (es : list json) :
  parse_step st tok = Some (stack, PDone (JArr es)) → tok = TRBrack.
Proof.
  destruct st as [stk m]. unfold parse_step, value_start, deliver.
  destruct m, tok; try done; destruct stk as [|[] stk]; by intros [= <-].
Qed.

(** The tokens of an array end with a closing bracket. *)
Lemma parse_array_last (toks : list token) (es : list json) :
  parse toks = Some (JArr es) → ∃ toks', toks = toks' ++ [TRBrack].
Proof.
  unfold parse. rewrite parse_from_run.
  destruct toks as [|tok toks _] using rev_ind; [done|].
  rewrite parse_run_snoc.
  destruct (parse_run ([], PValue) toks) as [st|]; [|done].
  destruct (parse_step st tok) as [[stack m]|] eqn:Hstep; [|done].
  destruct m; try done. intros [= ->].
  apply parse_step_done_array in Hstep as ->. by exists toks.
Qed.

Lemma parse_step_root (st st' : pstate) (tok : token) (b : bool) :
  parse_step st tok = Some st' → root_is_array st = Some b → root_is_array st' = Some b.
Proof.
  destruct st as [stk m]. unfold parse_step, value_start, deliver, root_is_array.
  destruct m, tok; try done; destruct stk as [|[] [|f stk]];
    simpl; intros [= <-]; simpl; try done;
    rewrite ?last_cons; try done; by destruct (last stk) as [[]|].
Qed.

Lemma parse_run_root (toks : list token) (st st' : pstate) (b : bool) :
  parse_run st toks = Some st' → root_is_array st = Some b → root_is_array st' = Some b.
Proof.
  revert st. induction toks as [|tok toks IH]; intros st; simpl.
  - by intros [= <-].
  - destruct (parse_step st tok) as [st1|] eqn:Hstep; [|done].
    intros Hrun Hroot. eapply IH; [done|]. by eapply parse_step_root.
Qed.

Lemma parse_step_done_stack (st : pstate) (tok : token) (stack : list frame) (v : json) :
  parse_step st tok = Some (stack, PDone v) → stack = [].
Proof.
  destruct st as [stk m]. unfold parse_step, value_start, deliver.
  destruct m, tok; try done; destruct stk as [|[] stk]; by intros [= <-].
Qed.

Lemma parse_run_done_stack (toks : list token) (st : pstate) (stack : list frame)
    (v : json) :
  parse_run st toks = Some (stack, PDone v) → st = (stack, PDone v) ∨ stack = [].
Proof.
  destruct toks as [|tok toks _] using rev_ind; simpl.
  - intros [= ->]. by left.
  - rewrite parse_run_snoc. destruct (parse_run st toks) as [st'|]; [|done].
    intros Hstep. right. by eapply parse_step_done_stack.
Qed.

(** The tokens of an array start with an opening bracket. *)
Lemma parse_array_first (toks : list token) (es : list json) :
  parse toks = Some (JArr es) → ∃ toks', toks = TLBrack :: toks'.
Proof.
  unfold parse. rewrite parse_from_run. destruct toks as [|tok toks]; [done|]. simpl.
  destruct (value_start [] tok) as [st1|] eqn:Hstart; [|done].
  destruct (parse_run st1 toks) as [[stack m]|] eqn:Hrun; [|done].
  destruct m; try done. intros [= ->].
  destruct (parse_run_done_stack _ _ _ _ Hrun) as [->| ->].
  - by destruct tok.
  - destruct tok; simpl in Hstart; try done; try (by eexists);
      injection Hstart as <-;
      by pose proof (parse_run_root _ _ _ _ Hrun eq_refl).
Qed.

End JsonProps.

(** ** The recovery parser of the loader *)

Module RecoveryProps.
Import PyStr PyStrFacts Json JsonProps Loader.

(** *** Splitting and stripping *)

Lemma app_cons (c : ascii) (a b : string) : String c a +:+ b = String c (a +:+ b).
Proof. done. Qed.

Lemma mem_char_app (c : ascii) (a b : string) :
  mem_char c (a +:+ b) = mem_char c a || mem_char c b.
Proof.
  induction a as [|d a IH]; [done|].
  rewrite app_cons. simpl. by rewrite IH, orb_assoc.
Qed.

Lemma count_char_app (c : ascii) (a b : string) :
  count_char c (a +:+ b) = count_char c a + count_char c b.
Proof.
  induction a as [|d a IH]; [done|].
  rewrite app_cons. simpl. rewrite IH. lia.
Qed.

Lemma count_char_mem (c : ascii) (s : string) :
  count_char c s = 0 → mem_char c s = false.
Proof.
  induction s as [|d s IH]; simpl; [done|].
  case_bool_decide as Hd; [lia|]. intros Hs.
  rewrite IH by lia. rewrite bool_decide_false; [done|congruence].
Qed.

Lemma count_char_none (c : ascii) (s : string) :
  mem_char c s = false → count_char c s = 0.
Proof.
  induction s as [|d s IH]; simpl; [done|].
  intros [Hd Hs]%orb_false_iff. apply bool_decide_eq_false in Hd.
  rewrite bool_decide_false by congruence. by rewrite IH.
Qed.

Lemma count_one_split (c : ascii) (s : string) :
  count_char c s = 1 →
  ∃ a b, s = a +:+ String c b ∧ mem_char c a = false ∧ mem_char c b = false.
Proof.
  induction s as [|d s IH]; simpl; [done|].
  case_bool_decide as Hd.
  - subst d. intros Hs. exists "", s. split_and!; [done|done|].
    apply count_char_mem. lia.
  - intros Hs. destruct IH as (a & b & -> & Ha & Hb); [lia|].
    exists (String d a), b. split_and!; [done| |done].
    simpl. rewrite Ha. rewrite bool_decide_false; [done|congruence].
Qed.

Lemma forall_chars_no_char (p : ascii → bool) (c : ascii) (s : string) :
  p c = false → forall_chars p s = true → mem_char c s = false.
Proof.
  intros Hc. induction s as [|d s IH]; simpl; [done|].
  intros [Hd Hs]%andb_true_iff. rewrite (IH Hs), orb_false_r.
  apply bool_decide_eq_false. intros ->. congruence.
Qed.

Lemma forall_chars_impl (p q : ascii → bool) (s : string) :
  (∀ c, p c = true → q c = true) → forall_chars p s = true → forall_chars q s = true.
Proof.
  intros Hpq. induction s as [|d s IH]; simpl; [done|].
  intros [Hd Hs]%andb_true_iff. by rewrite (Hpq _ Hd), IH.
Qed.

Lemma split_char_none (c : ascii) (s : string) :
  mem_char c s = false → split_char c s = [s].
Proof.
  induction s as [|d s IH]; simpl; [done|].
  intros [Hd Hs]%orb_false_iff. apply bool_decide_eq_false in Hd.
  rewrite bool_decide_false by congruence. by rewrite (IH Hs).
Qed.

Lemma split_char_app (c : ascii) (a b : string) :
  mem_char c a = false → split_char c (a +:+ String c b) = a :: split_char c b.
Proof.
  induction a as [|d a IH].
  - intros _. change ("" +:+ String c b) with (String c b). simpl.
    by rewrite bool_decide_true.
  - rewrite app_cons. simpl.
    intros [Hd Hs]%orb_false_iff. apply bool_decide_eq_false in Hd.
    rewrite bool_decide_false by congruence. by rewrite (IH Hs).
Qed.

Lemma lstrip_by_app (p : ascii → bool) (pre s : string) :
  forall_chars p pre = true → lstrip_by p (pre +:+ s) = lstrip_by p s.
Proof.
  induction pre as [|d pre IH]; [done|]. rewrite app_cons. simpl.
  intros [-> Hpre]%andb_true_iff. auto.
Qed.

Lemma rstrip_by_keep (p : ascii → bool) (c : ascii) (s : string) :
  p c = false → rstrip_by p (String c s) = String c (rstrip_by p s).
Proof. intros Hc. simpl. rewrite Hc. by destruct (rstrip_by p s). Qed.

(** What [rstrip] removes is a run of the stripped characters. *)
Lemma rstrip_by_split (p : ascii → bool) (s : string) :
  ∃ w, s = rstrip_by p s +:+ w ∧ forall_chars p w = true.
Proof.
  induction s as [|c s (w & Hs & Hw)]; simpl; [by exists ""|].
  destruct (rstrip_by p s) as [|d r] eqn:Hr.
  - change ("" +:+ w) with w in Hs. subst w. destruct (p c) eqn:Hc.
    + exists (String c s). split; [done|]. simpl. by rewrite Hc.
    + exists s. by split.
  - exists w. split; [|done]. rewrite app_cons. by f_equal.
Qed.

Lemma endswith_no_char (c : ascii) (s : string) :
  mem_char c s = false → endswith s (String c "") = false.
Proof.
  induction s as [|d s IH]; simpl.
  - intros _. by vm_compute.
  - intros [Hd Hs]%orb_false_iff. rewrite (IH Hs), orb_false_r.
    apply bool_decide_eq_false in Hd.
    apply bool_decide_eq_false. intros [= -> ->]. done.
Qed.

Lemma strip_all_space (s : string) : forall_chars isspace s = true → strip s = "".
Proof.
  intros Hs. unfold strip, strip_by.
  rewrite <- (StrFacts.app_nil_r s), lstrip_by_app; done.
Qed.

(** *** One entry sequence *)

Lemma all_ws_isspace (s : string) : all_ws s → forall_chars isspace s = true.
Proof. apply forall_chars_impl, is_ws_isspace. Qed.

Lemma lex_from_no_rbrack (s : string) (st : lexstate) (toks : list token) :
  lex_wf st → mem_char "]" s = false → lex_from st s = Some toks → TRBrack ∉ toks.
Proof.
  intros Hwf Hs. rewrite lex_from_run.
  destruct (lex_run st s) as [[t1 st1]|] eqn:Hrun; [|done].
  destruct (lex_finish st1) as [t2|] eqn:Hfin; [|done]. simpl. intros [= <-].
  rewrite elem_of_app. intros [H|H].
  - by eapply lex_run_no_rbrack.
  - by eapply lex_finish_no_rbrack.
Qed.

(** A flat entry sequence is white space, an opening bracket, a text
    without closing bracket, the closing bracket and white space. *)
Lemma flat_sequence_shape (text : string) (entries : list json) :
  flat_sequence text entries →
  ∃ head inner tail toks,
    text = head +:+ String "[" (inner +:+ String "]" tail)
    ∧ all_ws head ∧ all_ws tail ∧ mem_char "]" inner = false
    ∧ lex_from LIdle (String "[" (inner +:+ "]")) = Some toks
    ∧ last toks = Some TRBrack
    ∧ parse toks = Some (JArr entries).
Proof.
  intros [Hseq Hcount]. unfold entry_sequence, loads in Hseq.
  destruct (lex text) as [toks|] eqn:Hlex; [|done].
  destruct (parse toks) as [v|] eqn:Hparse; [|done]. injection Hseq as ->.
  destruct (parse_array_first _ _ Hparse) as [toks1 ->].
  destruct (parse_array_last _ _ Hparse) as [toks2 Hlast].
  destruct (lex_first_lbrack _ _ Hlex) as (head & rest & -> & Hhead & Hrest).
  rewrite count_char_app, (count_char_none "]" head) in Hcount
    by (by apply (forall_chars_no_char is_ws)).
  change (count_char "]" (String "[" rest)) with (count_char "]" rest) in Hcount.
  destruct (count_one_split "]" rest) as (inner & tail & -> & Hinner & Htail); [lia|].
  change (inner +:+ String "]" tail) with (inner +:+ "]" +:+ tail) in Hrest.
  rewrite <- StrFacts.app_assoc, lex_from_app in Hrest.
  destruct (lex_run LIdle (inner +:+ "]")) as [[tA stA]|] eqn:Hrun; [|done].
  destruct (lex_from stA tail) as [tB|] eqn:Htl; [|done].
  injection Hrest as <-.
  assert (lex_wf stA) as Hwf by (by apply (lex_run_wf _ LIdle _ _ I Hrun)).
  pose proof (lex_from_no_rbrack _ _ _ Hwf Htail Htl) as Hno.
  assert (tB = []) as ->.
  { destruct tB as [|x tB _] using rev_ind; [done|]. exfalso. apply Hno.
    assert ((TLBrack :: tA ++ tB) ++ [x] = toks2 ++ [TRBrack]) as Hlast'.
    { rewrite <- Hlast. simpl. by rewrite <- app_assoc. }
    apply app_inj_tail in Hlast' as [_ ->].
    apply elem_of_app. right. by apply list_elem_of_singleton. }
  apply lex_from_nil in Htl as [-> Hall].
  exists head, inner, tail, (TLBrack :: tA ++ []). split_and!; try done.
  - simpl. rewrite lex_from_run, Hrun. done.
  - rewrite Hlast. apply last_snoc.
Qed.

(** The fragment left once the white space in front of the closing bracket
    is stripped scans to the same tokens. *)
Lemma lex_rewrapped (inner w : string) (toks : list token) :
  forall_chars isspace w = true →
  lex_from LIdle (String "[" ((inner +:+ w) +:+ "]")) = Some toks →
  last toks = Some TRBrack →
  lex (String "[" inner +:+ "]") = Some toks.
Proof.
  intros Hw Hlex Hlast. unfold lex.
  rewrite StrFacts.app_assoc, <- app_cons, lex_from_app in Hlex.
  rewrite lex_from_app.
  destruct (lex_run LIdle (String "[" inner)) as [[tA stA]|] eqn:Hrun; [|done].
  destruct (lex_from stA (w +:+ "]")) as [r|] eqn:Hr; [|done].
  injection Hlex as <-.
  assert (Hne : last r = Some TRBrack).
  { rewrite last_app in Hlast. destruct (last r) eqn:Hl; [done|].
    apply last_None in Hl as ->. apply lex_from_nil in Hr as [_ Hall].
    unfold all_ws in Hall. clear -Hall. exfalso.
    induction w as [|d w IHw]; [done|].
    rewrite app_cons in Hall. simpl in Hall.
    apply andb_true_iff in Hall as [_ Hall]. by apply IHw. }
  rewrite (lex_ws_before_bracket w stA r); [done| |done|done|done].
  by apply (lex_run_wf _ LIdle _ _ I Hrun).
Qed.

(** The fragment of a flat entry sequence, with the white space that was
    left of the sequence before it, is recovered in full. *)
Lemma recover_flat_part (pre head inner : string) (toks : list token)
    (entries : list json) :
  forall_chars isspace pre = true → all_ws head → mem_char "]" inner = false →
  lex_from LIdle (String "[" (inner +:+ "]")) = Some toks →
  last toks = Some TRBrack →
  parse toks = Some (JArr entries) →
  ∃ part, strip (pre +:+ head +:+ String "[" inner) = part ∧ part ≠ ""
          ∧ recover_part part = entries.
Proof.
  intros Hpre Hhead Hinner Hlex Hlast Hparse.
  exists (String "[" (rstrip_by isspace inner)). split_and!; [|done|].
  - unfold strip, strip_by.
    rewrite lstrip_by_app by done.
    rewrite lstrip_by_app by (by apply all_ws_isspace).
    change (lstrip_by isspace (String "[" inner)) with (String "[" inner).
    by apply rstrip_by_keep.
  - destruct (rstrip_by_split isspace inner) as (w & Hsplit & Hw).
    set (inner' := rstrip_by isspace inner) in *.
    assert (mem_char "]" inner' = false) as Hin'.
    { destruct (mem_char "]" inner') eqn:Hm; [|done].
      apply (rstrip_by_within isspace inner) in Hm. congruence. }
    unfold recover_part.
    rewrite endswith_no_char by (simpl; by rewrite Hin').
    assert (startswith (String "[" inner' +:+ "]") "[" = true) as ->.
    { unfold startswith. rewrite app_cons. simpl.
      destruct (ascii_dec "[" "["); [apply prefix_nil|done]. }
    rewrite Hsplit in Hlex. apply lex_rewrapped in Hlex; [|done|done].
    unfold loads. by rewrite Hlex, Hparse.
Qed.

(** *** All the sequences *)

Lemma isspace_no_rbrack (s : string) :
  forall_chars isspace s = true → mem_char "]" s = false.
Proof. apply forall_chars_no_char. by vm_compute. Qed.

Lemma recovery_fold (texts : list string) (entries : list (list json)) :
  Forall2 flat_sequence texts entries →
  ∀ pre acc, forall_chars isspace pre = true →
  foldl (λ resources part,
           let part := strip part in
           if decide (part = "") then resources
           else resources ++ recover_part part)
        acc (split_char "]" (pre +:+ concat_texts texts))
  = acc ++ concat entries.
Proof.
  induction 1 as [|text es texts ess Hflat _ IH]; intros pre acc Hpre.
  - simpl. rewrite StrFacts.app_nil_r.
    rewrite split_char_none by (by apply isspace_no_rbrack).
    cbn [foldl]. cbv beta zeta. rewrite strip_all_space by done.
    destruct (decide ("" = "")) as [_|Hn]; [by rewrite app_nil_r|by destruct Hn].
  - destruct (flat_sequence_shape _ _ Hflat)
      as (head & inner & tail & toks & -> & Hhead & Htail & Hinner & Hlex & Hlast & Hparse).
    destruct (recover_flat_part pre head inner toks es Hpre Hhead Hinner Hlex Hlast Hparse)
      as (part & Hstrip & Hne & Hrec).
    assert (pre +:+ concat_texts ((head +:+ String "[" (inner +:+ String "]" tail)) :: texts)
            = (pre +:+ head +:+ String "[" inner)
              +:+ String "]" (tail +:+ concat_texts texts)) as ->.
    { change (concat_texts (?x :: texts)) with (x +:+ concat_texts texts).
      by rewrite !StrFacts.app_assoc, !app_cons, !StrFacts.app_assoc, !app_cons. }
    rewrite split_char_app.
    + cbn [foldl]. cbv beta zeta. rewrite Hstrip.
      destruct (decide (part = "")) as [|_]; [done|].
      rewrite Hrec, IH by (by apply all_ws_isspace).
      simpl. by rewrite <- app_assoc.
    + rewrite !mem_char_app. simpl. rewrite Hinner.
      rewrite (isspace_no_rbrack pre) by done.
      by rewrite (isspace_no_rbrack head) by (by apply all_ws_isspace).
Qed.

Lemma loads_raises (s : string) (e : exn) :
  loads s = Raise e → e = Exn JSONDecodeError "Expecting value".
Proof.
  unfold loads. destruct (lex s) as [toks|]; [destruct (parse toks)|]; congruence.
Qed.

(** C3. A manifest text that does not parse as one document and is made of
    entry sequences written one after the other, none of which holds a
    closing bracket other than the one that ends it, is recovered in full:
    the recovery parser, and with it [load_resources], returns the entries
    of all the sequences, in the order of the text. *)
Theorem recovery_returns_all_flat_sequences (texts : list string)
    (entries : list (list json)) (w : Env.World) (path : string)
    (self : ResourceLoader) (e : exn) :
  Forall2 flat_sequence texts entries →
  Env.files w !! path = Some (concat_texts texts) →
  loads (concat_texts texts) = Raise e →
  _parse_multi_array (concat_texts texts) = concat entries
  ∧ load_resources w path self
    = (Ok (concat entries), set_loaded (concat entries) self).
Proof.
  intros Hflat Hfile Hraise.
  assert (_parse_multi_array (concat_texts texts) = concat entries) as Hrec.
  { unfold _parse_multi_array. exact (recovery_fold _ _ Hflat "" [] eq_refl). }
  split; [done|]. unfold load_resources.
  rewrite (StorageProps.path_exists_file _ _ _ Hfile). simpl. rewrite Hfile, Hraise.
  apply loads_raises in Hraise as ->. simpl. by rewrite Hrec.
Qed.

Lemma recovery_of_two_batches_witness :
  Forall2 flat_sequence
    [Sample.first_batch; Sample.second_batch]
    [[Sample.url_entry "http://a.example/1"; Sample.url_entry "http://a.example/2"];
     [Sample.url_entry "http://b.example/1"]]
  ∧ loads (Sample.first_batch +:+ Sample.second_batch)
    = Raise (Exn JSONDecodeError "Expecting value")
  ∧ _parse_multi_array (Sample.first_batch +:+ Sample.second_batch)
    = [Sample.url_entry "http://a.example/1"; Sample.url_entry "http://a.example/2";
       Sample.url_entry "http://b.example/1"]
  ∧ (load_resources
       (Sample.manifest_world (Sample.first_batch +:+ Sample.second_batch))
       "resources.json" init).1
    = Ok [Sample.url_entry "http://a.example/1"; Sample.url_entry "http://a.example/2";
          Sample.url_entry "http://b.example/1"].
Proof.
  assert (Forall2 flat_sequence
            [Sample.first_batch; Sample.second_batch]
            [[Sample.url_entry "http://a.example/1"; Sample.url_entry "http://a.example/2"];
             [Sample.url_entry "http://b.example/1"]]) as Hflat.
  { repeat constructor; by vm_compute. }
  assert (loads (concat_texts [Sample.first_batch; Sample.second_batch])
          = Raise (Exn JSONDecodeError "Expecting value")) as Hraise by (by vm_compute).
  assert (Env.files
            (Sample.manifest_world (Sample.first_batch +:+ Sample.second_batch))
          !! "resources.json"
          = Some (concat_texts [Sample.first_batch; Sample.second_batch])) as Hfile
    by (by vm_compute).
  pose proof (recovery_returns_all_flat_sequences
                [Sample.first_batch; Sample.second_batch]
                [[Sample.url_entry "http://a.example/1";
                  Sample.url_entry "http://a.example/2"];
                 [Sample.url_entry "http://b.example/1"]]
                (Sample.manifest_world (Sample.first_batch +:+ Sample.second_batch))
                "resources.json" init
                (Exn JSONDecodeError "Expecting value")
                Hflat Hfile Hraise) as [Hrec Hload].
  split_and!; [exact Hflat|by vm_compute| |].
  - vm_compute. vm_compute in Hrec. exact Hrec.
  - rewrite Hload. reflexivity.
Defined.

(** A sequence whose entries hold an array of their own is cut at the
    inner closing bracket: its entry is lost, and only the entries of the
    flat sequence come back. *)
Lemma recovery_loses_entries_with_inner_arrays :
  entry_sequence Sample.tagged_batch [Sample.tagged_entry "http://a.example/1" "rocq"]
  ∧ entry_sequence Sample.second_batch [Sample.url_entry "http://b.example/1"]
  ∧ loads (Sample.tagged_batch +:+ Sample.second_batch)
    = Raise (Exn JSONDecodeError "Expecting value")
  ∧ _parse_multi_array (Sample.tagged_batch +:+ Sample.second_batch)
    = [Sample.url_entry "http://b.example/1"]
  ∧ (load_resources
       (Sample.manifest_world (Sample.tagged_batch +:+ Sample.second_batch))
       "resources.json" init).1
    = Ok [Sample.url_entry "http://b.example/1"].
Proof. split_and!; by vm_compute. Qed.

(** *** What [load_resources] raises *)




End RecoveryProps.

(** ** Validation and the loading pipeline (core/loader.py) *)

Module LoaderValidation.
Import PyStr PyStrFacts Loader LoaderProps.

Lemma strip_empty : strip "" = "".
Proof. done. Qed.

Lemma startswith_nonempty (s pre : string) :
  startswith s pre = true → pre ≠ "" → s ≠ "".
Proof. intros Hpre Hne ->. by destruct pre. Qed.

(** X1. A resource passes [validate_resource] exactly when it has a URL
    that, once stripped, starts with [http://] or [https://]: the tests for
    an empty and for a blank URL reject nothing that the test of the prefix
    would accept. *)
Theorem validate_resource_iff_http_prefix (resource : Resource) :
  validate_resource resource = true
  ↔ ∃ value, res_url resource = Some value
             ∧ (startswith (strip value) "http://" = true
                ∨ startswith (strip value) "https://" = true).
Proof.
  unfold validate_resource. destruct (res_url resource) as [value|]; [|naive_solver].
  split.
  - destruct (bool_decide (value = "") || bool_decide (strip value = "")); [done|].
    intros [H|H]%orb_true_iff; exists value; auto.
  - intros (? & [= <-] & Hprefix).
    assert (strip value ≠ "") as Hstrip.
    { destruct Hprefix as [H|H]; by apply (startswith_nonempty _ _ H). }
    assert (value ≠ "") as Hvalue by (by intros ->).
    rewrite !bool_decide_false by done. simpl.
    apply orb_true_iff. tauto.
Qed.





Lemma first_occurrences_of_distinct (l : list Resource) :
  NoDup (normalized_url <$> l) → first_occurrences l = l.
Proof.
  induction l as [|x l IH] using rev_ind; [done|].
  rewrite fmap_app, NoDup_app. intros (Hl & Hx & _).
  rewrite first_occurrences_snoc, IH by done.
  rewrite decide_False; [done|]. intros Hin. apply (Hx _ Hin). simpl. left.
Qed.

Lemma deduplicate_resources_eq (stats : LoaderStats) (resources : list Resource) :
  deduplicate_resources stats resources
  = (first_occurrences resources,
     mkLoaderStats (st_total stats) (st_valid stats) (st_invalid stats)
                   (st_duplicates stats + length resources
                    - length (first_occurrences resources))).
Proof.
  unfold deduplicate_resources.
  destruct (dedup_loop_invariant (st_duplicates stats) resources) as (_ & -> & Hcount).
  f_equal. f_equal. lia.
Qed.

(** X3. [deduplicate_resources] adds to the [duplicates] counter exactly
    the number of entries it drops and touches no other counter; run again
    on its own output it drops nothing and counts nothing. *)
Theorem deduplicate_counts_dropped_and_is_idempotent
    (stats : LoaderStats) (resources : list Resource) :
  let out := (deduplicate_resources stats resources).1 in
  let stats' := (deduplicate_resources stats resources).2 in
  st_duplicates stats' + length out = st_duplicates stats + length resources
  ∧ st_total stats' = st_total stats
  ∧ st_valid stats' = st_valid stats
  ∧ st_invalid stats' = st_invalid stats
  ∧ deduplicate_resources stats' out = (out, stats').
Proof.
  rewrite deduplicate_resources_eq. simpl.
  pose proof (first_occurrences_length resources).
  split_and!; try done; [lia|].
  rewrite deduplicate_resources_eq. simpl.
  rewrite first_occurrences_of_distinct by apply first_occurrences_NoDup.
  f_equal. f_equal. lia.
Qed.


End LoaderValidation.

(** ** File names (core/storage.py) *)

Module SlugProps.
Import PyStr PyStrFacts JsonProps RecoveryProps Storage.

(** *** Parts of strings *)

Lemma forall_chars_app (p : ascii → bool) (a b : string) :
  forall_chars p (a +:+ b) = forall_chars p a && forall_chars p b.
Proof.
  induction a as [|c a IH]; [done|]. rewrite app_cons. simpl.
  by rewrite IH, andb_assoc.
Qed.

Lemma lstrip_by_split (p : ascii → bool) (s : string) :
  ∃ w, s = w +:+ lstrip_by p s ∧ forall_chars p w = true.
Proof.
  induction s as [|c s (w & Hs & Hw)]; [by exists ""|]. simpl.
  destruct (p c) eqn:Hc.
  - exists (String c w). rewrite app_cons. simpl. rewrite Hc. split; [by f_equal|done].
  - by exists "".
Qed.

Lemma take_drop (n : nat) (s : string) : s = take n s +:+ drop n s.
Proof.
  revert s. induction n as [|n IH]; intros [|c s]; try done.
  unfold take in *. simpl. rewrite app_cons. f_equal. apply IH.
Qed.

Lemma length_take (n : nat) (s : string) : String.length (take n s) ≤ n.
Proof.
  revert s. induction n as [|n IH]; intros [|c s]; unfold take in *; simpl; try lia.
  specialize (IH s). lia.
Qed.

Lemma length_rstrip_by (p : ascii → bool) (s : string) :
  String.length (rstrip_by p s) ≤ String.length s.
Proof.
  destruct (rstrip_by_split p s) as (w & Hs & _).
  rewrite Hs at 2. rewrite StrFacts.length_app. lia.
Qed.

Lemma prefix_app (sub a b : string) :
  String.prefix sub a = true → String.prefix sub (a +:+ b) = true.
Proof.
  revert a. induction sub as [|c sub IH]; intros a; [by rewrite !prefix_nil|].
  destruct a as [|d a]; [done|]. rewrite app_cons. simpl.
  destruct (ascii_dec c d); [apply IH|done].
Qed.

Lemma contains_app_l (sub a b : string) :
  contains sub a = true → contains sub (a +:+ b) = true.
Proof.
  induction a as [|d a IH].
  - cbn [contains]. rewrite orb_false_r. intros H.
    destruct sub; [|done]. change ("" +:+ b) with b.
    destruct b; cbn [contains]; by rewrite ?prefix_nil.
  - rewrite app_cons. cbn [contains]. intros [H|H]%orb_true_iff.
    + apply (prefix_app _ _ b) in H. rewrite app_cons in H. by rewrite H.
    + rewrite (IH H). apply orb_true_r.
Qed.

Lemma contains_app_r (sub a b : string) :
  contains sub b = true → contains sub (a +:+ b) = true.
Proof.
  intros Hb. induction a as [|d a IH]; [done|].
  rewrite app_cons. cbn [contains]. rewrite IH. apply orb_true_r.
Qed.

(** What a string starts with and ends with after stripping. *)
Lemma lstrip_by_head (p : ascii → bool) (s : string) :
  lstrip_by p s = "" ∨ ∃ c r, lstrip_by p s = String c r ∧ p c = false.
Proof.
  induction s as [|c s IH]; [by left|]. simpl. destruct (p c) eqn:Hc; [done|].
  right. by exists c, s.
Qed.

Lemma rstrip_by_head (p : ascii → bool) (s : string) :
  (s = "" ∨ ∃ c r, s = String c r ∧ p c = false) →
  rstrip_by p s = "" ∨ ∃ c r, rstrip_by p s = String c r ∧ p c = false.
Proof.
  intros [->|(c & r & -> & Hc)]; [by left|]. right.
  rewrite rstrip_by_keep by done. by eexists _, _.
Qed.

Lemma take_head (p : ascii → bool) (n : nat) (s : string) :
  (s = "" ∨ ∃ c r, s = String c r ∧ p c = false) →
  take n s = "" ∨ ∃ c r, take n s = String c r ∧ p c = false.
Proof.
  intros [->|(c & r & -> & Hc)]; [left; by destruct n|].
  destruct n as [|n]; [by left|]. right. unfold take. simpl. by eexists _, _.
Qed.

Lemma rstrip_by_end (p : ascii → bool) (s : string) (c : ascii) :
  endswith (rstrip_by p s) (String c "") = true → p c = false.
Proof.
  induction s as [|d s IH]; [done|]. simpl.
  destruct (rstrip_by p s) as [|e r] eqn:Hr.
  - destruct (p d) eqn:Hd; [done|]. simpl. rewrite orb_false_r.
    intros [= ->]%bool_decide_eq_true. done.
  - intros H. apply IH. simpl in *. apply orb_true_iff in H as [H|H]; [|done].
    by apply bool_decide_eq_true in H.
Qed.

(** *** The characters of a slug *)

Lemma tolower_not_upper (c : ascii) : is_upper (tolower c) = false.
Proof. each_char c; by vm_compute. Qed.

Lemma lower_not_upper (s : string) :
  forall_chars (λ c, negb (is_upper c)) (lower s) = true.
Proof.
  induction s as [|c s IH]; [done|]. simpl. by rewrite tolower_not_upper, IH.
Qed.

Lemma filter_chars_forall (p : ascii → bool) (s : string) :
  forall_chars p (filter_chars p s) = true.
Proof.
  induction s as [|c s IH]; [done|]. simpl. destruct (p c) eqn:Hc; [|done].
  simpl. by rewrite Hc.
Qed.

Lemma filter_chars_keeps (p q : ascii → bool) (s : string) :
  forall_chars q s = true → forall_chars q (filter_chars p s) = true.
Proof.
  induction s as [|c s IH]; [done|]. simpl. intros [Hc Hs]%andb_true_iff.
  destruct (p c); [simpl; rewrite Hc|]; auto.
Qed.

Lemma forall_chars_and (p q : ascii → bool) (s : string) :
  forall_chars p s = true → forall_chars q s = true →
  forall_chars (λ c, p c && q c) s = true.
Proof.
  induction s as [|c s IH]; [done|]. simpl.
  intros [-> Hp]%andb_true_iff [-> Hq]%andb_true_iff. by rewrite IH.
Qed.

Lemma slug_letter (c : ascii) :
  slug_char c && negb (is_upper c) = true → slug_sep c = false →
  isalnum c && negb (is_upper c) || bool_decide (c = "-"%char) = true.
Proof. each_char c; by vm_compute. Qed.

Lemma slug_letter_no_dash (c : ascii) : slug_sep c = false → c ≠ "-"%char.
Proof. by intros Hc ->. Qed.

Lemma collapse_runs_chars (in_run : bool) (s : string) :
  forall_chars (λ c, slug_char c && negb (is_upper c)) s = true →
  forall_chars (λ c, isalnum c && negb (is_upper c) || bool_decide (c = "-"%char))
               (collapse_runs in_run s) = true.
Proof.
  revert in_run. induction s as [|c s IH]; intros in_run; [done|]. simpl.
  intros [Hc Hs]%andb_true_iff. destruct (slug_sep c) eqn:Hsep.
  - destruct in_run; [by apply IH|]. simpl. by apply IH.
  - simpl. by rewrite (slug_letter c Hc Hsep), IH.
Qed.

Lemma prefix_dash (s : string) :
  String.prefix "--" (String "-" s) = String.prefix "-" s.
Proof. done. Qed.

Lemma prefix_other (sub s : string) (c d : ascii) :
  c ≠ d → String.prefix (String c sub) (String d s) = false.
Proof. intros Hne. simpl. by destruct (ascii_dec c d). Qed.

(** Runs are collapsed to single hyphens. *)
Lemma collapse_runs_single (in_run : bool) (s : string) :
  contains "--" (collapse_runs in_run s) = false
  ∧ (in_run = true → String.prefix "-" (collapse_runs in_run s) = false).
Proof.
  revert in_run. induction s as [|c s IH]; intros in_run; [done|].
  cbn [collapse_runs]. destruct (slug_sep c) eqn:Hsep.
  - destruct in_run; [apply IH|]. split; [|done].
    destruct (IH true) as [Hin Hhead].
    cbn [contains]. by rewrite prefix_dash, Hhead, Hin.
  - pose proof (slug_letter_no_dash c Hsep) as Hc.
    destruct (IH false) as [Hin _]. split.
    + cbn [contains]. rewrite Hin, orb_false_r. by apply prefix_other.
    + intros _. by apply prefix_other.
Qed.

Lemma part_chars (p : ascii → bool) (a b c : string) :
  forall_chars p (a +:+ b +:+ c) = true → forall_chars p b = true.
Proof. rewrite !forall_chars_app, !andb_true_iff. tauto. Qed.

Lemma part_contains (sub a b c : string) :
  contains sub (a +:+ b +:+ c) = false → contains sub b = false.
Proof.
  intros Hall. destruct (contains sub b) eqn:Hb; [|done].
  by rewrite (contains_app_r sub a _ (contains_app_l sub b c Hb)) in Hall.
Qed.

(** The slug before it is cut to length and before the empty slug is
    replaced: what [strip('-')] leaves of the collapsed text. *)
Lemma stripped_slug (title : string) :
  let p := λ c, mem_char c "-" in
  let collapsed := collapse_runs false (filter_chars slug_char (lower title)) in
  let slug := strip_chars "-" collapsed in
  forall_chars (λ c, isalnum c && negb (is_upper c) || bool_decide (c = "-"%char)) slug = true
  ∧ contains "--" slug = false
  ∧ (slug = "" ∨ ∃ c r, slug = String c r ∧ p c = false).
Proof.
  intros p collapsed slug.
  assert (forall_chars (λ c, isalnum c && negb (is_upper c) || bool_decide (c = "-"%char))
                       collapsed = true) as Hchars.
  { apply collapse_runs_chars, forall_chars_and.
    - apply filter_chars_forall.
    - apply filter_chars_keeps, lower_not_upper. }
  destruct (collapse_runs_single false (filter_chars slug_char (lower title))) as [Hsingle _].
  fold collapsed in Hsingle.
  destruct (lstrip_by_split p collapsed) as (w1 & H1 & _).
  destruct (rstrip_by_split p (lstrip_by p collapsed)) as (w2 & H2 & _).
  fold (strip_by p collapsed) in H2. change (strip_by p collapsed) with slug in H2.
  rewrite H2 in H1. rewrite H1 in Hchars, Hsingle.
  split_and!.
  - by eapply part_chars.
  - by eapply part_contains.
  - apply rstrip_by_head, lstrip_by_head.
Qed.

Lemma untitled_is_safe (max_length : nat) :
  "untitled" ≠ ""
  ∧ forall_chars (λ c, isalnum c && negb (is_upper c) || bool_decide (c = "-"%char))
                 "untitled" = true
  ∧ mem_char "/" "untitled" = false
  ∧ startswith "untitled" "-" = false
  ∧ endswith "untitled" "-" = false
  ∧ contains "--" "untitled" = false
  ∧ String.length "untitled" ≤ max_length `max` 8.
Proof. split_and!; try done; try (by vm_compute). simpl. lia. Qed.

(** What holds of every slug. *)
Lemma slugify_facts (title : string) (max_length : nat) :
  let slug := slugify title max_length in
  slug ≠ ""
  ∧ forall_chars (λ c, isalnum c && negb (is_upper c) || bool_decide (c = "-"%char)) slug
    = true
  ∧ mem_char "/" slug = false
  ∧ startswith slug "-" = false
  ∧ endswith slug "-" = false
  ∧ contains "--" slug = false
  ∧ String.length slug ≤ max_length `max` 8.
Proof.
  set (p := λ c, mem_char c "-").
  set (ok := λ c, isalnum c && negb (is_upper c) || bool_decide (c = "-"%char)).
  assert (∀ s, forall_chars ok s = true → mem_char "/" s = false) as Hslash.
  { intros s. by apply forall_chars_no_char. }
  assert (∀ s, (s = "" ∨ ∃ c r, s = String c r ∧ p c = false) →
               startswith s "-" = false) as Hstart.
  { intros s [->|(c & r & -> & Hc)]; [done|]. apply prefix_other. by intros <-. }
  destruct (stripped_slug title) as (Hchars & Hsingle & Hhead).
  fold p ok in Hchars, Hhead. cbv zeta in Hchars, Hsingle, Hhead.
  unfold slugify. cbv zeta.
  set (stripped := strip_chars "-" (collapse_runs false (filter_chars slug_char (lower title))))
    in *.
  assert (endswith stripped "-" = false) as Hend.
  { destruct (endswith stripped "-") eqn:He; [|done].
    by apply (rstrip_by_end p) in He. }
  destruct (max_length <? String.length stripped) eqn:Hlong.
  - destruct (rstrip_by_split p (take max_length stripped)) as (w & Hcut & _).
    assert (stripped = "" +:+ rstrip_chars "-" (take max_length stripped)
                          +:+ (w +:+ drop max_length stripped)) as Hwhole.
    { change ("" +:+ ?x) with x. rewrite <- StrFacts.app_assoc.
      change (rstrip_chars "-" ?x) with (rstrip_by p x). rewrite <- Hcut.
      apply take_drop. }
    assert (rstrip_chars "-" (take max_length stripped) = ""
            ∨ ∃ c r, rstrip_chars "-" (take max_length stripped) = String c r
                     ∧ p c = false) as Hcut_head.
    { by apply (rstrip_by_head p), take_head. }
    assert (endswith (rstrip_chars "-" (take max_length stripped)) "-" = false) as Hcut_end.
    { destruct (endswith (rstrip_chars "-" (take max_length stripped)) "-") eqn:He;
        [|done].
      change (rstrip_chars "-" ?x) with (rstrip_by p x) in He.
      apply rstrip_by_end in He. by vm_compute in He. }
    assert (String.length (rstrip_chars "-" (take max_length stripped)) ≤ max_length)
      as Hcut_len.
    { pose proof (length_rstrip_by p (take max_length stripped)).
      pose proof (length_take max_length stripped).
      change (rstrip_chars "-" ?x) with (rstrip_by p x). lia. }
    clear Hcut. set (cut := rstrip_chars "-" (take max_length stripped)) in *.
    clearbody cut.
    assert (forall_chars ok cut = true) as Hcut_chars.
    { apply (part_chars ok "" cut (w +:+ drop max_length stripped)). by rewrite <- Hwhole. }
    assert (contains "--" cut = false) as Hcut_single.
    { apply (part_contains "--" "" cut (w +:+ drop max_length stripped)).
      by rewrite <- Hwhole. }
    destruct (decide (cut = "")) as [_|Hne]; [apply untitled_is_safe|].
    split_and!; try done; [by apply Hslash|by apply Hstart|lia].
  - apply Nat.ltb_ge in Hlong.
    destruct (decide (stripped = "")) as [_|Hne]; [apply untitled_is_safe|].
    split_and!; try done; [by apply Hslash|by apply Hstart|lia].
Qed.


End SlugProps.

(** ** Files and counters of the storage manager (core/storage.py) *)

Module StorageExtra.
Import PyStr PyStrFacts RecoveryProps SlugProps Storage StorageProps.

(** *** The generated file name *)

Lemma pretty_N_char_digit (x : N) : between 48 57 (pretty_N_char x) = true.
Proof. unfold pretty_N_char. by repeat case_match. Qed.

Lemma pretty_N_go_digits (x : N) (s : string) :
  forall_chars (between 48 57) s = true →
  forall_chars (between 48 57) (pretty_N_go x s) = true.
Proof.
  revert s. induction (N.lt_wf_0 x) as [x _ IH]; intros s Hs.
  assert (x = 0 ∨ 0 < x)%N as [->|Hpos] by lia.
  - by rewrite pretty_N_go_0.
  - rewrite pretty_N_go_step by done. apply IH.
    + by apply N.div_lt.
    + simpl. by rewrite pretty_N_char_digit.
Qed.

Lemma pretty_nat_digits (n : nat) : forall_chars (between 48 57) (pretty n) = true.
Proof.
  unfold pretty, pretty_nat, pretty, pretty_N. case_decide; [done|].
  by apply pretty_N_go_digits.
Qed.

Lemma endswith_app (a suf : string) : endswith (a +:+ suf) suf = true.
Proof.
  induction a as [|c a IH].
  - change ("" +:+ suf) with suf. destruct suf; [done|].
    cbn [endswith]. by rewrite bool_decide_true.
  - rewrite app_cons. cbn [endswith]. rewrite IH. apply orb_true_r.
Qed.

Lemma startswith_app (a b : string) : startswith (a +:+ b) a = true.
Proof.
  unfold startswith. induction a as [|c a IH]; [apply prefix_nil|].
  rewrite app_cons. simpl. by destruct (ascii_dec c c).
Qed.

Lemma candidate_shape (slug : string) (k : nat) :
  ∃ middle, candidate slug k = slug +:+ middle +:+ ".md"
            ∧ forall_chars (λ c, between 48 57 c || bool_decide (c = "-"%char)) middle = true.
Proof.
  destruct k as [|k].
  - by exists "".
  - exists ("-" +:+ pretty (S (S k))). split.
    + unfold candidate. by rewrite !StrFacts.app_assoc.
    + rewrite forall_chars_app. simpl.
      apply (forall_chars_impl (between 48 57)); [|apply pretty_nat_digits].
      intros c ->. done.
Qed.

(** X6. [_generate_filename] always ends and changes nothing. The name it
    returns is the slug of the title, possibly a hyphen and a number, and
    [.md]; it holds no slash, so the file stays in the category directory;
    and no file or directory of that name exists there. *)
Theorem generate_filename_is_fresh_and_local
    (title resource_type : string) (max_length : nat) (st : State) :
  ∃ filename,
    _generate_filename title resource_type max_length st = Some (Ok filename, st)
    ∧ startswith filename (slugify title max_length) = true
    ∧ endswith filename ".md" = true
    ∧ mem_char "/" filename = false
    ∧ Env.path_exists (world st)
        (Env.path_join (Env.path_join (base_path (self st))
                                      (_determine_category resource_type))
                       filename) = false.
Proof.
  unfold _generate_filename.
  destruct (free_name_spec (world st)
              (Env.path_join (base_path (self st)) (_determine_category resource_type))
              (slugify title max_length)) as (k & -> & Hfresh & _).
  exists (candidate (slugify title max_length) k). split; [done|].
  destruct (candidate_shape (slugify title max_length) k) as (middle & Hshape & Hmiddle).
  rewrite Hshape. split_and!.
  - apply startswith_app.
  - rewrite <- StrFacts.app_assoc. apply endswith_app.
  - destruct (slugify_facts title max_length) as (_ & _ & Hslash & _).
    rewrite !mem_char_app, Hslash.
    by rewrite (forall_chars_no_char _ "/" middle eq_refl Hmiddle).
  - by rewrite <- Hshape.
Qed.

(** *** The counters of one save *)

Section SaveStats.

Variables (d : ExtractedContent) (rt url : string) (st0 : State).

(** What a save does to the counters: a save that returns a path counts one
    more file and the length of the document now at that path; a save that
    returns [None] counts one more failure. *)
Let counted (r : result (option string)) (st' : State) : Prop :=
  ∃ out, r = Ok out
    ∧ match out with
      | Some p =>
          saved (stats (self st')) = S (saved (stats (self st0)))
          ∧ stats_failed (stats (self st')) = stats_failed (stats (self st0))
          ∧ ∃ document, Env.files (world st') !! p = Some document
              ∧ total_bytes (stats (self st'))
                = total_bytes (stats (self st0)) + String.length document
      | None =>
          saved (stats (self st')) = saved (stats (self st0))
          ∧ stats_failed (stats (self st')) = S (stats_failed (stats (self st0)))
          ∧ total_bytes (stats (self st')) = total_bytes (stats (self st0))
      end.

Lemma stats_save_handler (e : exn) (st : State) :
  self st = self st0 →
  post (do _ <- modify_self (λ sm, set_stats (mkStats (saved (stats sm))
                                                     (S (stats_failed (stats sm)))
                                                     (total_bytes (stats sm))) sm) ;;
        do _ <- _update_processing_log url "failed" None (Some (exn_msg e)) ;;
        ret None) st counted.
Proof.
  intros Hself.
  apply post_bind, post_modify_self.
  apply post_bind, post_update_processing_log. intros log entry _ _.
  apply post_ret. exists None. split; [done|]. cbn. by rewrite Hself.
Qed.

Lemma stats_save_tail (dir name : string) (st : State) :
  self st = self st0 →
  post (do markdown <- _format_markdown d rt url ;;
        do _ <- write_text dir name markdown ;;
        do _ <- modify_self (λ sm, set_stats (mkStats (S (saved (stats sm)))
                                                   (stats_failed (stats sm))
                                                   (total_bytes (stats sm) + String.length markdown))
                                          sm) ;;
        do _ <- _update_processing_log url "completed"
                  (Some (Env.path_join dir name)) None ;;
        ret (Some (Env.path_join dir name))) st
       (λ r st', match r with
                 | Ok a => counted (Ok a) st'
                 | Raise e =>
                     post (do _ <- modify_self (λ sm, set_stats (mkStats (saved (stats sm))
                                                     (S (stats_failed (stats sm)))
                                                     (total_bytes (stats sm))) sm) ;;
                           do _ <- _update_processing_log url "failed" None (Some (exn_msg e)) ;;
                           ret None) st' counted
                 end).
Proof.
  intros Hself.
  apply post_bind, post_format_markdown.
  apply post_bind, post_write_text; cbn.
  - intros e _. by apply stats_save_handler.
  - intros Hdir. apply post_bind, post_modify_self.
    apply post_bind, post_update_processing_log. intros log entry _ _.
    apply post_ret. exists (Some (Env.path_join dir name)).
    split; [done|]. cbn. rewrite Hself. split_and!; try done.
    eexists. split; [apply lookup_insert_eq|done].
Qed.

End SaveStats.

(** [save_content] with what it does to the files, the log and the
    counters. *)
Lemma save_content_counts (d : ExtractedContent) (rt url : string) (st : State) :
  ∃ out st',
    save_content d rt url st = Some (Ok out, st')
    ∧ save_outcome d rt url st out st'
    ∧ match out with
      | Some p =>
          saved (stats (self st')) = S (saved (stats (self st)))
          ∧ stats_failed (stats (self st')) = stats_failed (stats (self st))
          ∧ ∃ document, Env.files (world st') !! p = Some document
              ∧ total_bytes (stats (self st'))
                = total_bytes (stats (self st)) + String.length document
      | None =>
          saved (stats (self st')) = saved (stats (self st))
          ∧ stats_failed (stats (self st')) = S (stats_failed (stats (self st)))
          ∧ total_bytes (stats (self st')) = total_bytes (stats (self st))
      end.
Proof.
  destruct (save_content_spec d rt url st) as (out & st' & Hrun & Hout).
  exists out, st'. split; [done|]. split; [done|].
  assert (post (save_content d rt url) st
            (λ r st', ∃ out, r = Ok out
               ∧ match out with
                 | Some p =>
                     saved (stats (self st')) = S (saved (stats (self st)))
                     ∧ stats_failed (stats (self st')) = stats_failed (stats (self st))
                     ∧ ∃ document, Env.files (world st') !! p = Some document
                         ∧ total_bytes (stats (self st'))
                           = total_bytes (stats (self st)) + String.length document
                 | None =>
                     saved (stats (self st')) = saved (stats (self st))
                     ∧ stats_failed (stats (self st')) = S (stats_failed (stats (self st)))
                     ∧ total_bytes (stats (self st')) = total_bytes (stats (self st))
                 end)) as (r & st'' & Hrun' & out' & -> & Hstats).
  { unfold save_content. apply post_try.
    apply post_bind, post_generate_filename. intros k dir _ _.
    apply post_bind, post_get. apply post_bind.
    destruct (create_categories (self st)).
    - apply post_mkdir.
      + intros _. by apply (stats_save_handler url st).
      + intros _. by apply (stats_save_tail d rt url st).
    - apply post_ret. by apply (stats_save_tail d rt url st). }
  rewrite Hrun in Hrun'. by injection Hrun' as <- <-.
Qed.

(** *** The saves of a run *)

Lemma path_exists_no_file (w : Env.World) (p : string) :
  Env.path_exists w p = false → Env.files w !! p = None.
Proof.
  unfold Env.path_exists. intros [Hfile _]%orb_false_iff.
  apply bool_decide_eq_false in Hfile. by apply eq_None_not_Some.
Qed.

(** One save, in the terms in which the saves of a run add up. *)
Lemma save_content_step (d : ExtractedContent) (rt url : string) (st : State) :
  ∃ out st',
    save_content d rt url st = Some (Ok out, st')
    ∧ Env.files (world st) ⊆ Env.files (world st')
    ∧ Env.dirs (world st) ⊆ Env.dirs (world st')
    ∧ match out with
      | Some p =>
          Env.path_exists (world st) p = false
          ∧ ∃ document, Env.files (world st') !! p = Some document
              ∧ total_bytes (stats (self st'))
                = total_bytes (stats (self st)) + String.length document
      | None =>
          Env.files (world st') = Env.files (world st)
          ∧ total_bytes (stats (self st')) = total_bytes (stats (self st))
      end
    ∧ saved (stats (self st'))
      = saved (stats (self st)) + (if out is Some _ then 1 else 0)
    ∧ stats_failed (stats (self st'))
      = stats_failed (stats (self st)) + (if out is Some _ then 0 else 1)
    ∧ ∃ e, resources (processing_log (self st'))
           = resources (processing_log (self st)) ++ [e]
        ∧ entry_status e = (if out is Some _ then "completed" else "failed")
        ∧ consistent (processing_log (self st')).
Proof.
  destruct (save_content_counts d rt url st) as (out & st' & Hrun & (k & Hout) & Hstats).
  exists out, st'. split; [done|]. cbn zeta in Hout.
  destruct Hout as (Hfresh & _ & _ & _ & _ & _ & Hdirs & e & [Hres Hcons] & _ & _ & Hcase).
  destruct out as [p|].
  - destruct Hcase as (-> & Hstatus & _ & Hfiles & _).
    destruct Hstats as (Hsaved & Hfailed & Hbytes).
    split_and!; try done.
    + rewrite Hfiles. by apply insert_subseteq, path_exists_no_file.
    + lia.
    + lia.
    + by exists e.
  - destruct Hcase as (Hstatus & _ & Hfiles).
    destruct Hstats as (Hsaved & Hfailed & Hbytes).
    split_and!; try done.
    + by rewrite Hfiles.
    + lia.
    + lia.
    + by exists e.
Qed.

(** The paths a run returned. *)
Lemma save_all_facts (calls : list (ExtractedContent * string * string)) (st : State) :
  ∃ outs st',
    save_all calls st = Some (Ok outs, st')
    ∧ length outs = length calls
    ∧ Env.files (world st) ⊆ Env.files (world st')
    ∧ Env.dirs (world st) ⊆ Env.dirs (world st')
    ∧ (∀ p, p ∈ omap id outs →
            Env.path_exists (world st) p = false
            ∧ is_Some (Env.files (world st') !! p))
    ∧ NoDup (omap id outs)
    ∧ saved (stats (self st')) = saved (stats (self st)) + length (omap id outs)
    ∧ stats_failed (stats (self st')) + length (omap id outs)
      = stats_failed (stats (self st)) + length calls
    ∧ total_bytes (stats (self st'))
      = total_bytes (stats (self st))
        + sum_list ((λ p, String.length (default "" (Env.files (world st') !! p)))
                    <$> omap id outs)
    ∧ count_status "completed" (resources (processing_log (self st')))
      = count_status "completed" (resources (processing_log (self st)))
        + length (omap id outs)
    ∧ count_status "failed" (resources (processing_log (self st')))
      + length (omap id outs)
      = count_status "failed" (resources (processing_log (self st))) + length calls
    ∧ (calls = [] → st' = st)
    ∧ (calls ≠ [] → consistent (processing_log (self st'))).
Proof.
  revert st. induction calls as [|[[d rt] url] calls IH]; intros st.
  - exists [], st. simpl. split_and!; try done; try lia.
    + intros p Hp. by apply elem_of_nil in Hp.
    + constructor.
  - destruct (save_content_step d rt url st)
      as (out & st1 & Hrun & Hfiles & Hdirs & Hcase & Hsaved & Hfailed
          & e & Hres & Hstatus & Hcons).
    destruct (IH st1)
      as (outs & st' & Hrest & Hlen & Hfiles' & Hdirs' & Hpaths & Hnodup & Hsaved'
          & Hfailed' & Hbytes' & Hdone' & Hfail' & Hnil & Hcons').
    exists (out :: outs), st'.
    split; [simpl; unfold bind; by rewrite Hrun, Hrest|].
    rewrite Hres, !count_status_snoc, Hstatus in *.
    assert (∀ p, p ∈ omap id outs →
                 Env.path_exists (world st) p = false
                 ∧ is_Some (Env.files (world st') !! p)) as Hlater.
    { intros p Hp. destruct (Hpaths p Hp) as [Hnew Hthere]. split; [|done].
      destruct (Env.path_exists (world st) p) eqn:Hold; [|done].
      by rewrite (path_exists_mono _ _ _ Hfiles Hdirs Hold) in Hnew. }
    assert (consistent (processing_log (self st'))) as Hfinal.
    { destruct calls; [by rewrite Hnil|by apply Hcons']. }
    assert (Env.files (world st) ⊆ Env.files (world st')) as Hgrow by (by etrans).
    assert (Env.dirs (world st) ⊆ Env.dirs (world st')) as Hgrow' by (by etrans).
    destruct out as [p|].
    + change (omap id (Some p :: outs)) with (p :: omap id outs).
      destruct Hcase as (Hfresh & document & Hdoc & Hbytes).
      assert (Env.files (world st') !! p = Some document) as Hkept.
      { by eapply lookup_weaken. }
      rewrite decide_True in Hdone' by done. rewrite decide_False in Hfail' by done.
      rewrite fmap_cons. cbn [sum_list length]. rewrite Hkept.
      change (default "" (Some document)) with document.
      split_and!; try done; try lia.
      * intros q [->|Hq]%elem_of_cons; [|by apply Hlater]. by rewrite Hkept.
      * constructor; [|done]. intros Hp. destruct (Hpaths p Hp) as [Hnew _].
        by rewrite (path_exists_file _ _ _ Hdoc) in Hnew.
      * change (id (String.length document)) with (String.length document). lia.
    + change (omap id (None :: outs)) with (omap id outs).
      destruct Hcase as (Hsame & Hbytes).
      rewrite decide_False in Hdone' by done. rewrite decide_True in Hfail' by done.
      cbn [length].
      split_and!; try done; try lia.
Qed.

(** X7. The saves of a run never change or remove a file or a directory
    that was there before: every file keeps its text. Every path a save
    returned named nothing when the run started and is a file when it ends,
    and no two saves of the run return the same path. *)
Theorem saves_keep_existing_files
    (calls : list (ExtractedContent * string * string)) (st : State) :
  ∃ outs st',
    save_all calls st = Some (Ok outs, st')
    ∧ (∀ p text, Env.files (world st) !! p = Some text →
                 Env.files (world st') !! p = Some text)
    ∧ Env.dirs (world st) ⊆ Env.dirs (world st')
    ∧ (∀ p, Some p ∈ outs →
            Env.path_exists (world st) p = false
            ∧ is_Some (Env.files (world st') !! p))
    ∧ NoDup (omap id outs).
Proof.
  destruct (save_all_facts calls st)
    as (outs & st' & Hrun & _ & Hfiles & Hdirs & Hpaths & Hnodup & _).
  exists outs, st'. split_and!; try done.
  - intros p text Hp. by eapply lookup_weaken.
  - intros p Hp. apply Hpaths. apply list_elem_of_omap. by exists (Some p).
Qed.

(** X8. The counters of the storage manager and the processing log move
    together. Over the saves of a run, [saved] grows by the number of saves
    that returned a path and [failed] by the number of the others; when the
    log's counts agreed with its entries at the start, its [successful] and
    [failed] counts grow by the same two numbers and [total_processed] by
    the number of saves. *)
Theorem storage_counters_follow_the_log
    (calls : list (ExtractedContent * string * string)) (st : State) :
  consistent (processing_log (self st)) →
  ∃ outs st',
    save_all calls st = Some (Ok outs, st')
    ∧ length outs = length calls
    ∧ saved (stats (self st')) = saved (stats (self st)) + length (omap id outs)
    ∧ stats_failed (stats (self st')) + length (omap id outs)
      = stats_failed (stats (self st)) + length calls
    ∧ successful (processing_log (self st'))
      = successful (processing_log (self st)) + length (omap id outs)
    ∧ failed (processing_log (self st')) + length (omap id outs)
      = failed (processing_log (self st)) + length calls
    ∧ total_processed (processing_log (self st'))
      = total_processed (processing_log (self st)) + length calls.
Proof.
  intros (Htotal & Hdone & Hfail).
  destruct (save_all_facts calls st)
    as (outs & st' & Hrun & Hlen & _ & _ & _ & _ & Hsaved & Hfailed & _
        & Hdone' & Hfail' & Hnil & Hcons).
  exists outs, st'. split_and!; try done.
  - destruct calls; [rewrite Hnil by done; destruct outs; simpl in *; lia|].
    destruct Hcons as (_ & -> & _); [done|]. lia.
  - destruct calls; [rewrite Hnil by done; destruct outs; simpl in *; lia|].
    destruct Hcons as (_ & _ & ->); [done|]. lia.
  - destruct calls as [|c calls].
    + rewrite Hnil by done. simpl. lia.
    + destruct Hcons as (-> & _ & _); [done|].
      destruct (save_all_spec (c :: calls) st)
        as (outs2 & st2 & Hrun2 & _ & _ & (new & Hnew & Hnewlen) & _).
      rewrite Hrun in Hrun2. injection Hrun2 as <- <-.
      rewrite Hnew, length_app, Hnewlen. lia.
Qed.

Lemma storage_counters_witness :
  consistent (processing_log (self Sample.start))
  ∧ ∃ outs st',
      save_all Sample.two_saves Sample.start = Some (Ok outs, st')
      ∧ length outs = length Sample.two_saves
      ∧ saved (stats (self st')) = saved (stats (self Sample.start)) + length (omap id outs)
      ∧ stats_failed (stats (self st')) + length (omap id outs)
        = stats_failed (stats (self Sample.start)) + length Sample.two_saves
      ∧ successful (processing_log (self st'))
        = successful (processing_log (self Sample.start)) + length (omap id outs)
      ∧ failed (processing_log (self st')) + length (omap id outs)
        = failed (processing_log (self Sample.start)) + length Sample.two_saves
      ∧ total_processed (processing_log (self st'))
        = total_processed (processing_log (self Sample.start)) + length Sample.two_saves.
Proof.
  assert (H : consistent (processing_log (self Sample.start))) by (by vm_compute).
  split; [exact H|].
  exact (storage_counters_follow_the_log Sample.two_saves Sample.start H).
Defined.

(** X9. Over the saves of a run [total_bytes] grows by the total length, in
    characters, of the documents that stand at the returned paths when the
    run ends. *)
Theorem total_bytes_is_the_length_of_the_saved_documents
    (calls : list (ExtractedContent * string * string)) (st : State) :
  ∃ outs st',
    save_all calls st = Some (Ok outs, st')
    ∧ total_bytes (stats (self st'))
      = total_bytes (stats (self st))
        + sum_list ((λ p, String.length (default "" (Env.files (world st') !! p)))
                    <$> omap id outs).
Proof.
  destruct (save_all_facts calls st)
    as (outs & st' & Hrun & _ & _ & _ & _ & _ & _ & _ & Hbytes & _).
  by exists outs, st'.
Qed.


End StorageExtra.

(** ** More on classification (core/detector.py) *)

Module DetectorExtra.
Import PyStr PyStrFacts RecoveryProps SlugProps Detector DetectorProps.

(** *** White space around a URL *)

Lemma lstrip_by_all (p : ascii → bool) (s : string) :
  forall_chars p s = true → lstrip_by p s = "".
Proof.
  induction s as [|c s IH]; [done|]. simpl. intros [-> Hs]%andb_true_iff. auto.
Qed.

Lemma rstrip_by_blank (p : ascii → bool) (s : string) :
  forall_chars p s = true → rstrip_by p s = "".
Proof.
  induction s as [|c s IH]; [done|]. simpl. intros [-> Hs]%andb_true_iff.
  by rewrite IH.
Qed.

Lemma rstrip_by_app (p : ascii → bool) (s post : string) :
  forall_chars p post = true → rstrip_by p (s +:+ post) = rstrip_by p s.
Proof.
  intros Hpost. induction s as [|c s IH].
  - change ("" +:+ post) with post. by apply rstrip_by_blank.
  - rewrite app_cons. simpl. by rewrite IH.
Qed.

Lemma strip_by_app_r (p : ascii → bool) (s post : string) :
  forall_chars p post = true → strip_by p (s +:+ post) = strip_by p s.
Proof.
  intros Hpost. unfold strip_by. induction s as [|c s IH].
  - change ("" +:+ post) with post. by rewrite lstrip_by_all.
  - rewrite app_cons. simpl. destruct (p c); [done|].
    rewrite <- app_cons. by apply rstrip_by_app.
Qed.

(** White space before and after a text does not survive [strip]. *)
Lemma strip_padded (pre s post : string) :
  forall_chars isspace pre = true → forall_chars isspace post = true →
  strip (pre +:+ s +:+ post) = strip s.
Proof.
  intros Hpre Hpost. unfold strip.
  rewrite <- (strip_by_app_r isspace s post Hpost).
  unfold strip_by. by rewrite lstrip_by_app.
Qed.

(** *** The video id *)

Lemma take_drop_while (p : ascii → bool) (s : string) :
  s = take_while p s +:+ drop_while p s.
Proof.
  induction s as [|c s IH]; [done|]. simpl. destruct (p c); [|done].
  rewrite app_cons. by f_equal.
Qed.

Lemma take_while_forall (p : ascii → bool) (s : string) :
  forall_chars p (take_while p s) = true.
Proof.
  induction s as [|c s IH]; [done|]. simpl. destruct (p c) eqn:Hc; [|done].
  simpl. by rewrite Hc.
Qed.

Lemma startswith_v (s : string) :
  startswith s "v=" = true → s = "v=" +:+ drop 2 s.
Proof.
  unfold startswith. destruct s as [|a [|b s]]; cbn [String.prefix drop]; try done.
  - by destruct (ascii_dec "v" a).
  - destruct (ascii_dec "v" a) as [<-|]; [|done].
    destruct (ascii_dec "=" b) as [<-|]; [|done]. done.
Qed.

(** What [re.search(r'[?&]v=([^&]+)', url)] finds is the value of a
    parameter [v]: it follows [?v=] or [&v=], is not empty, holds no [&]
    and runs to the next [&] or to the end of the URL. *)
Lemma search_video_id_sound (url v : string) :
  search_video_id url = Some v →
  ∃ pre c post,
    url = pre +:+ String c ("v=" +:+ v +:+ post)
    ∧ mem_char c "?&" = true
    ∧ v ≠ ""
    ∧ mem_char "&" v = false
    ∧ (post = "" ∨ ∃ rest, post = String "&" rest).
Proof.
  induction url as [|c rest IH]; [done|]. cbn [search_video_id].
  set (p := λ d : ascii, negb (bool_decide (d = "&"%char))).
  set (value := take_while p (drop 2 rest)).
  destruct (mem_char c "?&" && startswith rest "v=" && negb (bool_decide (value = "")))
    eqn:Hmatch.
  - apply andb_true_iff in Hmatch as [[Hc Hv]%andb_true_iff Hvalue].
    apply negb_true_iff, bool_decide_eq_false in Hvalue.
    intros [= <-]. exists "", c, (drop_while p (drop 2 rest)).
    split_and!; try done.
    + change ("" +:+ ?x) with x. f_equal.
      rewrite (startswith_v rest Hv) at 1. f_equal. apply take_drop_while.
    + apply (forall_chars_no_char p); [done|]. apply take_while_forall.
    + destruct (UrlProps.drop_while_head p (drop 2 rest)) as [->|(d & r & -> & Hd)];
        [by left|right].
      exists r. apply negb_false_iff, bool_decide_eq_true in Hd. by subst d.
  - intros Hrest. destruct (IH Hrest) as (pre & c' & post & -> & H).
    by exists (String c pre), c', post.
Qed.

(** It finds one whenever the URL has a parameter [v] with a value. *)
Lemma search_video_id_complete (pre rest : string) (c d : ascii) :
  mem_char c "?&" = true → d ≠ "&"%char →
  is_Some (search_video_id (pre +:+ String c ("v=" +:+ String d rest))).
Proof.
  intros Hc Hd. induction pre as [|x pre IH].
  - change ("" +:+ ?x) with x. cbn [search_video_id]. rewrite Hc.
    change (startswith ("v=" +:+ String d rest) "v=") with true.
    change (drop 2 ("v=" +:+ String d rest)) with (String d rest).
    cbn [take_while]. rewrite (bool_decide_false (d = "&"%char)) by done.
    cbn [negb]. rewrite bool_decide_false by done. by simpl.
  - rewrite app_cons. cbn [search_video_id].
    destruct (_ && _ && _); [done|apply IH].
Qed.

Section Classify.

Variable check : string → option string.

Lemma classify_padded (pre url post : string) :
  forall_chars isspace pre = true → forall_chars isspace post = true →
  classify check (pre +:+ url +:+ post) = classify check url.
Proof. intros Hpre Hpost. unfold classify. by rewrite strip_padded. Qed.

(** X11. White space around a URL changes nothing: [detect_type] returns
    the same type and metadata, or raises the same exception, and counts the
    same way, with or without it. *)
Theorem detect_type_ignores_surrounding_white_space
    (counters : gmap string nat) (pre url post : string) :
  forall_chars isspace pre = true → forall_chars isspace post = true →
  detect_type check counters (pre +:+ url +:+ post) = detect_type check counters url.
Proof. intros Hpre Hpost. unfold detect_type. by rewrite classify_padded. Qed.

Lemma classify_type (url resource_type : string) (metadata : gmap string string) :
  classify check url = Ok (resource_type, metadata) →
  resource_type ∈ [TYPE_GITHUB; TYPE_YOUTUBE; TYPE_BLOG; TYPE_ARTICLE].
Proof.
  intros Hc. destruct (urlparse check (strip url)) as [parsed|e] eqn:Hp.
  2: { unfold classify in Hc. by rewrite Hp in Hc. }
  pose proof (classify_parsed check url parsed Hp) as Hcase. cbv zeta in Hcase.
  destruct (is_github _ _); [rewrite Hcase in Hc; injection Hc as <- _; set_solver|].
  destruct (is_youtube _ _).
  { destruct Hcase as (md & Hcase & _). rewrite Hcase in Hc. injection Hc as <- _.
    set_solver. }
  destruct (is_blog _ _); rewrite Hcase in Hc; injection Hc as <- _; set_solver.
Qed.

(** X12. [detect_type] raises the counter of the type it returns by one and
    leaves every other counter alone; when it raises, no counter moves. The
    counter of ['unknown'] never moves. *)
Theorem detect_type_counts_the_returned_type
    (counters : gmap string nat) (url : string) :
  let counters' := (detect_type check counters url).2 in
  counters' !! TYPE_UNKNOWN = counters !! TYPE_UNKNOWN
  ∧ match (detect_type check counters url).1 with
    | Ok (resource_type, _) =>
        counters' !! resource_type = S <$> counters !! resource_type
        ∧ ∀ other, other ≠ resource_type → counters' !! other = counters !! other
    | Raise _ => counters' = counters
    end.
Proof.
  unfold detect_type. destruct (classify check url) as [[ty md]|e] eqn:Hc; simpl; [|done].
  pose proof (classify_type _ _ _ Hc) as Hty.
  split_and!.
  - rewrite lookup_alter_ne; [done|]. intros ->.
    set_solver.
  - by rewrite lookup_alter_eq.
  - intros other Hne. by rewrite lookup_alter_ne.
Qed.

(** X13. What is classified is never stored under [other]: the category
    [_determine_category] gives for the type [detect_type] returned is one
    of the four named directories, and two URLs of different types go to
    different directories. *)
Theorem classified_content_has_a_directory_of_its_type
    (counters counters' : gmap string nat) (url url' ty ty' : string)
    (md md' : gmap string string) :
  (detect_type check counters url).1 = Ok (ty, md) →
  (detect_type check counters' url').1 = Ok (ty', md') →
  Storage._determine_category ty
    ∈ ["github-repos"; "youtube-videos"; "blog-posts"; "articles"]
  ∧ Storage._determine_category ty ≠ "other"
  ∧ (Storage._determine_category ty = Storage._determine_category ty' → ty = ty').
Proof.
  rewrite !detect_type_classify. intros Hc Hc'.
  pose proof (classify_type _ _ _ Hc) as Hty.
  pose proof (classify_type _ _ _ Hc') as Hty'.
  repeat (apply elem_of_cons in Hty as [->|Hty]); [..|by apply elem_of_nil in Hty];
    (split_and!; [vm_compute; set_solver|by vm_compute|]);
    repeat (apply elem_of_cons in Hty' as [->|Hty']); try (by apply elem_of_nil in Hty');
    by vm_compute.
Qed.

(** X14. The search for the video id of a [youtube.com] URL,
    [re.search(r'[?&]v=([^&]+)', url)]: when it finds an id, the id follows
    [?v=] or [&v=] in the URL, is not empty, holds no [&] and runs to the
    next [&] or to the end; and it finds one whenever the URL holds [?v=] or
    [&v=] followed by a character other than [&]. *)
Theorem video_id_is_the_value_of_the_v_parameter (url : string) :
  (∀ v, search_video_id url = Some v →
     ∃ pre c post,
       url = pre +:+ String c ("v=" +:+ v +:+ post)
       ∧ mem_char c "?&" = true
       ∧ v ≠ ""
       ∧ mem_char "&" v = false
       ∧ (post = "" ∨ ∃ rest, post = String "&" rest))
  ∧ (∀ pre c d rest,
       url = pre +:+ String c ("v=" +:+ String d rest) →
       mem_char c "?&" = true → d ≠ "&"%char →
       is_Some (search_video_id url)).
Proof.
  split.
  - intros v. apply search_video_id_sound.
  - intros pre c d rest -> Hc Hd. by apply search_video_id_complete.
Qed.

Lemma classify_youtube (url : string) (parsed : Url.ParseResult)
    (metadata : gmap string string) :
  urlparse check (strip url) = Ok parsed →
  classify check url = Ok (TYPE_YOUTUBE, metadata) →
  parse_youtube_url check (strip url) = Ok metadata.
Proof.
  intros Hp. unfold classify. rewrite Hp. cbn [result_bind].
  destruct (is_github _ _).
  { rewrite (parse_github_url_parsed check _ _ Hp). by intros [= ? ?]. }
  destruct (is_youtube _ _).
  { destruct (parse_youtube_url check (strip url)); [|done]. by intros [= ->]. }
  destruct (is_blog _ _); by intros [= ? ?].
Qed.

Lemma path_parts_nonempty (path part : string) :
  part ∈ path_parts path → part ≠ "".
Proof. unfold path_parts. by intros [? _]%list_elem_of_filter. Qed.

(** X15. The metadata of a youtube-video holds the domain and at most a
    video id. A video id is never empty, and it is there only when the host
    as it is written in the URL, capitals included, contains [youtube.com]
    or [youtu.be]: the id found by the search in the first case, the first
    path segment in the second. *)
Theorem youtube_video_id_needs_the_host_in_lower_case
    (counters : gmap string nat) (url : string) (parsed : Url.ParseResult)
    (metadata : gmap string string) :
  urlparse check (strip url) = Ok parsed →
  (detect_type check counters url).1 = Ok (TYPE_YOUTUBE, metadata) →
  metadata !! "domain" = Some "youtube.com"
  ∧ dom metadata ⊆ {[ "domain"; "video_id" ]}
  ∧ ∀ v, metadata !! "video_id" = Some v →
      v ≠ ""
      ∧ if contains "youtube.com" (Url.netloc parsed)
        then search_video_id (strip url) = Some v
        else contains "youtu.be" (Url.netloc parsed) = true
             ∧ head (path_parts (Url.path parsed)) = Some v.
Proof.
  intros Hp. rewrite detect_type_classify. intros Hc.
  apply (classify_youtube _ _ _ Hp) in Hc. unfold parse_youtube_url in Hc.
  rewrite Hp in Hc. cbn [result_bind] in Hc.
  destruct (contains "youtube.com" (Url.netloc parsed)).
  - destruct (search_video_id (strip url)) as [v|] eqn:Hv; injection Hc as <-.
    + split_and!; [by simplify_map_eq|set_solver|].
      intros v' Hv'. simplify_map_eq. split; [|done].
      by destruct (search_video_id_sound _ _ Hv) as (? & ? & ? & _ & _ & ? & _).
    + split_and!; [by simplify_map_eq|set_solver|]. intros v' Hv'. by simplify_map_eq.
  - destruct (contains "youtu.be" (Url.netloc parsed)).
    + destruct (path_parts (Url.path parsed)) as [|v parts] eqn:Hparts; injection Hc as <-.
      * split_and!; [by simplify_map_eq|set_solver|]. intros v' Hv'. by simplify_map_eq.
      * split_and!; [by simplify_map_eq|set_solver|].
        intros v' Hv'. simplify_map_eq. split_and!; try done.
        apply (path_parts_nonempty (Url.path parsed)). rewrite Hparts. left.
    + injection Hc as <-.
      split_and!; [by simplify_map_eq|set_solver|]. intros v' Hv'. by simplify_map_eq.
Qed.

End Classify.

Lemma detect_type_white_space_witness :
  forall_chars isspace "  " = true
  ∧ forall_chars isspace (String "010" "") = true
  ∧ detect_type Sample.no_bracket_check init_stats
      ("  " +:+ "https://github.com/acme/widgets" +:+ String "010" "")
    = detect_type Sample.no_bracket_check init_stats "https://github.com/acme/widgets".
Proof.
  split_and!; [by vm_compute..|].
  apply (detect_type_ignores_surrounding_white_space
           Sample.no_bracket_check init_stats "  " "https://github.com/acme/widgets"
           (String "010" "")); by vm_compute.
Defined.

Lemma classified_directory_witness :
  (detect_type Sample.no_bracket_check init_stats "https://dev.to/post/1").1
  = Ok (TYPE_BLOG, {[ "domain" := "dev.to" ]})
  ∧ (detect_type Sample.no_bracket_check init_stats "https://example.com/about").1
    = Ok (TYPE_ARTICLE, {[ "domain" := "example.com" ]})
  ∧ Storage._determine_category TYPE_BLOG
      ∈ ["github-repos"; "youtube-videos"; "blog-posts"; "articles"]
  ∧ Storage._determine_category TYPE_BLOG ≠ "other"
  ∧ (Storage._determine_category TYPE_BLOG = Storage._determine_category TYPE_ARTICLE →
     TYPE_BLOG = TYPE_ARTICLE).
Proof.
  assert ((detect_type Sample.no_bracket_check init_stats "https://dev.to/post/1").1
          = Ok (TYPE_BLOG, {[ "domain" := "dev.to" ]})) as H1
    by (vm_compute; reflexivity).
  assert ((detect_type Sample.no_bracket_check init_stats "https://example.com/about").1
          = Ok (TYPE_ARTICLE, {[ "domain" := "example.com" ]})) as H2
    by (vm_compute; reflexivity).
  split; [exact H1|]. split; [exact H2|].
  exact (classified_content_has_a_directory_of_its_type
           Sample.no_bracket_check init_stats init_stats
           "https://dev.to/post/1" "https://example.com/about"
           TYPE_BLOG TYPE_ARTICLE
           {[ "domain" := "dev.to" ]} {[ "domain" := "example.com" ]} H1 H2).
Defined.

(** A host written in capitals: the URL is a youtube-video and its metadata
    holds no video id. *)
Lemma youtube_video_id_witness :
  urlparse Sample.no_bracket_check (strip "https://WWW.YOUTUBE.COM/watch?v=abc123")
  = Ok (Url.mkParse "https" "WWW.YOUTUBE.COM" "/watch" "" "v=abc123" "")
  ∧ (detect_type Sample.no_bracket_check init_stats
       "https://WWW.YOUTUBE.COM/watch?v=abc123").1
    = Ok (TYPE_YOUTUBE, {[ "domain" := "youtube.com" ]})
  ∧ ({[ "domain" := "youtube.com" ]} : gmap string string) !! "video_id" = None
  ∧ ({[ "domain" := "youtube.com" ]} : gmap string string) !! "domain"
    = Some "youtube.com".
Proof.
  assert (urlparse Sample.no_bracket_check (strip "https://WWW.YOUTUBE.COM/watch?v=abc123")
          = Ok (Url.mkParse "https" "WWW.YOUTUBE.COM" "/watch" "" "v=abc123" ""))
    as H1 by (by vm_compute).
  assert ((detect_type Sample.no_bracket_check init_stats
             "https://WWW.YOUTUBE.COM/watch?v=abc123").1
          = Ok (TYPE_YOUTUBE, {[ "domain" := "youtube.com" ]})) as H2 by (by vm_compute).
  split; [exact H1|]. split; [exact H2|]. split; [done|].
  exact (proj1 (youtube_video_id_needs_the_host_in_lower_case
                  Sample.no_bracket_check init_stats
                  "https://WWW.YOUTUBE.COM/watch?v=abc123"
                  (Url.mkParse "https" "WWW.YOUTUBE.COM" "/watch" "" "v=abc123" "")
                  {[ "domain" := "youtube.com" ]} H1 H2)).
Defined.

End DetectorExtra.

(** ** The run as a whole (main.py) *)

Module OrchestratorExtra.
Import Orchestrator OrchestratorProps.

Notation saved_files self := (Storage.saved (Storage.stats (Storage.self (storage self)))).
Notation failed_saves self :=
  (Storage.stats_failed (Storage.stats (Storage.self (storage self)))).
Notation log_entries self :=
  (Storage.resources (Storage.processing_log (Storage.self (storage self)))).
Notation files_of self := (Env.files (Storage.world (storage self))).
Notation url_of r := (PyStr.strip (default "" (Loader.res_url r))).

Section Run.

Variable check : string → option string.
Variable extract : string → gmap string string → result Storage.ExtractedContent.






(** X18. When the manifest could not be loaded, or holds no valid resource,
    [process_all] processes nothing: it records the start, sets [total] only
    in the second case (to zero), and returns; the counts of successes and
    failures, the end time, the files, the in-memory log and the log on
    disk are as they were. *)
Theorem process_all_with_nothing_to_process (e : exn) (self : SmartExtractor) :
  ∃ after_error after_empty,
    process_all check extract (Raise e) self = Some after_error
    ∧ process_all check extract (Ok []) self = Some after_empty
    ∧ total (stats after_error) = total (stats self)
    ∧ total (stats after_empty) = 0
    ∧ Forall (λ final,
        successful (stats final) = successful (stats self)
        ∧ failed (stats final) = failed (stats self)
        ∧ is_Some (start_time (stats final))
        ∧ end_time (stats final) = end_time (stats self)
        ∧ detection_stats final = detection_stats self
        ∧ Storage.self (storage final) = Storage.self (storage self)
        ∧ Storage.log_file (storage final) = Storage.log_file (storage self)
        ∧ files_of final = files_of self)
      [after_error; after_empty].
Proof.
  unfold process_all, read_clock. cbv beta iota zeta.
  eexists _, _. split; [done|]. split; [done|]. simpl.
  split_and!; try done. repeat constructor; by simpl.
Qed.

End Run.




End OrchestratorExtra.

(** ** Extraction (extractors/base.py, extractors/fallback.py) *)

Module ExtractorProps.
Import PyStr PyStrFacts RecoveryProps SlugProps DetectorExtra Extractor.

(** *** Blank text *)

Lemma rstrip_by_nil (p : ascii → bool) (s : string) :
  rstrip_by p s = "" → forall_chars p s = true.
Proof.
  induction s as [|c s IH]; [done|]. simpl.
  destruct (rstrip_by p s) as [|d r]; [|done].
  destruct (p c); [|done]. intros _. by rewrite IH.
Qed.

Lemma strip_blank (s : string) : strip s = "" ↔ forall_chars isspace s = true.
Proof.
  split; [|apply strip_all_space].
  unfold strip, strip_by. intros Hs. apply rstrip_by_nil in Hs.
  destruct (lstrip_by_split isspace s) as (w & Hw & Hall).
  destruct (lstrip_by_head isspace s) as [Hnil|(c & r & Hcr & Hc)].
  - rewrite Hw, Hnil, forall_chars_app. by rewrite Hall.
  - rewrite Hcr in Hs. simpl in Hs. by rewrite Hc in Hs.
Qed.

Lemma field_passes_iff (value : option string) :
  field_passes value = true
  ↔ ∃ text, value = Some text ∧ forall_chars isspace text = false.
Proof.
  unfold field_passes. destruct value as [text|]; [|naive_solver].
  destruct (forall_chars isspace text) eqn:Hblank.
  - rewrite (bool_decide_true (strip text = "")) by (by apply strip_blank).
    rewrite orb_true_r. naive_solver.
  - assert (strip text ≠ "") as Hstrip.
    { intros H%strip_blank. congruence. }
    assert (text ≠ "") as Htext by (by intros ->).
    rewrite !bool_decide_false by done. simpl. split; [|done]. intros _. by exists text.
Qed.

Lemma validate_extracted_data_spec (data : Storage.ExtractedContent) :
  validate_extracted_data data = true
  ↔ ∃ title content,
      Storage.title data = Some title
      ∧ Storage.content data = Some content
      ∧ forall_chars isspace title = false
      ∧ forall_chars isspace content = false.
Proof.
  unfold validate_extracted_data. simpl. rewrite andb_true_r, andb_true_iff.
  rewrite !field_passes_iff. naive_solver.
Qed.

(** X20. [validate_extracted_data] accepts exactly the data that have a
    title and a content which each hold a character that is not white
    space; the description and the metadata play no part. *)
Theorem validate_extracted_data_iff_title_and_content_not_blank
    (data : Storage.ExtractedContent) :
  validate_extracted_data data = true
  ↔ ∃ title content,
      Storage.title data = Some title
      ∧ Storage.content data = Some content
      ∧ forall_chars isspace title = false
      ∧ forall_chars isspace content = false.
Proof. apply validate_extracted_data_spec. Qed.

(** *** Words *)

Lemma words_from_spec (s word : string) :
  forall_chars (λ c, negb (isspace c)) word = true →
  Forall (λ w, w ≠ "" ∧ forall_chars (λ c, negb (isspace c)) w = true) (words_from word s)
  ∧ Loader.concat_texts (words_from word s)
    = word +:+ filter_chars (λ c, negb (isspace c)) s
  ∧ (words_from word s = [] ↔ word = "" ∧ forall_chars isspace s = true).
Proof.
  revert word. induction s as [|c s IH]; intros word Hword.
  - simpl. destruct (decide (word = "")) as [->|Hne].
    + by split_and!.
    + split_and!.
      * by repeat constructor.
      * simpl. by rewrite !StrFacts.app_nil_r.
      * naive_solver.
  - cbn [words_from filter_chars forall_chars]. destruct (isspace c) eqn:Hc; cbn [negb andb].
    + destruct (IH "" eq_refl) as (Hall & Hcat & Hnil).
      destruct (decide (word = "")) as [->|Hne]; [done|].
      split_and!.
      * by constructor.
      * cbn [Loader.concat_texts foldr]. fold (Loader.concat_texts (words_from "" s)).
        by rewrite Hcat.
      * naive_solver.
    + destruct (IH (word +:+ String c "")) as (Hall & Hcat & Hnil).
      { rewrite forall_chars_app, Hword. simpl. by rewrite Hc. }
      split_and!; [done| |].
      * rewrite Hcat, StrFacts.app_assoc. done.
      * rewrite Hnil. split; [|naive_solver]. intros [Hw _]. by destruct word.
Qed.

(** X21. [s.split()]: every word it returns is non-empty and free of white
    space; the words, in their order, hold exactly the characters of the
    text that are not white space; and there is no word exactly when the
    text is blank. *)
Theorem split_whitespace_gives_the_words (s : string) :
  Forall (λ w, w ≠ "" ∧ forall_chars (λ c, negb (isspace c)) w = true) (split_whitespace s)
  ∧ Loader.concat_texts (split_whitespace s) = filter_chars (λ c, negb (isspace c)) s
  ∧ (split_whitespace s = [] ↔ forall_chars isspace s = true).
Proof.
  destruct (words_from_spec s "" eq_refl) as (Hall & Hcat & Hnil).
  split_and!; [done|done|]. unfold split_whitespace. rewrite Hnil. naive_solver.
Qed.

Section Fallback.

Variable _fetch_html : string → result string.
Variables _extract_title _extract_description _extract_content : string → result string.

Notation extract := (extract _fetch_html _extract_title _extract_description _extract_content).

(** X22. What [FallbackExtractor.extract] returns has passed validation:
    a title and a content that are not blank, a description, and metadata
    with the URL, the extractor's name and a word count that is the number
    of words of the content and at least one; the count of extractions
    rises by one. The call raises when fetching or reading the page raises,
    and raises [ValueError] when the title or the content is blank; then
    the count of extractions stays. *)
Theorem extract_returns_validated_content
    (url : string) (metadata : option (gmap string string)) (count : nat) (w : Env.World) :
  match extract url metadata count w with
  | (Ok data, count', w') =>
      count' = S count
      ∧ validate_extracted_data data = true
      ∧ is_Some (Storage.description data)
      ∧ ∃ title content md,
          Storage.title data = Some title
          ∧ Storage.content data = Some content
          ∧ Storage.metadata data = Some md
          ∧ forall_chars isspace title = false
          ∧ forall_chars isspace content = false
          ∧ Storage.md_url md = Some url
          ∧ Storage.md_extractor md = Some "fallback"
          ∧ Storage.md_extracted_at md = Some (Env.isoformat w (Env.clock w))
          ∧ Storage.md_word_count md = Some (length (split_whitespace content))
          ∧ 1 ≤ length (split_whitespace content)
  | (Raise e, count', w') =>
      count' = count
      ∧ (∀ html title description content,
           _fetch_html url = Ok html → _extract_title html = Ok title →
           _extract_description html = Ok description →
           _extract_content html = Ok content →
           e = Exn ValueError "Extracted data validation failed"
           ∧ (forall_chars isspace title = true ∨ forall_chars isspace content = true))
  end.
Proof.
  unfold Extractor.extract.
  destruct (_fetch_html url) as [html|e] eqn:Hhtml;
    [|split; [done|intros; congruence]].
  destruct (_extract_title html) as [title|e] eqn:Htitle;
    [|split; [done|intros; congruence]].
  destruct (_extract_description html) as [description|e] eqn:Hdescription;
    [|split; [done|intros; congruence]].
  destruct (_extract_content html) as [content|e] eqn:Hcontent;
    [|split; [done|intros; congruence]].
  cbv zeta.
  match goal with |- context [validate_extracted_data ?d] => set (data := d) end.
  destruct (validate_extracted_data data) eqn:Hvalid.
  - split; [done|]. split; [done|]. split; [by eexists|].
    apply validate_extracted_data_spec in Hvalid
      as (t & c & [= <-] & [= <-] & Ht & Hc).
    exists title, content. eexists. split_and!; try done.
    + simpl. unfold word_count. rewrite decide_False; [done|].
      intros ->. simpl in Hc. discriminate.
    + destruct (words_from_spec content "" eq_refl) as (_ & _ & Hnil).
      destruct (split_whitespace content) eqn:Hwords; [|simpl; lia].
      destruct Hnil as [Hnil _]. destruct (Hnil Hwords) as [_ Hblank]. congruence.
  - split; [done|]. intros html0 title0 description0 content0 [= <-] Ht0 _ Hc0.
    rewrite Htitle in Ht0. rewrite Hcontent in Hc0.
    injection Ht0 as <-. injection Hc0 as <-. split; [done|].
    destruct (forall_chars isspace title) eqn:Ht; [by left|].
    destruct (forall_chars isspace content) eqn:Hc; [by right|].
    exfalso. assert (validate_extracted_data data = true) as Hok; [|congruence].
    apply validate_extracted_data_spec.
    by exists title, content.
Qed.

End Fallback.

(** *** Lines *)

Lemma split_char_cons (c d : ascii) (s : string) :
  ∃ hd tl, split_char c s = hd :: tl
    ∧ split_char c (String d s)
      = if bool_decide (d = c) then "" :: hd :: tl else String d hd :: tl.
Proof.
  simpl. destruct (split_char c s) as [|hd tl] eqn:Hs.
  - pose proof (split_char_length c s) as Hlen. by rewrite Hs in Hlen.
  - by exists hd, tl.
Qed.

Lemma split_char_parts (c : ascii) (s part : string) :
  part ∈ split_char c s → mem_char c part = false ∧ chars_within part s.
Proof.
  revert part. induction s as [|d s IH]; intros part.
  - simpl. by intros ->%list_elem_of_singleton.
  - destruct (split_char_cons c d s) as (hd & tl & Hs & ->). rewrite Hs in IH.
    case_bool_decide as Hd.
    + intros [->|Hin]%elem_of_cons; [done|].
      destruct (IH part Hin) as [? ?]. split; [done|]. by apply chars_within_tail.
    + intros [->|Hin]%elem_of_cons.
      * destruct (IH hd) as [Hno Hin]; [by left|]. split.
        -- simpl. rewrite Hno. rewrite bool_decide_false; [done|congruence].
        -- by apply chars_within_cons.
      * destruct (IH part) as [? ?]; [by right|]. split; [done|].
        by apply chars_within_tail.
Qed.

Lemma split_char_empty (c : ascii) (s : string) : split_char c s = [""] → s = "".
Proof.
  destruct s as [|d s]; [done|].
  destruct (split_char_cons c d s) as (hd & tl & _ & ->). by case_bool_decide.
Qed.

Lemma split_join_lines (lines : list string) :
  lines ≠ [] → Forall (λ line, mem_char "010" line = false) lines →
  split_char "010" (join_lines lines) = lines.
Proof.
  induction lines as [|line lines IH]; [done|]. intros _ Hall.
  apply Forall_cons in Hall as [Hline Hall].
  destruct lines as [|line' lines].
  - simpl. by apply split_char_none.
  - change (join_lines (line :: line' :: lines))
      with (line +:+ String "010" (join_lines (line' :: lines))).
    rewrite split_char_app by done. f_equal. by apply IH.
Qed.

Lemma chars_within_forall (p : ascii → bool) (s t : string) :
  chars_within s t → forall_chars p t = true → forall_chars p s = true.
Proof.
  intros Hin Ht. induction s as [|c s IH]; [done|]. simpl.
  rewrite IH.
  - rewrite andb_true_r. destruct (p c) eqn:Hc; [done|].
    assert (mem_char c t = true) as Hmem.
    { apply Hin. simpl. by rewrite bool_decide_true. }
    by rewrite (forall_chars_no_char p c t Hc Ht) in Hmem.
  - intros d Hd. apply Hin. simpl. rewrite Hd. apply orb_true_r.
Qed.

Lemma length_lstrip_by (p : ascii → bool) (s : string) :
  String.length (lstrip_by p s) ≤ String.length s.
Proof.
  destruct (lstrip_by_split p s) as (w & Hs & _).
  rewrite Hs at 2. rewrite StrFacts.length_app. lia.
Qed.

(** A stripped text is stripped on each side. *)
Lemma stripped_sides (s : string) :
  strip s = s → lstrip_by isspace s = s ∧ rstrip_by isspace s = s.
Proof.
  unfold strip, strip_by. intros Hs.
  pose proof (length_rstrip_by isspace (lstrip_by isspace s)) as Hr.
  pose proof (length_lstrip_by isspace s) as Hl.
  rewrite Hs in Hr.
  destruct (lstrip_by_split isspace s) as (w & Hw & _).
  assert (w = "") as ->.
  { apply (f_equal String.length) in Hw. rewrite StrFacts.length_app in Hw.
    destruct w; [done|simpl in Hw; lia]. }
  change ("" +:+ ?x) with x in Hw. rewrite <- Hw in Hs. by rewrite <- Hw.
Qed.

Lemma rstripped_tail (p : ascii → bool) (c : ascii) (s : string) :
  rstrip_by p (String c s) = String c s → rstrip_by p s = s.
Proof.
  simpl. destruct (rstrip_by p s) as [|d r] eqn:Hr.
  - destruct (p c); [done|]. by intros [= <-].
  - by intros [= <-].
Qed.

(** Stripping a text on the left, when no line of it starts with white
    space, takes empty lines away from its start and nothing else. *)
Lemma lstrip_lines (text : string) :
  Forall (λ line, lstrip_by isspace line = line) (split_char "010" text) →
  ∃ before, split_char "010" text = before ++ split_char "010" (lstrip_by isspace text).
Proof.
  induction text as [|c text IH]; [by exists []|].
  destruct (split_char_cons "010" c text) as (hd & tl & Hs & ->). rewrite Hs in IH.
  cbn [lstrip_by]. destruct (isspace c) eqn:Hc.
  - case_bool_decide as Hnl.
    + intros [_ Hall]%Forall_cons. destruct (IH Hall) as (before & Hbefore).
      exists ("" :: before). by rewrite Hbefore.
    + intros [Hline _]%Forall_cons. simpl in Hline. rewrite Hc in Hline.
      pose proof (length_lstrip_by isspace hd) as Hlen. rewrite Hline in Hlen.
      simpl in Hlen. lia.
  - intros _. exists []. simpl. rewrite Hs. by case_bool_decide.
Qed.

(** Stripping it on the right, when no line ends with white space, takes
    empty lines away from its end and nothing else. *)
Lemma rstrip_lines (text : string) :
  Forall (λ line, rstrip_by isspace line = line) (split_char "010" text) →
  split_char "010" (rstrip_by isspace text) = [""]
  ∨ ∃ after, split_char "010" text = split_char "010" (rstrip_by isspace text) ++ after.
Proof.
  induction text as [|c text IH]; [by left|].
  destruct (split_char_cons "010" c text) as (hd & tl & Hs & ->). rewrite Hs in IH.
  cbn [rstrip_by]. case_bool_decide as Hnl.
  - subst c. intros [_ Hall]%Forall_cons.
    destruct (rstrip_by isspace text) as [|d r] eqn:Hr; [by left|]. right.
    destruct (IH Hall) as [Hempty|(after & Hafter)].
    + by apply split_char_empty in Hempty.
    + exists after. rewrite Hafter.
      destruct (split_char_cons "010" "010" (String d r)) as (hd' & tl' & Hs' & ->).
      by rewrite Hs', bool_decide_true.
  - intros [Hline Hall]%Forall_cons.
    assert (Forall (λ line, rstrip_by isspace line = line) (hd :: tl)) as Hall'.
    { constructor; [|done]. by eapply rstripped_tail. }
    destruct (rstrip_by isspace text) as [|d r] eqn:Hr.
    + destruct (isspace c) eqn:Hc; [by left|]. right.
      assert (hd = "") as ->.
      { apply rstrip_by_nil in Hr.
        assert (forall_chars isspace hd = true) as Hhd.
        { eapply chars_within_forall; [|exact Hr].
          eapply (split_char_parts "010" text). rewrite Hs. left. }
        apply rstripped_tail in Hline. by rewrite rstrip_by_blank in Hline. }
      exists tl. simpl. by rewrite bool_decide_false.
    + right. destruct (IH Hall') as [Hempty|(after & Hafter)].
      * by apply split_char_empty in Hempty.
      * destruct (split_char_cons "010" c (String d r)) as (hd' & tl' & Hs' & ->).
        rewrite Hs' in Hafter. rewrite bool_decide_false by done.
        injection Hafter as -> ->. by exists after.
Qed.

Lemma strip_idempotent (s : string) : strip (strip s) = strip s.
Proof.
  destruct (lstrip_by_split isspace s) as (w1 & H1 & Hw1).
  destruct (rstrip_by_split isspace (lstrip_by isspace s)) as (w2 & H2 & Hw2).
  assert (s = w1 +:+ strip s +:+ w2) as Hs.
  { unfold strip, strip_by. by rewrite <- H2. }
  symmetry. rewrite Hs at 1. by apply strip_padded.
Qed.

(** The lines of a stripped text, when the lines were stripped. *)
Lemma strip_lines (text : string) :
  Forall (λ line, strip line = line) (split_char "010" text) →
  Forall (λ line, strip line = line) (split_char "010" (strip text)).
Proof.
  intros Hall.
  assert (Forall (λ line, lstrip_by isspace line = line) (split_char "010" text)) as Hleft.
  { eapply Forall_impl; [exact Hall|]. intros line Hline. by apply stripped_sides. }
  destruct (lstrip_lines text Hleft) as (before & Hbefore).
  rewrite Hbefore in Hall. apply Forall_app in Hall as [_ Hall].
  assert (Forall (λ line, rstrip_by isspace line = line)
                 (split_char "010" (lstrip_by isspace text))) as Hright.
  { eapply Forall_impl; [exact Hall|]. intros line Hline. by apply stripped_sides. }
  unfold strip at 2, strip_by.
  destruct (rstrip_lines _ Hright) as [->|(after & Hafter)].
  - by repeat constructor.
  - rewrite Hafter in Hall. by apply Forall_app in Hall as [Hall _].
Qed.

Lemma squeeze_blank_lines_blank (skip : nat) (text : string) :
  forall_chars isspace text = true →
  forall_chars isspace (squeeze_blank_lines skip text) = true.
Proof.
  revert skip. induction text as [|c text IH]; intros skip; [done|].
  cbn [forall_chars squeeze_blank_lines]. intros [Hc Htext]%andb_true_iff.
  destruct skip; [|by apply IH].
  destruct (_ && _); cbn [forall_chars]; rewrite ?Hc, IH; done.
Qed.

Lemma join_lines_blank (lines : list string) :
  Forall (λ line, forall_chars isspace line = true) lines →
  forall_chars isspace (join_lines lines) = true.
Proof.
  induction lines as [|line lines IH]; [done|]. intros [Hline Hall]%Forall_cons.
  destruct lines as [|line' lines]; [done|].
  change (join_lines (line :: line' :: lines))
    with (line +:+ String "010" (join_lines (line' :: lines))).
  rewrite forall_chars_app, Hline. cbn [forall_chars andb].
  by rewrite IH.
Qed.

(** X23. The text [_clean_text] returns is stripped, and so is every line
    of it: no line starts or ends with white space and the text neither
    starts nor ends with an empty line. A text of white space only is
    cleaned to the empty text. *)
Theorem clean_text_strips_every_line (text : string) :
  strip (_clean_text text) = _clean_text text
  ∧ Forall (λ line, strip line = line) (split_char "010" (_clean_text text))
  ∧ (forall_chars isspace text = true → _clean_text text = "").
Proof.
  unfold _clean_text. cbv zeta.
  set (lines := strip <$> split_char "010" (squeeze_blank_lines 0 text)).
  split_and!.
  - apply strip_idempotent.
  - apply strip_lines. rewrite split_join_lines.
    + apply Forall_fmap, Forall_forall. intros line _. apply strip_idempotent.
    + unfold lines. pose proof (split_char_length "010" (squeeze_blank_lines 0 text)).
      destruct (split_char "010" (squeeze_blank_lines 0 text)); [simpl in *; lia|done].
    + apply Forall_fmap, Forall_forall. intros line Hline. simpl.
      destruct (mem_char "010" (strip line)) eqn:Hmem; [|done].
      apply strip_within in Hmem.
      by rewrite (proj1 (split_char_parts _ _ _ Hline)) in Hmem.
  - intros Hblank. apply strip_all_space, join_lines_blank.
    apply Forall_fmap, Forall_forall. intros line Hline. simpl.
    rewrite strip_all_space; [done|].
    eapply chars_within_forall; [by eapply split_char_parts|].
    by apply squeeze_blank_lines_blank.
Qed.

(** *** Blank lines *)

Lemma count_char_take_while_app (p : ascii → bool) (a b : string) :
  count_char "010" (take_while p a) ≤ count_char "010" (take_while p (a +:+ b)).
Proof.
  induction a as [|c a IH]; [simpl; lia|]. rewrite app_cons. simpl.
  destruct (p c); simpl; lia.
Qed.

Lemma take_while_run (p : ascii → bool) (run rest : string) :
  forall_chars p run = true →
  (rest = "" ∨ ∃ c r, rest = String c r ∧ p c = false) →
  take_while p (run +:+ rest) = run.
Proof.
  intros Hrun Hrest. induction run as [|c run IH].
  - change ("" +:+ rest) with rest. destruct Hrest as [->|(c & r & -> & Hc)]; [done|].
    simpl. by rewrite Hc.
  - rewrite app_cons. simpl in *. apply andb_true_iff in Hrun as [-> Hrun].
    by rewrite IH.
Qed.

Lemma has_blank_gap_app_r (a b : string) :
  has_blank_gap b = true → has_blank_gap (a +:+ b) = true.
Proof.
  intros Hb. induction a as [|c a IH]; [done|].
  rewrite app_cons. cbn [has_blank_gap]. rewrite IH. apply orb_true_r.
Qed.

Lemma has_blank_gap_app_l (a b : string) :
  has_blank_gap a = true → has_blank_gap (a +:+ b) = true.
Proof.
  induction a as [|c a IH]; [done|]. rewrite app_cons. cbn [has_blank_gap].
  intros [[Hc Hcount]%andb_true_iff|Ha]%orb_true_iff.
  - rewrite Hc. apply Nat.leb_le in Hcount.
    pose proof (count_char_take_while_app isspace a b).
    rewrite (proj2 (Nat.leb_le 2 _)) by lia. done.
  - rewrite (IH Ha). apply orb_true_r.
Qed.

Lemma has_blank_gap_part (a b c : string) :
  has_blank_gap (a +:+ b +:+ c) = false → has_blank_gap b = false.
Proof.
  intros Hall. destruct (has_blank_gap b) eqn:Hb; [|done].
  by rewrite (has_blank_gap_app_r a _ (has_blank_gap_app_l b c Hb)) in Hall.
Qed.

Lemma has_blank_gap_no_line_feed (a b : string) :
  mem_char "010" a = false → has_blank_gap (a +:+ b) = has_blank_gap b.
Proof.
  induction a as [|c a IH]; [done|]. rewrite app_cons. cbn [has_blank_gap mem_char].
  intros [Hc Ha]%orb_false_iff. apply bool_decide_eq_false in Hc.
  rewrite bool_decide_false by congruence. by rewrite IH.
Qed.

(** Three line feeds in a row are such a place. *)
Lemma three_line_feeds_gap (text : string) :
  contains (String "010" (String "010" (String "010" ""))) text = true →
  has_blank_gap text = true.
Proof.
  induction text as [|c text IH]; [done|]. cbn [contains has_blank_gap].
  intros [Hprefix|Hlater]%orb_true_iff; [|rewrite (IH Hlater); apply orb_true_r].
  cbn [String.prefix] in Hprefix.
  destruct (ascii_dec "010" c) as [<-|]; [|done].
  destruct text as [|d text]; cbn [String.prefix] in Hprefix; [done|].
  destruct (ascii_dec "010" d) as [<-|]; [|done].
  destruct text as [|e text]; cbn [String.prefix] in Hprefix; [done|].
  destruct (ascii_dec "010" e) as [<-|]; [|done].
  rewrite bool_decide_true by done. cbn [take_while].
  change (isspace "010") with true. cbn [count_char andb].
  rewrite !bool_decide_true by done. simpl. done.
Qed.

(** **** The substitution leaves no place to match *)

Lemma squeeze_skip (skip : nat) (text : string) :
  squeeze_blank_lines skip text = squeeze_blank_lines 0 (drop skip text).
Proof.
  revert text. induction skip as [|skip IH]; intros text; [by destruct text|].
  destruct text as [|c text]; [done|]. cbn [squeeze_blank_lines drop]. apply IH.
Qed.

Lemma squeeze_run (run rest : string) :
  forall_chars isspace run = true → count_char "010" run ≤ 2 →
  (rest = "" ∨ ∃ c r, rest = String c r ∧ isspace c = false) →
  squeeze_blank_lines 0 (run +:+ rest) = run +:+ squeeze_blank_lines 0 rest.
Proof.
  intros Hrun Hcount Hrest. induction run as [|c run IH]; [done|].
  rewrite !app_cons. cbn [squeeze_blank_lines].
  cbn [forall_chars] in Hrun. apply andb_true_iff in Hrun as [Hc Hrun].
  rewrite (take_while_run isspace run rest Hrun Hrest).
  cbn [count_char] in Hcount.
  destruct (bool_decide (c = "010"%char)) eqn:Hnl; cbn [andb].
  - rewrite (proj2 (Nat.leb_gt 2 _)) by lia. rewrite IH by (done || lia). done.
  - rewrite IH by (done || lia). done.
Qed.

Lemma squeeze_head (rest : string) :
  (rest = "" ∨ ∃ c r, rest = String c r ∧ isspace c = false) →
  squeeze_blank_lines 0 rest = ""
  ∨ ∃ c r, squeeze_blank_lines 0 rest = String c r ∧ isspace c = false.
Proof.
  intros [->|(c & r & -> & Hc)]; [by left|]. right. cbn [squeeze_blank_lines].
  rewrite bool_decide_false; [by eexists _, _|]. by intros ->.
Qed.

Lemma after_last_newline_spec (run : string) :
  ∃ through, run = through +:+ after_last_newline run
    ∧ mem_char "010" (after_last_newline run) = false
    ∧ String.length run - String.length (after_last_newline run) = String.length through.
Proof.
  induction run as [|c run (through & Hrun & Hno & Hlen)]; [by exists ""|].
  cbn [after_last_newline]. destruct (mem_char "010" run) eqn:Hmem.
  - exists (String c through). rewrite app_cons. split_and!; [by f_equal|done|].
    apply (f_equal String.length) in Hrun. rewrite StrFacts.length_app in Hrun.
    simpl. lia.
  - case_bool_decide as Hnl.
    + exists (String c ""). split_and!; [done|done|]. simpl. lia.
    + exists "". split_and!; [done| |simpl; lia]. simpl. rewrite Hmem.
      rewrite bool_decide_false; [done|congruence].
Qed.

Lemma drop_app_length (a b : string) : drop (String.length a) (a +:+ b) = b.
Proof. induction a as [|c a IH]; [by destruct b|]. rewrite app_cons. by simpl. Qed.

Lemma squeeze_leaves_no_gap (skip : nat) (text : string) :
  has_blank_gap (squeeze_blank_lines skip text) = false.
Proof.
  revert skip. induction text as [|c text IH]; intros skip; [done|].
  cbn [squeeze_blank_lines]. destruct skip as [|skip]; [|apply IH].
  set (run := take_while isspace text).
  assert (forall_chars isspace run = true) as Hrun by apply take_while_forall.
  pose proof (UrlProps.drop_while_head isspace text) as Hrest.
  pose proof (take_drop_while isspace text) as Htext. fold run in Htext.
  destruct (bool_decide (c = "010"%char) && (2 <=? count_char "010" run)) eqn:Hmatch.
  - destruct (after_last_newline_spec run) as (through & Hthrough & Hno & Hlen).
    rewrite Hlen, squeeze_skip.
    assert (drop (String.length through) text
            = after_last_newline run +:+ drop_while isspace text) as ->.
    { rewrite Htext at 1. rewrite Hthrough at 1.
      by rewrite StrFacts.app_assoc, drop_app_length. }
    assert (forall_chars isspace (after_last_newline run) = true) as Hafter.
    { rewrite Hthrough, forall_chars_app in Hrun. by apply andb_true_iff in Hrun as [_ ?]. }
    rewrite squeeze_run; [|done|rewrite count_char_none by done; lia|done].
    set (tail := squeeze_blank_lines 0 (drop_while isspace text)).
    assert (has_blank_gap tail = false) as Htail.
    { unfold tail.
      rewrite <- (drop_app_length run (drop_while isspace text)), <- Htext, <- squeeze_skip.
      apply IH. }
    assert (take_while isspace (after_last_newline run +:+ tail) = after_last_newline run)
      as Hhead.
    { apply take_while_run; [done|]. by apply squeeze_head. }
    cbn [has_blank_gap take_while]. change (isspace "010") with true. cbn iota.
    rewrite Hhead. cbn [count_char]. rewrite !bool_decide_true by done.
    rewrite count_char_none by done. cbn [andb Nat.leb Nat.add orb].
    by rewrite has_blank_gap_no_line_feed.
  - cbn [has_blank_gap]. rewrite IH, orb_false_r.
    case_bool_decide as Hnl; [|done]. cbn [andb] in *.
    apply Nat.leb_gt in Hmatch.
    rewrite Htext, squeeze_run; [|done|lia|done].
    rewrite take_while_run; [|done|by apply squeeze_head].
    by apply Nat.leb_gt.
Qed.

(** **** The same place, seen in the lines *)

Lemma join_lines_cons (line line' : string) (lines : list string) :
  join_lines (line :: line' :: lines) = line +:+ String "010" (join_lines (line' :: lines)).
Proof. done. Qed.

Lemma join_lines_char (d : ascii) (hd : string) (tl : list string) :
  join_lines (String d hd :: tl) = String d (join_lines (hd :: tl)).
Proof. by destruct tl. Qed.

Lemma join_split_lines (text : string) : join_lines (split_char "010" text) = text.
Proof.
  induction text as [|c text IH]; [done|].
  destruct (split_char_cons "010" c text) as (hd & tl & Hs & ->). rewrite Hs in IH.
  case_bool_decide as Hnl.
  - subst c. by rewrite join_lines_cons, IH.
  - by rewrite join_lines_char, IH.
Qed.

Lemma take_while_app_all (p : ascii → bool) (a b : string) :
  forall_chars p a = true → take_while p (a +:+ b) = a +:+ take_while p b.
Proof.
  induction a as [|c a IH]; [done|]. rewrite !app_cons. simpl.
  intros [-> Ha]%andb_true_iff. by rewrite IH.
Qed.

Lemma take_while_app_stop (p : ascii → bool) (a b : string) :
  forall_chars p a = false → take_while p (a +:+ b) = take_while p a.
Proof.
  induction a as [|c a IH]; [done|]. rewrite !app_cons. simpl.
  destruct (p c); [|done]. simpl. intros Ha. by rewrite IH.
Qed.

Lemma run_count_line (line : string) :
  mem_char "010" line = false → count_char "010" (take_while isspace line) = 0.
Proof.
  intros Hline. apply count_char_none.
  destruct (mem_char "010" (take_while isspace line)) eqn:Hmem; [|done].
  apply take_while_within in Hmem. congruence.
Qed.

Lemma run_count_cons (line line' : string) (lines : list string) :
  mem_char "010" line = false →
  count_char "010" (take_while isspace (join_lines (line :: line' :: lines)))
  = if forall_chars isspace line
    then S (count_char "010" (take_while isspace (join_lines (line' :: lines))))
    else 0.
Proof.
  intros Hline. rewrite join_lines_cons.
  destruct (forall_chars isspace line) eqn:Hblank.
  - rewrite take_while_app_all by done. rewrite count_char_app, count_char_none by done.
    cbn [take_while]. change (isspace "010") with true. cbn iota.
    cbn [count_char]. by rewrite bool_decide_true.
  - rewrite take_while_app_stop by done. by apply run_count_line.
Qed.

Lemma head_run_count (lines : list string) :
  Forall (λ line, mem_char "010" line = false) lines →
  (2 <=? count_char "010" (take_while isspace (join_lines lines)))
  = match lines with
    | l1 :: l2 :: _ :: _ => forall_chars isspace l1 && forall_chars isspace l2
    | _ => false
    end.
Proof.
  destruct lines as [|l1 [|l2 [|l3 lines]]].
  - done.
  - intros [H1 _]%Forall_cons. cbn [join_lines]. by rewrite run_count_line.
  - intros [H1 [H2 _]%Forall_cons]%Forall_cons.
    rewrite run_count_cons by done. cbn [join_lines]. rewrite run_count_line by done.
    by destruct (forall_chars isspace l1).
  - intros [H1 [H2 _]%Forall_cons]%Forall_cons.
    rewrite !run_count_cons by done.
    destruct (forall_chars isspace l1); [|done].
    by destruct (forall_chars isspace l2).
Qed.

Lemma has_blank_gap_join (lines : list string) :
  Forall (λ line, mem_char "010" line = false) lines →
  has_blank_gap (join_lines lines) = blank_pair lines.
Proof.
  induction lines as [|l0 rest IH]; [done|]. intros [H0 Hrest]%Forall_cons.
  destruct rest as [|l1 rest].
  - cbn [join_lines blank_pair].
    rewrite <- (StrFacts.app_nil_r l0). by rewrite has_blank_gap_no_line_feed.
  - rewrite join_lines_cons, has_blank_gap_no_line_feed by done.
    cbn [has_blank_gap]. rewrite bool_decide_true by done. cbn [andb].
    rewrite IH, head_run_count by done.
    by destruct rest as [|l2 [|l3 rest]].
Qed.

Lemma blank_strip (line : string) :
  forall_chars isspace (strip line) = forall_chars isspace line.
Proof.
  destruct (forall_chars isspace line) eqn:Hline.
  - by rewrite strip_all_space.
  - destruct (forall_chars isspace (strip line)) eqn:Hstrip; [|done].
    apply strip_blank in Hstrip. rewrite strip_idempotent in Hstrip.
    apply strip_blank in Hstrip. congruence.
Qed.

Lemma blank_pair_strip (lines : list string) :
  blank_pair (strip <$> lines) = blank_pair lines.
Proof.
  induction lines as [|l0 rest IH]; [done|].
  rewrite fmap_cons. cbn [blank_pair]. rewrite IH.
  destruct rest as [|l1 [|l2 [|l3 rest]]]; try done.
  rewrite !fmap_cons, !blank_strip. done.
Qed.

Lemma stripped_lines_no_line_feed (text : string) :
  Forall (λ line, mem_char "010" line = false) (strip <$> split_char "010" text).
Proof.
  apply Forall_fmap, Forall_forall. intros line Hline. simpl.
  destruct (mem_char "010" (strip line)) eqn:Hmem; [|done].
  apply strip_within in Hmem.
  by rewrite (proj1 (split_char_parts _ _ _ Hline)) in Hmem.
Qed.

(** Stripping the lines makes no new place to match. *)
Lemma has_blank_gap_strip_lines (text : string) :
  has_blank_gap (join_lines (strip <$> split_char "010" text)) = has_blank_gap text.
Proof.
  rewrite has_blank_gap_join by apply stripped_lines_no_line_feed.
  rewrite blank_pair_strip, <- has_blank_gap_join, join_split_lines; [done|].
  apply Forall_forall. intros line Hline. by eapply split_char_parts.
Qed.

Lemma clean_text_no_gap (text : string) : has_blank_gap (_clean_text text) = false.
Proof.
  unfold _clean_text. cbv zeta.
  set (joined := join_lines (strip <$> split_char "010" (squeeze_blank_lines 0 text))).
  assert (has_blank_gap joined = false) as Hjoined.
  { unfold joined. rewrite has_blank_gap_strip_lines. apply squeeze_leaves_no_gap. }
  destruct (lstrip_by_split isspace joined) as (w1 & H1 & _).
  destruct (rstrip_by_split isspace (lstrip_by isspace joined)) as (w2 & H2 & _).
  apply (has_blank_gap_part w1 _ w2). unfold strip, strip_by. by rewrite <- H2, <- H1.
Qed.

(** X24. The text [_clean_text] returns never holds three line feeds in a
    row: between two lines of text there is at most one empty line. *)
Theorem clean_text_leaves_single_blank_lines (text : string) :
  contains (String "010" (String "010" (String "010" ""))) (_clean_text text) = false.
Proof.
  destruct (contains _ (_clean_text text)) eqn:Hthree; [|done].
  apply three_line_feeds_gap in Hthree. by rewrite clean_text_no_gap in Hthree.
Qed.

Lemma squeeze_nothing (text : string) :
  has_blank_gap text = false → squeeze_blank_lines 0 text = text.
Proof.
  induction text as [|c text IH]; [done|]. cbn [has_blank_gap squeeze_blank_lines].
  intros [-> Htext]%orb_false_iff. by rewrite IH.
Qed.

Lemma fmap_stripped (lines : list string) :
  Forall (λ line, strip line = line) lines → strip <$> lines = lines.
Proof.
  induction 1 as [|line lines Hline _ IH]; [done|]. by rewrite fmap_cons, Hline, IH.
Qed.

(** X25. Cleaning is idempotent: [_clean_text] leaves a text it has
    returned as it is. *)
Theorem clean_text_is_idempotent (text : string) :
  _clean_text (_clean_text text) = _clean_text text.
Proof.
  set (cleaned := _clean_text text).
  assert (strip cleaned = cleaned) as Hstrip by apply strip_idempotent.
  assert (Forall (λ line, strip line = line) (split_char "010" cleaned)) as Hlines.
  { unfold cleaned, _clean_text. cbv zeta. apply strip_lines.
    rewrite split_join_lines.
    - apply Forall_fmap, Forall_forall. intros line _. apply strip_idempotent.
    - pose proof (split_char_length "010" (squeeze_blank_lines 0 text)).
      destruct (split_char "010" (squeeze_blank_lines 0 text)); [simpl in *; lia|done].
    - apply stripped_lines_no_line_feed. }
  unfold _clean_text at 1. cbv zeta.
  rewrite squeeze_nothing by apply clean_text_no_gap.
  fold cleaned. by rewrite fmap_stripped, join_split_lines.
Qed.

End ExtractorProps.
